(** * Class-image balancer of scal-sdt ([gen_class_imgs.py])

    A shallow embedding of [generate_class_images] and [main] together with
    the collaborators they drive: Python's binary64 floats, insertion-ordered
    dictionaries, a directory tree, the diffusion pipeline seen as an oracle,
    and the exceptions that abort a run. *)

From Stdlib Require Import ZArith Lia.
From Stdlib Require Import Floats.SpecFloat.
From Stdlib Require Strings.Byte.
From stdpp Require Import gmap strings list pretty.
From Equations Require Import Equations.
From Equations.Prop Require Import Logic.

#[local] Open Scope string_scope.
#[local] Open Scope list_scope.
#[local] Open Scope Z_scope.

(** ** Exceptions and results *)

(** The exceptions a run of the script can die with.  [RuntimeError] stands
    for whatever the diffusion pipeline itself raises. *)
Inductive exn :=
  | ZeroDivisionError
  | OverflowError
  | ValueError
  | AssertionError
  | FileExistsError
  | NotADirectoryError
  | IsADirectoryError
  | FileNotFoundError
  | RuntimeError.

Inductive result (A : Type) :=
  | Ok (a : A)
  | Raise (e : exn).
Arguments Ok {A} a.
Arguments Raise {A} e.

#[global] Instance result_ret : MRet result := fun _ a => Ok a.
#[global] Instance result_bind : MBind result := fun _ _ f r =>
  match r with
  | Ok a => f a
  | Raise e => Raise e
  end.

Definition is_Ok {A} (r : result A) : bool :=
  match r with Ok _ => true | Raise _ => false end.

(** ** Python floats: IEEE 754 binary64 *)

Module PyFloat.

Definition prec : Z := 53.
Definition emax : Z := 1024.

Definition zero : spec_float := S754_zero false.
Definition one : spec_float := S754_finite false 4503599627370496 (-52).

Definition is_finite (x : spec_float) : bool :=
  match x with
  | S754_zero _ | S754_finite _ _ _ => true
  | S754_infinity _ | S754_nan => false
  end.

(** [float(z)]: the nearest double, ties to even; an integer that rounds
    past the largest double raises. *)
Definition of_int (z : Z) : result spec_float :=
  match binary_normalize prec emax z 0 false with
  | S754_infinity _ => Raise OverflowError
  | x => Ok x
  end.

(** [z * x] for an [int] and a [float]: the integer is converted first. *)
Definition int_mul (z : Z) (x : spec_float) : result spec_float :=
  y ← of_int z; Ok (SFmul prec emax y x).

(** A quotient or product too large for a double is an error in Python,
    never an infinity. *)
Definition no_overflow (x : spec_float) : result spec_float :=
  match x with
  | S754_infinity _ => Raise OverflowError
  | _ => Ok x
  end.

(** [a / b] on integers: the correctly rounded quotient of the exact
    integers ([SFdiv] aligns and divides the two mantissas as they are). *)
Definition truediv (a b : Z) : result spec_float :=
  match a, b with
  | _, Z0 => Raise ZeroDivisionError
  | Z0, _ => Ok (S754_zero (b <? 0))
  | Zpos ma, Zpos mb =>
      no_overflow (SFdiv prec emax (S754_finite false ma 0) (S754_finite false mb 0))
  | Zpos ma, Zneg mb =>
      no_overflow (SFdiv prec emax (S754_finite false ma 0) (S754_finite true mb 0))
  | Zneg ma, Zpos mb =>
      no_overflow (SFdiv prec emax (S754_finite true ma 0) (S754_finite false mb 0))
  | Zneg ma, Zneg mb =>
      no_overflow (SFdiv prec emax (S754_finite true ma 0) (S754_finite true mb 0))
  end.

(** Nearest integer to [m / 2^k], ties to the even one. *)
Definition round_half_even (m : Z) (k : Z) : Z :=
  let q := Z.shiftr m k in
  let r := Z.land m (Z.ones k) in
  match Z.compare (2 * r) (Z.shiftl 1 k) with
  | Lt => q
  | Gt => q + 1
  | Eq => if Z.even q then q else q + 1
  end.

(** [round(x)] with one argument: an [int], ties to even; NaN and the
    infinities raise. *)
Definition round (x : spec_float) : result Z :=
  match x with
  | S754_nan => Raise ValueError
  | S754_infinity _ => Raise OverflowError
  | S754_zero _ => Ok 0
  | S754_finite s m e =>
      let n := if 0 <=? e then Z.shiftl (Zpos m) e
               else round_half_even (Zpos m) (- e) in
      Ok (if s then - n else n)
  end.

(** [sum(xs)] over floats, left to right from zero, each addition rounded
    (CPython before 3.12; later versions compensate the rounding errors). *)
Definition sum (xs : list spec_float) : spec_float :=
  fold_left (SFadd prec emax) xs zero.

(** [x == 1]. *)
Definition eq_one (x : spec_float) : bool := SFeqb x one.

End PyFloat.

(** ** Python dictionaries, in insertion order *)

Module Dict.
Section Dict.
Context {K V : Type} `{EqDecision K}.

(** [d.get(k)] *)
Fixpoint get (d : list (K * V)) (k : K) : option V :=
  match d with
  | [] => None
  | (k', v) :: d' => if decide (k = k') then Some v else get d' k
  end.

(** [d.get(k, v0)] *)
Definition get_default (d : list (K * V)) (k : K) (v0 : V) : V :=
  default v0 (get d k).

(** [d[k] = v]: an existing key keeps its position, a new one goes last. *)
Fixpoint set (d : list (K * V)) (k : K) (v : V) : list (K * V) :=
  match d with
  | [] => [(k, v)]
  | (k', v') :: d' =>
      if decide (k = k') then (k, v) :: d' else (k', v') :: set d' k v
  end.

Definition keys (d : list (K * V)) : list K := d.*1.
Definition values (d : list (K * V)) : list V := d.*2.

(** What a Python dictionary guarantees of its items: no key twice. *)
Definition wf (d : list (K * V)) : Prop := NoDup (keys d).

(** [{key x: val x for x in xs if cond x}] *)
Definition comp {A} (key : A → K) (val : A → V) (cond : A → bool)
    (xs : list A) : list (K * V) :=
  foldl (λ d x, if cond x then set d (key x) (val x) else d) [] xs.

(** The same where computing a value may raise: the first exception ends
    the comprehension. *)
Definition comp_result {A} (key : A → K) (val : A → result V)
    (xs : list A) : result (list (K * V)) :=
  foldl (λ acc x, d ← acc; v ← val x; Ok (set d (key x) v)) (Ok []) xs.

End Dict.
End Dict.

(** ** The directory tree *)

(** A path is the list of its components below the root. *)
Abbreviation path := (list string).
Abbreviation bytes := (list Byte.byte).

#[warnings="-register-all"]
Inductive node :=
  | File (data : bytes)
  | Dir (entries : gmap string node).

Module FS.

Fixpoint lookup (n : node) (p : path) : option node :=
  match p with
  | [] => Some n
  | c :: p' =>
      match n with
      | File _ => None
      | Dir es =>
          match es !! c with
          | Some n' => lookup n' p'
          | None => None
          end
      end
  end.

Definition is_dir (n : node) (p : path) : bool :=
  match lookup n p with
  | Some (Dir _) => true
  | _ => false
  end.

(** A regular file where [p] needs a directory, or at [p] itself. *)
Fixpoint file_in_the_way (p : path) (n : node) : bool :=
  match n, p with
  | File _, _ => true
  | Dir _, [] => false
  | Dir es, c :: p' =>
      match es !! c with
      | Some n' => file_in_the_way p' n'
      | None => false
      end
  end.

(** [Path.mkdir(parents=True, exist_ok=True)]: every missing directory on
    the way is created, an existing directory is accepted as it is, and a
    regular file in the way raises. *)
Fixpoint mkdir (p : path) (n : node) : result node :=
  match p, n with
  | [], Dir _ => Ok n
  | [], File _ => Raise FileExistsError
  | _ :: _, File _ => Raise NotADirectoryError
  | c :: p', Dir es =>
      child ← mkdir p' (default (Dir ∅) (es !! c));
      Ok (Dir (<[c := child]> es))
  end.

(** Opening [p] for writing and storing [data]: the file is created in an
    existing directory or replaces the regular file already there. *)
Fixpoint write (p : path) (data : bytes) (n : node) : result node :=
  match p, n with
  | [], File _ => Ok (File data)
  | [], Dir _ => Raise IsADirectoryError
  | _ :: _, File _ => Raise NotADirectoryError
  | c :: p', Dir es =>
      match es !! c, p' with
      | Some child, _ =>
          child' ← write p' data child;
          Ok (Dir (<[c := child']> es))
      | None, [] => Ok (Dir (<[c := File data]> es))
      | None, _ :: _ => Raise FileNotFoundError
      end
  end.

End FS.

(** ** Configuration, requests and the observable trace *)

Abbreviation size := (Z * Z)%type.

(** [concept.class_set.auto_generate] *)
Record auto_generate_config := {
  ag_enabled : bool;
  num_target : Z;
  batch_size : Z;
  ag_negative_prompt : string;
  cfg_scale : spec_float;
  steps : Z }.

Record concept_config := {
  class_set_path : path;
  class_set_prompt : string;
  auto_generate : auto_generate_config;
  instance_set_path : path }.

(** The merged configuration [main] works on. *)
Record config := {
  prior_preservation_enabled : bool;
  aspect_ratio_bucket_enabled : bool;
  model : string;
  vae : string;
  tokenizer : string;
  data_resolution : Z;
  data_concepts : list concept_config }.

(** The keyword arguments of one call of the pipeline. *)
Record request := {
  prompt : string;
  negative_prompt : string;
  guidance_scale : spec_float;
  num_inference_steps : Z;
  num_images_per_prompt : Z;
  width : Z;
  height : Z }.

(** The calls into the libraries that build the pipeline, lines 89 to 128
    of [main]: the four [from_pretrained] with the class they are called
    on, the model name or path and the subfolder; [unet.half()];
    [unet.set_use_memory_efficient_attention_xformers(True)]; the import and
    the construction of the scheduler; the construction of the pipeline;
    [pipeline.set_progress_bar_config(disable=True)]; [pipeline.to("cuda")]. *)
Inductive build_step :=
  | FromPretrained (cls name subfolder : string)
  | UnetHalf
  | UnetXformers
  | NewScheduler
  | NewPipeline
  | ProgressBarOff
  | ToCuda.

(** What a run does that can be seen from outside, besides the files. *)
Inductive event :=
  | EvWarning (msg : string)
  | EvInfoDist (label : string) (dist : list (size * Z))
  | EvInfoTotal (n : Z)
  | EvBuild (step : build_step)
  | EvProgressOpen (total : Z)
  | EvPostfix (sz : size)
  | EvPipelineCall (r : request)
  | EvProgressUpdate (n : Z).

Record World := {
  fs : node;
  events : list event }.

(** A bucket of the bucket manager: its size and the ids put in it. *)
Record bucket := {
  bucket_size : size;
  bucket_ids : list string }.

(** What the script calls and does not define.  The pipeline answers a
    request with a batch of images or an exception; its answer may depend on
    everything that happened before (model state, random seeds).  A step of
    the build comes back or raises (no network, no such model, no GPU, a
    library that is not installed), and leaves the disk as it likes (weights
    fetched into a cache); its outcome may depend on what happened before
    and on the disk. *)
Record Collaborators := {
  Image : Type;
  tobytes : Image → bytes;
  md5_hexdigest : bytes → string;
  jpeg_encode : Image → Z → bytes;
  pipeline : list event → request → result (list Image);
  build : list event → node → build_step → result unit * node;
  get_images : node → path → result (list path);
  get_id_size_map : node → list path → result (list (string * size));
  bucket_manager : list (string * size) → list bucket }.

(** Return values. *)
Inductive pyval :=
  | PyNone
  | PyInt (z : Z).

(** ** Effectful code: state and exceptions *)

Definition M (A : Type) : Type := World → result A * World.

Definition ret {A} (a : A) : M A := λ w, (Ok a, w).

Definition bind {A B} (m : M A) (k : A → M B) : M B := λ w,
  match m w with
  | (Ok a, w') => k a w'
  | (Raise e, w') => (Raise e, w')
  end.

Notation "'do' x <- m ; k" := (bind m (λ x, k))
  (at level 10, x pattern, m at level 100, k at level 200,
   format "'[v' 'do'  x  <-  m ; '/' k ']'").

Definition lift {A} (r : result A) : M A := λ w, (r, w).

Definition emit (e : event) : M unit := λ w,
  (Ok (), {| fs := fs w; events := events w ++ [e] |}).

(** [for x in xs: body x] *)
Fixpoint for_each {A} (xs : list A) (body : A → M unit) : M unit :=
  match xs with
  | [] => ret ()
  | x :: xs' => do _ <- body x; for_each xs' body
  end.

(** ** The planner: lines 31 to 44 of [generate_class_images] *)

(** [cur_dist]: for every size met in the inventory, how many ids have it. *)
Definition cur_dist (class_id_size_map : list (string * size)) : list (size * Z) :=
  Dict.comp
    (λ '(id, sz), sz)
    (λ '(id, sz),
       Z.of_nat (length (filter
         (λ k, Dict.get class_id_size_map k = Some sz)
         (Dict.keys class_id_size_map))))
    (λ _, true)
    class_id_size_map.

(** [round(num_target * p)] *)
Definition round_target (num_target : Z) (p : spec_float) : result Z :=
  x ← PyFloat.int_mul num_target p; PyFloat.round x.

(** [target_dist]: the rounded share of the total for every bucket. *)
Definition target_dist (num_target : Z) (size_dist : list (size * spec_float))
    : result (list (size * Z)) :=
  Dict.comp_result
    (λ '(sz, p), sz)
    (λ '(sz, p), round_target num_target p)
    size_dist.

(** [dist_diff]: the buckets short of their target, with the shortfall. *)
Definition dist_diff (target_dist cur_dist : list (size * Z)) : list (size * Z) :=
  Dict.comp
    (λ '(k, v), k)
    (λ '(k, v), v - Dict.get_default cur_dist k 0)
    (λ '(k, v), bool_decide (v > Dict.get_default cur_dist k 0))
    target_dist.

(** [sum(d.values())] on integers. *)
Definition sum_values (d : list (size * Z)) : Z :=
  foldl Z.add 0 (Dict.values d).

(** The planner as the specification names it: from proportions, total
    target and current counts to the deficit map. *)
Definition plan (proportions : list (size * spec_float)) (total_target : Z)
    (current : list (size * Z)) : result (list (size * Z)) :=
  t ← target_dist total_target proportions; Ok (dist_diff t current).

(** ** [generate_class_images] *)

(** How one turn of a [while True] loop ends. *)
Inductive turn :=
  | Break (r : result unit) (st : World)
  | Continue (target : Z) (st : World).

(** [actual_bs]: what is left of the target when that is less than a full
    batch, a full batch otherwise. *)
Definition actual_bs (target batch_size : Z) : Z :=
  if decide (target - batch_size < 0) then target else batch_size.

Section Script.
Context (X : Collaborators).

(** [class_images_dir.mkdir(parents=True, exist_ok=True)] *)
Definition mkdir (p : path) : M unit := λ w,
  match FS.mkdir p (fs w) with
  | Ok n => (Ok (), {| fs := n; events := events w |})
  | Raise e => (Raise e, w)
  end.

(** [image.save(image_filename, quality=q)] *)
Definition save (image : Image X) (image_filename : path) (quality : Z) : M unit := λ w,
  match FS.write image_filename (jpeg_encode X image quality) (fs w) with
  | Ok n => (Ok (), {| fs := n; events := events w |})
  | Raise e => (Raise e, w)
  end.

(** [pipeline(...).images]: the call is on the trace whether or not it
    comes back with images. *)
Definition call_pipeline (r : request) : M (list (Image X)) := λ w,
  (pipeline X (events w) r,
   {| fs := fs w; events := events w ++ [EvPipelineCall r] |}).

(** Lines 70 to 73: every image goes to [<hash>.jpg] in the directory. *)
Definition save_images (class_images_dir : path) (images : list (Image X)) : M unit :=
  for_each images (λ image,
    let hash := md5_hexdigest X (tobytes X image) in
    let image_filename := class_images_dir ++ [hash +:+ ".jpg"] in
    save image image_filename 93).

(** Lines 60 to 68: the keyword arguments of the call for one batch. *)
Definition batch_request (concept : concept_config) (w h : Z) (actual_bs : Z) : request :=
  let autogen_config := auto_generate concept in
  {| prompt := class_set_prompt concept;
     negative_prompt := ag_negative_prompt autogen_config;
     guidance_scale := cfg_scale autogen_config;
     num_inference_steps := steps autogen_config;
     num_images_per_prompt := actual_bs;
     width := w;
     height := h |}.

(** Lines 60 to 75: one batch, from the request to the progress bar. *)
Definition generate_batch (concept : concept_config) (w h : Z) (actual_bs : Z) : M unit :=
  do images <- call_pipeline (batch_request concept w h actual_bs);
  do _ <- save_images (class_set_path concept) images;
  emit (EvProgressUpdate actual_bs).

(** Lines 54 to 76: one turn of the [while True] loop of a bucket.  It
    either leaves the loop, by [break] or by an exception, or hands the
    next turn what is left of the target. *)
Definition loop_body (concept : concept_config) (w h : Z) (target : Z) (st : World)
    : turn :=
  let autogen_config := auto_generate concept in
  let actual_bs := actual_bs target (batch_size autogen_config) in
  if decide (actual_bs <= 0) then Break (Ok ()) st
  else
    match generate_batch concept w h actual_bs st with
    | (Raise e, st') => Break (Raise e) st'
    | (Ok _, st') => Continue (target - actual_bs) st'
    end.

(** Line 53: [while True], turn after turn until one leaves the loop. *)
Equations? while_true (concept : concept_config) (w h : Z) (target : Z) (st : World)
    : result unit * World by wf (Z.to_nat target) lt :=
  while_true concept w h target st with inspect (loop_body concept w h target st) => {
    | exist _ (Break r st') _ => (r, st')
    | exist _ (Continue target' st') Hturn => while_true concept w h target' st' }.
Proof.
  unfold loop_body in Hturn.
  destruct (decide _) as [|Hpos]; [discriminate|].
  destruct (generate_batch _ _ _ _ _) as [[u|e] st'']; inversion Hturn; subst.
  unfold actual_bs in *. case_decide; lia.
Qed.

(** The same loop run for at most [fuel] turns. *)
Fixpoint turns (fuel : nat) (concept : concept_config) (w h : Z) (target : Z)
    (st : World) : option (result unit * World) :=
  match fuel with
  | O => None
  | S fuel' =>
      match loop_body concept w h target st with
      | Break r st' => Some (r, st')
      | Continue target' st' => turns fuel' concept w h target' st'
      end
  end.

(** Lines 50 to 76: the buckets of the deficit map, in its order. *)
Definition fulfil (concept : concept_config) (dist_diff : list (size * Z)) : M unit :=
  for_each dist_diff (λ '((w, h), target),
    do _ <- emit (EvPostfix (w, h));
    while_true concept w h target).

(** Lines 25 to 32: the directory is made sure of, then read; the result
    is [cur_dist]. *)
Definition inventory (concept : concept_config) : M (list (size * Z)) :=
  let class_images_dir := class_set_path concept in
  do _ <- mkdir class_images_dir;
  do cur_class_images <- (λ w, (get_images X (fs w) class_images_dir, w));
  do class_id_size_map <- (λ w, (get_id_size_map X (fs w) cur_class_images, w));
  ret (cur_dist class_id_size_map).

(** [generate_class_images(pipeline, concept, size_dist)] *)
Definition generate_class_images (concept : concept_config)
    (size_dist : list (size * spec_float)) : M pyval :=
  let autogen_config := auto_generate concept in
  do cur_dist <- inventory concept;
  do _ <- emit (EvInfoDist "Current distribution" cur_dist);
  do target_dist <- lift (target_dist (num_target autogen_config) size_dist);
  do _ <- emit (EvInfoDist "Target distribution" target_dist);
  let dist_diff := dist_diff target_dist cur_dist in
  do _ <- emit (EvInfoDist "Distribution diff" dist_diff);
  let num_new_images := sum_values dist_diff in
  do _ <- emit (EvInfoTotal num_new_images);
  do _ <- emit (EvProgressOpen num_new_images);
  do _ <- fulfil concept dist_diff;
  ret PyNone.

(** Lines 138 to 144 of [main]: the share of the instance images that
    falls in each bucket of the bucket manager. *)
Definition bucket_shares (concept : concept_config) : M (list (size * spec_float)) :=
  do instance_img_paths <- (λ w, (get_images X (fs w) (instance_set_path concept), w));
  do id_size_map <- (λ w, (get_id_size_map X (fs w) instance_img_paths, w));
  let buckets := bucket_manager X id_size_map in
  lift (Dict.comp_result
    bucket_size
    (λ b, PyFloat.truediv (Z.of_nat (length (bucket_ids b)))
                          (Z.of_nat (length instance_img_paths)))
    buckets).

(** Lines 135 to 145 of [main]: the proportions handed to the generator,
    one square bucket without aspect-ratio bucketing, the bucket shares
    with it, which must then sum to 1. *)
Definition size_dist_of (cfg : config) (concept : concept_config)
    : M (list (size * spec_float)) :=
  if negb (aspect_ratio_bucket_enabled cfg) then
    ret [((data_resolution cfg, data_resolution cfg), PyFloat.one)]
  else
    do size_dist <- bucket_shares concept;
    if PyFloat.eq_one (PyFloat.sum (Dict.values size_dist)) then ret size_dist
    else lift (Raise AssertionError).

(** Lines 131 to 147 of [main]: the body of the loop over the concepts. *)
Definition process_concept (cfg : config) (i : nat) (concept : concept_config) : M unit :=
  if negb (ag_enabled (auto_generate concept)) then
    emit (EvWarning ("Concept [" +:+ pretty i +:+
      "] skipped because class auto generate is not enabled."))
  else
    do size_dist <- size_dist_of cfg concept;
    do _ <- generate_class_images concept size_dist;
    ret ().

(** One call into the libraries while the pipeline is built: the call is
    on the trace whether or not it comes back, the disk is the one the call
    leaves. *)
Definition build_call (step : build_step) : M unit := λ w,
  ((build X (events w) (fs w) step).1,
   {| fs := (build X (events w) (fs w) step).2;
      events := events w ++ [EvBuild step] |}).

(** Lines 89 to 128 of [main], in the order Python evaluates them: the
    keyword arguments of [StableDiffusionPipeline(...)] from left to right,
    then the constructor.  An empty [config.vae] or [config.tokenizer]
    falls back on [config.model]. *)
Definition build_pipeline (cfg : config) : M unit :=
  do _ <- build_call (FromPretrained "UNet2DConditionModel" (model cfg) "unet");
  do _ <- build_call UnetHalf;
  do _ <- build_call UnetXformers;
  do _ <- build_call NewScheduler;
  do _ <- build_call (FromPretrained "AutoencoderKL"
            (if decide (vae cfg = "") then model cfg else vae cfg) "vae");
  do _ <- build_call (FromPretrained "CLIPWithSkip" (model cfg) "text_encoder");
  do _ <- build_call (FromPretrained "CLIPTokenizer"
            (if decide (tokenizer cfg = "") then model cfg else tokenizer cfg) "tokenizer");
  do _ <- build_call NewPipeline;
  do _ <- build_call ProgressBarOff;
  build_call ToCuda.

(** [main(config)], from the merged configuration on. *)
Definition main (cfg : config) : M pyval :=
  if negb (prior_preservation_enabled cfg) then
    do _ <- emit (EvWarning
      "Prior preservation not enabled. Class image generation is not needed.");
    ret PyNone
  else
    do _ <- build_pipeline cfg;
    do _ <- for_each (imap (λ i concept, (i, concept)) (data_concepts cfg))
      (λ '(i, concept), process_concept cfg i concept);
    ret PyNone.

End Script.

(** ** Reading a trace *)

(** The batch sizes of the pipeline calls on a trace, in order. *)
Definition request_sizes (evs : list event) : list Z :=
  omap (λ e, match e with
             | EvPipelineCall r => Some (num_images_per_prompt r)
             | _ => None
             end) evs.

(** The buckets the pipeline was called for. *)
Definition request_buckets (evs : list event) : list size :=
  omap (λ e, match e with
             | EvPipelineCall r => Some (width r, height r)
             | _ => None
             end) evs.

(** What the progress bar was advanced by, step by step. *)
Definition progress_updates (evs : list event) : list Z :=
  omap (λ e, match e with
             | EvProgressUpdate n => Some n
             | _ => None
             end) evs.

Definition sum_list_Z (xs : list Z) : Z := foldr Z.add 0 xs.

(** ** The batches the specification expects *)

(** For a deficit [d] and a cap [m], both positive: full batches of [m] as
    long as they fit, then what is left, if anything. *)
Definition batches (d m : Z) : list Z :=
  if decide (0 < d ∧ 0 < m) then
    replicate (Z.to_nat (d / m)) m ++ (if decide (d mod m = 0) then [] else [d mod m])
  else [].

(** The batches of a whole deficit map, bucket after bucket. *)
Definition planned_batches (dist_diff : list (size * Z)) (m : Z) : list Z :=
  mjoin ((λ '(_, target), batches target m) <$> dist_diff).

(** The directory at [dir] exists and holds regular files only. *)
Definition holds_files (dir : path) (n : node) : Prop :=
  ∃ es, FS.lookup n dir = Some (Dir es) ∧ ∀ name es0, es !! name ≠ Some (Dir es0).

(** [ceil(d / m)] for a positive [m]. *)
Definition ceil_div (d m : Z) : Z := (d + m - 1) / m.

(** ** Stand-ins for the collaborators, to run the script on examples *)

Module Demo.

(** An image: its size and its raw pixels. *)
Record image := { image_size : size; pixels : bytes }.

Definition hex_digit (n : N) : string :=
  String (Ascii.ascii_of_N (if (n <? 10)%N then 48 + n else 87 + n)) "".

(** A stand-in digest, two hexadecimal digits a byte: distinct contents
    get distinct names. *)
Fixpoint digest (data : bytes) : string :=
  match data with
  | [] => ""
  | b :: data' =>
      hex_digit (Strings.Byte.to_N b / 16) +:+ hex_digit (Strings.Byte.to_N b mod 16) +:+ digest data'
  end.

(** A pipeline that draws the same blank image every time. *)
Definition same_image (evs : list event) (r : request) : result (list image) :=
  Ok (replicate (Z.to_nat (num_images_per_prompt r))
        {| image_size := (width r, height r); pixels := [Byte.x00] |}).

(** A pipeline that never draws the same image twice (up to 256 calls of
    up to 256 images). *)
Definition fresh_images (evs : list event) (r : request) : result (list image) :=
  Ok ((λ i, {| image_size := (width r, height r);
               pixels := [default Byte.x00 (Strings.Byte.of_N (N.of_nat (length evs) mod 256));
                          default Byte.x00 (Strings.Byte.of_N (N.of_nat i mod 256))] |})
      <$> seq 0 (Z.to_nat (num_images_per_prompt r))).

(** A pipeline out of memory. *)
Definition failing (evs : list event) (r : request) : result (list image) :=
  Raise RuntimeError.

(** Every entry of a directory counts as an image of 512 by 512; every
    step of the build comes back and leaves the disk alone. *)
Definition collaborators_with
    (pipeline : list event → request → result (list image))
    (bucket_manager : list (string * size) → list bucket) : Collaborators :=
  {| Image := image;
     tobytes := pixels;
     md5_hexdigest := digest;
     jpeg_encode := λ img _, pixels img;
     pipeline := pipeline;
     build := λ _ n _, (Ok (), n);
     get_images := λ n d,
       match FS.lookup n d with
       | Some (Dir es) => Ok ((λ kv, d ++ [kv.1]) <$> map_to_list es)
       | _ => Raise FileNotFoundError
       end;
     get_id_size_map := λ n paths,
       Ok ((λ p, (default "" (last p), (512, 512))) <$> paths);
     bucket_manager := bucket_manager |}.

(** A bucket manager with the one bucket of 512 by 512. *)
Definition one_bucket (m : list (string * size)) : list bucket :=
  [{| bucket_size := (512, 512); bucket_ids := m.*1 |}].

(** A bucket manager that gives every image a bucket of its own. *)
Definition bucket_each (m : list (string * size)) : list bucket :=
  imap (λ i kv, {| bucket_size := (512 + 64 * Z.of_nat i, 512);
                   bucket_ids := [kv.1] |}) m.

Definition collaborators
    (pipeline : list event → request → result (list image)) : Collaborators :=
  collaborators_with pipeline one_bucket.

Definition autogen (num_target batch_size : Z) : auto_generate_config :=
  {| ag_enabled := true;
     num_target := num_target;
     batch_size := batch_size;
     ag_negative_prompt := "lowres";
     cfg_scale := S754_finite false 7881299347898368 (-50);
     steps := 28 |}.

Definition concept (num_target batch_size : Z) : concept_config :=
  {| class_set_path := ["data"; "class"];
     class_set_prompt := "a photo";
     auto_generate := autogen num_target batch_size;
     instance_set_path := ["data"; "instance"] |}.

Definition empty_world : World := {| fs := Dir ∅; events := [] |}.

(** The class-image directory exists and holds one image. *)
Definition stocked_world : World :=
  {| fs := Dir {[ "data" := Dir {[ "class" := Dir {[ "00.jpg" := File [Byte.x00] ]} ]} ]};
     events := [] |}.

(** The instance directory holds [n] images. *)
Definition instance_world (n : nat) : World :=
  {| fs := Dir {[ "data" := Dir {[ "instance" :=
       Dir (list_to_map ((λ i, (pretty i +:+ ".png", File [])) <$> seq 0 n)) ]} ]};
     events := [] |}.

(** The class-image directory exists and is empty. *)
Definition class_dir_world : World :=
  {| fs := Dir {[ "data" := Dir {[ "class" := Dir ∅ ]} ]}; events := [] |}.

(** The shares 0.6 and 0.4 of the specification's example. *)
Definition spec_proportions : list (size * spec_float) :=
  [((512, 768), S754_finite false 5404319552844595 (-53));
   ((768, 512), S754_finite false 7205759403792794 (-54))].

(** Shares 0.4, 0.2 and 0.4. *)
Definition three_buckets : list (size * spec_float) :=
  [((768, 512), S754_finite false 7205759403792794 (-54));
   ((512, 512), S754_finite false 7205759403792794 (-55));
   ((512, 768), S754_finite false 7205759403792794 (-54))].

(** Prior preservation switched off. *)
Definition disabled_config : config :=
  {| prior_preservation_enabled := false;
     aspect_ratio_bucket_enabled := true;
     model := "runwayml/stable-diffusion-v1-5";
     vae := "";
     tokenizer := "";
     data_resolution := 512;
     data_concepts := [concept 100 8] |}.

(** Aspect-ratio bucketing switched on. *)
Definition bucketing_config : config :=
  {| prior_preservation_enabled := true;
     aspect_ratio_bucket_enabled := true;
     model := "runwayml/stable-diffusion-v1-5";
     vae := "";
     tokenizer := "";
     data_resolution := 512;
     data_concepts := [concept 100 8] |}.

(** A concept with class-image generation switched off. *)
Definition skipped_concept : concept_config :=
  {| class_set_path := ["data"; "other"];
     class_set_prompt := "a drawing";
     auto_generate :=
       {| ag_enabled := false;
          num_target := 50;
          batch_size := 4;
          ag_negative_prompt := "";
          cfg_scale := PyFloat.one;
          steps := 20 |};
     instance_set_path := ["data"; "instance"] |}.

(** A regular file sits where the parent of the class-image directory
    should be. *)
Definition blocked_world : World :=
  {| fs := Dir {[ "data" := File [Byte.x00] ]}; events := [] |}.

(** The class-image directory holds a directory named like the image the
    pipeline [same_image] draws. *)
Definition occupied_world : World :=
  {| fs := Dir {[ "data" := Dir {[ "class" := Dir {[ "00.jpg" := Dir ∅ ]} ]} ]};
     events := [] |}.

(** Prior preservation on, bucketing off, the given concepts. *)
Definition square_config (concepts : list concept_config) : config :=
  {| prior_preservation_enabled := true;
     aspect_ratio_bucket_enabled := false;
     model := "runwayml/stable-diffusion-v1-5";
     vae := "";
     tokenizer := "";
     data_resolution := 512;
     data_concepts := concepts |}.

(** The same collaborators on a machine without a GPU:
    [pipeline.to("cuda")] raises. *)
Definition without_gpu (X : Collaborators) : Collaborators :=
  {| Image := Image X;
     tobytes := tobytes X;
     md5_hexdigest := md5_hexdigest X;
     jpeg_encode := jpeg_encode X;
     pipeline := pipeline X;
     build := λ evs n step,
       match step with
       | ToCuda => (Raise RuntimeError, n)
       | _ => build X evs n step
       end;
     get_images := get_images X;
     get_id_size_map := get_id_size_map X;
     bucket_manager := bucket_manager X |}.

(** The same collaborators with nothing fetched yet: every
    [from_pretrained] leaves a file named like its subfolder in [cache]. *)
Definition fetching (X : Collaborators) : Collaborators :=
  {| Image := Image X;
     tobytes := tobytes X;
     md5_hexdigest := md5_hexdigest X;
     jpeg_encode := jpeg_encode X;
     pipeline := pipeline X;
     build := λ evs n step,
       match step with
       | FromPretrained _ _ subfolder =>
           match FS.mkdir ["cache"] n with
           | Ok n1 =>
               match FS.write ["cache"; subfolder] [Byte.x01] n1 with
               | Ok n2 => (Ok (), n2)
               | Raise e => (Raise e, n1)
               end
           | Raise e => (Raise e, n)
           end
       | _ => build X evs n step
       end;
     get_images := get_images X;
     get_id_size_map := get_id_size_map X;
     bucket_manager := bucket_manager X |}.

End Demo.

(** ** Reading a run as a whole *)

(** The pipeline calls on a trace, in order, with all their arguments. *)
Definition requests (evs : list event) : list request :=
  omap (λ e, match e with
             | EvPipelineCall r => Some r
             | _ => None
             end) evs.

(** The calls a deficit map asks for under the concept's cap: bucket after
    bucket, the expected batches of each. *)
Definition planned_requests (concept : concept_config)
    (dist_diff : list (size * Z)) : list request :=
  mjoin ((λ '((w, h), target),
            batch_request concept w h
              <$> batches target (batch_size (auto_generate concept)))
         <$> dist_diff).

(** No regular file of [n] is missing from [n'], and only an entry of the
    directory [dir] may have changed its content. *)
Definition files_kept (dir : path) (n n' : node) : Prop :=
  ∀ q data, FS.lookup n q = Some (File data) →
    ∃ data', FS.lookup n' q = Some (File data') ∧
             ((∀ name, q ≠ dir ++ [name]) → data' = data).

(** The tree [n] with the node at [p], if there is one, replaced by [x]. *)
Fixpoint put (p : path) (x : node) (n : node) : node :=
  match p, n with
  | [], _ => x
  | c :: p', Dir es =>
      match es !! c with
      | Some child => Dir (<[c := put p' x child]> es)
      | None => n
      end
  | _ :: _, File _ => n
  end.

(** What a bucket that goes through leaves on the trace: every expected
    batch is called for and then reported to the progress bar. *)
Definition bucket_trace (concept : concept_config) (w h target : Z) : list event :=
  mjoin ((λ bs, [EvPipelineCall (batch_request concept w h bs); EvProgressUpdate bs])
         <$> batches target (batch_size (auto_generate concept))).

(** The same for a deficit map: each bucket is announced, then served. *)
Definition planned_trace (concept : concept_config)
    (dist_diff : list (size * Z)) : list event :=
  mjoin ((λ '((w, h), target), EvPostfix (w, h) :: bucket_trace concept w h target)
         <$> dist_diff).

(** The configuration [cfg] with [concepts] for its concepts. *)
Definition with_concepts (cfg : config) (concepts : list concept_config) : config :=
  {| prior_preservation_enabled := prior_preservation_enabled cfg;
     aspect_ratio_bucket_enabled := aspect_ratio_bucket_enabled cfg;
     model := model cfg;
     vae := vae cfg;
     tokenizer := tokenizer cfg;
     data_resolution := data_resolution cfg;
     data_concepts := concepts |}.

(** The calls that build the pipeline, in the order they are made. *)
Definition build_steps (cfg : config) : list build_step :=
  [FromPretrained "UNet2DConditionModel" (model cfg) "unet";
   UnetHalf;
   UnetXformers;
   NewScheduler;
   FromPretrained "AutoencoderKL"
     (if decide (vae cfg = "") then model cfg else vae cfg) "vae";
   FromPretrained "CLIPWithSkip" (model cfg) "text_encoder";
   FromPretrained "CLIPTokenizer"
     (if decide (tokenizer cfg = "") then model cfg else tokenizer cfg) "tokenizer";
   NewPipeline;
   ProgressBarOff;
   ToCuda].

(** The world in which [main] starts on the concepts: the one the build
    leaves, or the one [main] was started in when it does not build. *)
Definition built (X : Collaborators) (cfg : config) (st : World) : World :=
  if prior_preservation_enabled cfg then (build_pipeline X cfg st).2 else st.

(** The libraries remove no file and change none while the pipeline is
    built. *)
Definition build_keeps_files (X : Collaborators) : Prop :=
  ∀ evs n step q data,
    FS.lookup n q = Some (File data) →
    FS.lookup (build X evs n step).2 q = Some (File data).

(** * Properties *)

(** ** Dictionaries *)

Section DictFacts.
Context {K V : Type} `{EqDecision K}.
Implicit Types (d : list (K * V)) (k : K) (v : V).

Lemma get_Some_elem_of d k v : Dict.get d k = Some v → (k, v) ∈ d.
Proof.
induction d as [|[k' v'] d IH]; simpl; [done|].
case_decide as Hk; intros Hget.
- injection Hget as ->. rewrite Hk. left.
- right. auto.
Qed.

Lemma get_None_keys d k : Dict.get d k = None ↔ k ∉ Dict.keys d.
Proof.
unfold Dict.keys. induction d as [|[k' v'] d IH]; simpl.
- split; [intros _; apply not_elem_of_nil | done].
- rewrite not_elem_of_cons. case_decide as Hk. 
  + split; [done|]. intros [? _]. done.
  + rewrite IH. split; [by intros ?; split | by intros [_ ?]].
Qed.

Lemma elem_of_get d k v : Dict.wf d → (k, v) ∈ d → Dict.get d k = Some v.
Proof.
unfold Dict.wf, Dict.keys. induction d as [|[k' v'] d IH]; simpl.
- intros _ Hin. by apply elem_of_nil in Hin.
- intros [Hk' Hd]%NoDup_cons [Heq|Hin]%elem_of_cons.
  + injection Heq as -> ->. by rewrite decide_True.
  + rewrite decide_False; [auto|].
    intros ->. apply Hk', list_elem_of_fmap. by exists (k', v).
Qed.

Lemma set_fresh d k v : k ∉ Dict.keys d → Dict.set d k v = d ++ [(k, v)].
Proof.
unfold Dict.keys. induction d as [|[k' v'] d IH]; simpl; [done|].
intros [Hne Hd]%not_elem_of_cons. rewrite decide_False by done.
by rewrite IH.
Qed.

Lemma comp_from {A} (key : A → K) (val : A → V) (cond : A → bool) xs d :
  NoDup (key <$> xs) →
  (∀ x, x ∈ xs → key x ∉ Dict.keys d) →
  foldl (λ d x, if cond x then Dict.set d (key x) (val x) else d) d xs
  = d ++ ((λ x, (key x, val x)) <$> filter (λ x, cond x) xs).
Proof.
revert d. induction xs as [|x xs IH]; intros d Hnd Hfresh; simpl.
- by rewrite app_nil_r.
- apply NoDup_cons in Hnd as [Hx Hnd].
  rewrite filter_cons. destruct (cond x) eqn:Hc; simpl.
  + rewrite set_fresh by (apply Hfresh; left).
    rewrite IH; [by rewrite <- app_assoc | done |].
    intros y Hy. unfold Dict.keys. rewrite fmap_app, elem_of_app. simpl.
    intros [Hin|Hin%list_elem_of_singleton].
    * by apply (Hfresh y); [right|].
    * apply Hx. rewrite <- Hin. by apply list_elem_of_fmap_2.
  + apply IH; [done|].
    intros y Hy. apply Hfresh. by right.
Qed.

(** Over items with distinct keys a comprehension is a filter and a map. *)
Lemma comp_nodup {A} (key : A → K) (val : A → V) (cond : A → bool) xs :
  NoDup (key <$> xs) →
  Dict.comp key val cond xs = (λ x, (key x, val x)) <$> filter (λ x, cond x) xs.
Proof.
intros Hnd. unfold Dict.comp. rewrite comp_from; [done..|].
intros x _. apply not_elem_of_nil.
Qed.

End DictFacts.

Section DictCompFacts.
Context {K V : Type} `{EqDecision K}.

Lemma keys_comp_nodup {A} (key : A → K) (val : A → V) (cond : A → bool) xs :
  NoDup (key <$> xs) →
  Dict.keys (Dict.comp key val cond xs) = key <$> filter (λ x, cond x) xs.
Proof.
intros Hnd. rewrite comp_nodup by done. unfold Dict.keys.
by rewrite <- list_fmap_compose.
Qed.

Lemma wf_comp {A} (key : A → K) (val : A → V) (cond : A → bool) xs :
  NoDup (key <$> xs) → Dict.wf (Dict.comp key val cond xs).
Proof.
intros Hnd. unfold Dict.wf. rewrite keys_comp_nodup by done.
eapply sublist_NoDup; [done|]. apply fmap_sublist, sublist_filter.
Qed.

(** What a comprehension over items with distinct keys holds at a key. *)
Lemma get_comp {A} (key : A → K) (val : A → V) (cond : A → bool) xs k v :
  NoDup (key <$> xs) →
  Dict.get (Dict.comp key val cond xs) k = Some v ↔
  ∃ x, x ∈ xs ∧ key x = k ∧ cond x = true ∧ v = val x.
Proof.
intros Hnd. split.
- intros Hget%get_Some_elem_of. rewrite comp_nodup in Hget by done.
  apply list_elem_of_fmap in Hget as (x & Heq & Hx).
  apply list_elem_of_filter in Hx as [Hc Hx]. injection Heq as -> ->.
  exists x. by destruct (cond x).
- intros (x & Hx & <- & Hc & ->). apply elem_of_get; [by apply wf_comp|].
  rewrite comp_nodup by done. apply list_elem_of_fmap. exists x. split; [done|].
  apply list_elem_of_filter. by rewrite Hc.
Qed.

Lemma comp_result_raise {A} (key : A → K) (val : A → result V) xs e :
  foldl (λ acc x, d ← acc; v ← val x; Ok (Dict.set d (key x) v)) (Raise e) xs
  = Raise e.
Proof. induction xs as [|x xs IH]; simpl; [done | apply IH]. Qed.

Lemma comp_result_from {A} (key : A → K) (val : A → result V) xs vs d :
  Forall2 (λ x v, val x = Ok v) xs vs →
  NoDup (key <$> xs) →
  (∀ x, x ∈ xs → key x ∉ Dict.keys d) →
  foldl (λ acc x, d ← acc; v ← val x; Ok (Dict.set d (key x) v)) (Ok d) xs
  = Ok (d ++ zip_with (λ x v, (key x, v)) xs vs).
Proof.
intros Hvs. revert d. induction Hvs as [|x v xs vs Hv Hvs IH]; intros d Hnd Hfresh; simpl.
- by rewrite app_nil_r.
- apply NoDup_cons in Hnd as [Hx Hnd]. rewrite Hv. simpl.
  rewrite set_fresh by (apply Hfresh; left).
  rewrite IH; [by rewrite <- app_assoc | done |].
  intros y Hy. unfold Dict.keys. rewrite fmap_app, elem_of_app. simpl.
  intros [Hin|Hin%list_elem_of_singleton].
  + by apply (Hfresh y); [right|].
  + apply Hx. rewrite <- Hin. by apply list_elem_of_fmap_2.
Qed.

(** A comprehension none of whose values raises succeeds, item by item. *)
Lemma comp_result_nodup {A} (key : A → K) (val : A → result V) xs vs :
  Forall2 (λ x v, val x = Ok v) xs vs →
  NoDup (key <$> xs) →
  Dict.comp_result key val xs = Ok (zip_with (λ x v, (key x, v)) xs vs).
Proof.
intros Hvs Hnd. unfold Dict.comp_result.
rewrite (comp_result_from _ _ _ vs) by (try done; intros x _; apply not_elem_of_nil).
done.
Qed.

Lemma Forall_is_Ok {A} (val : A → result V) xs :
  Forall (λ x, is_Ok (val x) = true) xs →
  ∃ vs, Forall2 (λ x v, val x = Ok v) xs vs.
Proof.
induction 1 as [|x xs Hx _ [vs IH]]; [by exists [] |].
destruct (val x) as [v|] eqn:Hv; [|done]. exists (v :: vs). by constructor.
Qed.

Lemma keys_zip_with {A} (key : A → K) xs (vs : list V) :
  length xs = length vs →
  Dict.keys (zip_with (λ x v, (key x, v)) xs vs) = key <$> xs.
Proof.
revert vs. induction xs as [|x xs IH]; intros [|v vs] Hlen; simpl in *; try done.
f_equal. apply IH. lia.
Qed.

Lemma get_zip_with {A} (key : A → K) (val : A → result V) xs vs k v :
  Forall2 (λ x v, val x = Ok v) xs vs →
  NoDup (key <$> xs) →
  Dict.get (zip_with (λ x v, (key x, v)) xs vs) k = Some v ↔
  ∃ x, x ∈ xs ∧ key x = k ∧ val x = Ok v.
Proof.
induction 1 as [|x v' xs vs Hv Hvs IH]; simpl.
- intros _. split; [done|]. intros (x & Hx & _). by apply elem_of_nil in Hx.
- intros [Hx Hnd]%NoDup_cons. case_decide as Hk.
  + split.
    * intros [= ->]. exists x. repeat split; [left | done | done].
    * intros (y & [->|Hy]%elem_of_cons & Hky & Hvy); [congruence|].
      exfalso. apply Hx. rewrite <- Hk, <- Hky. by apply list_elem_of_fmap_2.
  + rewrite IH by done. split.
    * intros (y & Hy & Hky & Hvy). exists y. repeat split; [by right | done..].
    * intros (y & [->|Hy]%elem_of_cons & Hky & Hvy); [congruence|].
      by exists y.
Qed.

End DictCompFacts.

(** ** The planner *)

Lemma get_default_nonneg (C : list (size * Z)) b :
  Forall (λ c, 0 <= c) (Dict.values C) → 0 <= Dict.get_default C b 0.
Proof.
unfold Dict.get_default, Dict.values. intros HC.
destruct (Dict.get C b) as [c|] eqn:Hget; simpl; [|lia].
apply get_Some_elem_of in Hget. rewrite Forall_forall in HC. apply HC.
apply list_elem_of_fmap. by exists (b, c).
Qed.

Lemma round_target_zero p :
  PyFloat.is_finite p = true → round_target 0 p = Ok 0.
Proof. by destruct p as [[]|[]| |[] m e]. Qed.

(** The targets, when every product rounds: the keys of the proportions in
    their order, each with its rounded share. *)
Lemma target_dist_Ok P N :
  Dict.wf P →
  Forall (λ p, is_Ok (round_target N p) = true) (Dict.values P) →
  ∃ T, target_dist N P = Ok T ∧ Dict.keys T = Dict.keys P ∧
    ∀ b t, Dict.get T b = Some t ↔
      ∃ p, Dict.get P b = Some p ∧ round_target N p = Ok t.
Proof.
unfold Dict.wf, Dict.keys, Dict.values. intros HP Hround.
assert (Hval : Forall (λ x : size * spec_float,
  is_Ok ((λ '(sz, p), round_target N p) x) = true) P).
{ rewrite Forall_fmap in Hround. eapply Forall_impl; [done|]. by intros [sz p]. }
apply Forall_is_Ok in Hval as [vs Hvs].
assert (Hkey : (λ '(sz, p), sz) <$> P = P.*1).
{ apply list_fmap_ext. by intros ? [sz p]. }
exists (zip_with (λ x v, ((λ '(sz, p), sz) x, v)) P vs). split; [|split].
- unfold target_dist. apply comp_result_nodup; [done|]. by rewrite Hkey.
- rewrite <- Hkey. apply (keys_zip_with (V:=Z)). by eapply Forall2_length.
- intros b t. rewrite (get_zip_with _ _ _ _ _ _ Hvs) by (by rewrite Hkey). split.
  + intros ([sz p] & Hin & <- & Hp). exists p. split; [|done].
    by apply elem_of_get.
  + intros (p & Hget%get_Some_elem_of & Hp). by exists (b, p).
Qed.

(** What the deficit map holds at a bucket. *)
Lemma get_dist_diff T C b v :
  Dict.wf T →
  Dict.get (dist_diff T C) b = Some v ↔
  ∃ t, Dict.get T b = Some t ∧ t > Dict.get_default C b 0 ∧
       v = t - Dict.get_default C b 0.
Proof.
unfold Dict.wf, Dict.keys. intros HT.
assert (Hkey : (λ '(k, v), k) <$> T = T.*1).
{ apply list_fmap_ext. by intros ? [k t]. }
unfold dist_diff. rewrite get_comp by (by rewrite Hkey). split.
- intros ([k t] & Hin & <- & Hc%bool_decide_eq_true & ->). exists t.
  split; [by apply elem_of_get | done].
- intros (t & Hget%get_Some_elem_of & Hgt & ->). exists (b, t).
  repeat split; [done | by apply bool_decide_eq_true].
Qed.

(** The deficit map lists its buckets in the order of the targets. *)
Lemma keys_dist_diff_sublist T C :
  Dict.wf T → Dict.keys (dist_diff T C) `sublist_of` Dict.keys T.
Proof.
intros HT. assert (Hkey : (λ '(k, v), k) <$> T = T.*1).
{ apply list_fmap_ext. by intros ? [k t]. }
unfold dist_diff. rewrite keys_comp_nodup by (by rewrite Hkey).
unfold Dict.keys. rewrite <- Hkey. apply fmap_sublist, sublist_filter.
Qed.

Lemma wf_dist_diff T C : Dict.wf T → Dict.wf (dist_diff T C).
Proof.
intros HT. eapply sublist_NoDup; [exact HT|]. by apply keys_dist_diff_sublist.
Qed.

Lemma get_nil_eq {V} (d : list (size * V)) :
  (∀ b, Dict.get d b = None) → d = [].
Proof.
destruct d as [|[b v] d]; [done|]. intros Hnone. specialize (Hnone b).
simpl in Hnone. by rewrite decide_True in Hnone.
Qed.

(** C1. For proportions [P] (a dictionary: no key twice), a total target
    [N] and current counts [C]: when every [round(N * P[b])] is defined, the
    deficit map holds [v] at [b] exactly when [b] is in [P], its target
    [round(N * P[b])] exceeds [C.get(b, 0)], and [v] is the difference.  With
    no proportions the deficit map is empty; with a total of 0, finite
    proportions and counts that are not negative, it is empty too. *)
Theorem deficit_map_spec (P : list (size * spec_float)) (N : Z) (C : list (size * Z)) :
  Dict.wf P →
  (Forall (λ p, is_Ok (round_target N p) = true) (Dict.values P) →
     ∃ D, plan P N C = Ok D ∧
       ∀ b v, Dict.get D b = Some v ↔
         ∃ p t, Dict.get P b = Some p ∧ round_target N p = Ok t ∧
                t > Dict.get_default C b 0 ∧ v = t - Dict.get_default C b 0)
  ∧ (P = [] → plan P N C = Ok [])
  ∧ (N = 0 →
     Forall (λ p, PyFloat.is_finite p = true) (Dict.values P) →
     Forall (λ c, 0 <= c) (Dict.values C) →
     plan P N C = Ok []).
Proof.
intros HP.
assert (Hmain : Forall (λ p, is_Ok (round_target N p) = true) (Dict.values P) →
  ∃ D, plan P N C = Ok D ∧
    ∀ b v, Dict.get D b = Some v ↔
      ∃ p t, Dict.get P b = Some p ∧ round_target N p = Ok t ∧
             t > Dict.get_default C b 0 ∧ v = t - Dict.get_default C b 0).
{ intros Hround.
  destruct (target_dist_Ok P N HP Hround) as (T & HT & Hkeys & Hget).
  exists (dist_diff T C). split; [unfold plan; by rewrite HT|].
  intros b v. rewrite get_dist_diff by (unfold Dict.wf; by rewrite Hkeys). split.
  - intros (t & (p & Hp & Ht)%Hget & Hgt & ->). by exists p, t.
  - intros (p & t & Hp & Ht & Hgt & ->). exists t. split; [|done].
    apply Hget. by exists p. }
split; [exact Hmain|]. split.
- by intros ->.
- intros -> Hfin HC. destruct Hmain as (D & HD & Hget).
  { eapply Forall_impl; [exact Hfin|]. intros p Hp. simpl.
    by rewrite round_target_zero. }
  rewrite HD. f_equal. apply get_nil_eq. intros b.
  destruct (Dict.get D b) as [v|] eqn:Hv; [|done].
  apply Hget in Hv as (p & t & Hp & Ht & Hgt & _).
  assert (Hpfin : PyFloat.is_finite p = true).
  { rewrite Forall_forall in Hfin. apply Hfin. unfold Dict.values.
    apply list_elem_of_fmap. exists (b, p). by split; [|apply get_Some_elem_of]. }
  rewrite round_target_zero in Ht by done. injection Ht as <-.
  pose proof (get_default_nonneg C b HC). lia.
Qed.

(** The specification's example: shares 0.6 and 0.4 of a total of 10, with
    3 images of the first bucket on disk. *)
Lemma deficit_map_spec_witness :
  ∃ D, plan Demo.spec_proportions 10 [((512, 768), 3)] = Ok D ∧
    ∀ b v, Dict.get D b = Some v ↔
      ∃ p t, Dict.get Demo.spec_proportions b = Some p ∧ round_target 10 p = Ok t ∧
             t > Dict.get_default [((512, 768), 3)] b 0 ∧
             v = t - Dict.get_default [((512, 768), 3)] b 0.
Proof.
refine (proj1 (deficit_map_spec Demo.spec_proportions 10 [((512, 768), 3)] _) _).
- apply (bool_decide_unpack _). vm_compute. exact I.
- repeat constructor.
Defined.

Example plan_spec_example :
  plan Demo.spec_proportions 10 [] = Ok [((512, 768), 6); ((768, 512), 4)].
Proof. vm_compute. reflexivity. Qed.

Example plan_partly_met :
  plan Demo.spec_proportions 10 [((512, 768), 3)] = Ok [((512, 768), 3); ((768, 512), 4)].
Proof. vm_compute. reflexivity. Qed.

Example plan_nothing_wanted :
  plan Demo.spec_proportions 0 [((512, 768), 3)] = Ok [].
Proof. vm_compute. reflexivity. Qed.

Example plan_met :
  plan [((512, 512), PyFloat.one)] 100 [((512, 512), 120)] = Ok [].
Proof. vm_compute. reflexivity. Qed.

(** C6. Planning depends on nothing but its three arguments: equal
    proportions, totals and counts give equal results, deficit map or
    exception alike.  When every target is defined, the deficit map lists
    its buckets, none twice, in the order they have in the proportions. *)
Theorem plan_deterministic_ordered (P : list (size * spec_float)) (N : Z)
    (C : list (size * Z)) :
  Dict.wf P →
  (∀ P' N' C', P' = P → N' = N → C' = C → plan P' N' C' = plan P N C)
  ∧ (Forall (λ p, is_Ok (round_target N p) = true) (Dict.values P) →
     ∃ D, plan P N C = Ok D ∧ Dict.wf D ∧
          Dict.keys D `sublist_of` Dict.keys P).
Proof.
intros HP. split; [by intros ? ? ? -> -> ->|]. intros Hround.
destruct (target_dist_Ok P N HP Hround) as (T & HT & Hkeys & _).
assert (HwfT : Dict.wf T) by (unfold Dict.wf; by rewrite Hkeys).
exists (dist_diff T C). split; [unfold plan; by rewrite HT|]. split.
- by apply wf_dist_diff.
- rewrite <- Hkeys. by apply keys_dist_diff_sublist.
Qed.

(** Three buckets with shares 0.4, 0.2 and 0.4 of 10 images, the middle one
    already full: the first and the last are left, in that order. *)
Lemma plan_deterministic_ordered_witness :
  ∃ D, plan Demo.three_buckets 10 [((512, 512), 2)] = Ok D ∧ Dict.wf D ∧
       Dict.keys D `sublist_of` [(768, 512); (512, 512); (512, 768)].
Proof.
refine (proj2 (plan_deterministic_ordered Demo.three_buckets 10 [((512, 512), 2)] _) _).
- apply (bool_decide_unpack _). vm_compute. exact I.
- repeat constructor.
Defined.

Example plan_keeps_order :
  plan Demo.three_buckets 10 [((512, 512), 2)] = Ok [((768, 512), 4); ((512, 768), 4)].
Proof. vm_compute. reflexivity. Qed.

(** ** The directory tree *)

Lemma lookup_app n p q :
  FS.lookup n (p ++ q) = FS.lookup n p ≫= λ n', FS.lookup n' q.
Proof.
revert n. induction p as [|c p IH]; intros n; simpl; [done|].
destruct n as [|es]; [done|]. destruct (es !! c); [apply IH | done].
Qed.

Lemma mkdir_existing p n es :
  FS.lookup n p = Some (Dir es) → FS.mkdir p n = Ok n.
Proof.
revert n. induction p as [|c p IH]; intros n; simpl.
- by intros [= ->].
- destruct n as [|es0]; [done|]. destruct (es0 !! c) as [n'|] eqn:Hc; [|done].
  intros Hlook. simpl. rewrite (IH _ Hlook). simpl. by rewrite insert_id.
Qed.

Lemma mkdir_empty p n' :
  FS.mkdir p (Dir ∅) = Ok n' → FS.lookup n' p = Some (Dir ∅).
Proof.
revert n'. induction p as [|c p IH]; intros n'; simpl.
- by intros [= <-].
- rewrite lookup_empty. simpl.
  destruct (FS.mkdir p (Dir ∅)) as [child|] eqn:Hchild; [|done].
  intros [= <-]. simpl. rewrite lookup_insert_eq. by apply IH.
Qed.

Lemma mkdir_missing p n n' :
  FS.lookup n p = None → FS.mkdir p n = Ok n' → FS.lookup n' p = Some (Dir ∅).
Proof.
revert n n'. induction p as [|c p IH]; intros n n'; simpl; [done|].
destruct n as [|es]; [done|]. intros Hlook.
destruct (es !! c) as [child|] eqn:Hc; simpl.
- destruct (FS.mkdir p child) as [child'|] eqn:Hchild; [|done].
  intros [= <-]. simpl. rewrite lookup_insert_eq. by eapply IH.
- destruct (FS.mkdir p (Dir ∅)) as [child'|] eqn:Hchild; [|done].
  intros [= <-]. simpl. rewrite lookup_insert_eq. by apply mkdir_empty.
Qed.

(** [mkdir] fails on a regular file in the way and on nothing else. *)
Lemma mkdir_Ok p n :
  FS.file_in_the_way p n = false → ∃ n', FS.mkdir p n = Ok n'.
Proof.
revert n. induction p as [|c p IH]; intros [data|es]; simpl; try done.
- by exists (Dir es).
- intros Hway.
  assert (Hchild : ∃ child', FS.mkdir p (default (Dir ∅) (es !! c)) = Ok child').
  { destruct (es !! c) as [child|]; simpl; [by apply IH|].
    apply IH. by destruct p. }
  destruct Hchild as [child' ->]. by eexists.
Qed.

Lemma mkdir_is_dir p n n' :
  FS.mkdir p n = Ok n' → FS.is_dir n' p = true.
Proof.
unfold FS.is_dir. revert n n'. induction p as [|c p IH]; intros [data|es] n'; simpl; try done.
- by intros [= <-].
- destruct (FS.mkdir p _) as [child'|] eqn:Hchild; [|done].
  intros [= <-]. simpl. rewrite lookup_insert_eq. by eapply IH.
Qed.

(** Writing into a directory: the file is there afterwards, whether or not
    a regular file of that name was there before. *)
Lemma write_in_dir dir name data n es :
  FS.lookup n dir = Some (Dir es) →
  (∀ es0, es !! name ≠ Some (Dir es0)) →
  ∃ n', FS.write (dir ++ [name]) data n = Ok n' ∧
        FS.lookup n' dir = Some (Dir (<[name := File data]> es)).
Proof.
revert n. induction dir as [|c dir IH]; intros n; simpl.
- intros [= ->] Hname. destruct (es !! name) as [[old|es0]|] eqn:Hold; simpl.
  + by eexists.
  + by destruct (Hname es0).
  + by eexists.
- destruct n as [|es1]; [done|]. destruct (es1 !! c) as [child|] eqn:Hc; [|done].
  intros Hlook Hname. destruct (IH child Hlook Hname) as (child' & -> & Hlook').
  simpl. eexists. split; [done|]. simpl. by rewrite lookup_insert_eq.
Qed.

Lemma world_eta (st : World) : {| fs := fs st; events := events st |} = st.
Proof. by destruct st. Qed.

(** C10. Unless a regular file is in the way, the class-image directory is
    there once [mkdir] has run: a missing one is created with its missing
    parents and is empty, so that (scanning an empty directory finding no
    image) the inventory succeeds and counts 0 for every bucket; one that
    exists already is kept as it is, and the inventory changes nothing. *)
Theorem class_dir_created (X : Collaborators) (concept : concept_config) (st : World) :
  FS.file_in_the_way (class_set_path concept) (fs st) = false →
  (∀ n d, FS.lookup n d = Some (Dir ∅) → get_images X n d = Ok []) →
  (∀ n, get_id_size_map X n [] = Ok []) →
  ∃ n', FS.mkdir (class_set_path concept) (fs st) = Ok n' ∧
    FS.is_dir n' (class_set_path concept) = true ∧
    (FS.lookup (fs st) (class_set_path concept) = None →
       FS.lookup n' (class_set_path concept) = Some (Dir ∅) ∧
       ∃ cur, inventory X concept st = (Ok cur, {| fs := n'; events := events st |}) ∧
              ∀ b, Dict.get_default cur b 0 = 0) ∧
    (FS.is_dir (fs st) (class_set_path concept) = true →
       n' = fs st ∧ (inventory X concept st).2 = st).
Proof.
intros Hway Hscan Hmap.
destruct (mkdir_Ok _ _ Hway) as [n' Hmk]. exists n'.
split; [done|]. split; [by eapply mkdir_is_dir|]. split.
- intros Hnone. pose proof (mkdir_missing _ _ _ Hnone Hmk) as Hempty.
  split; [done|]. exists []. split; [|done].
  unfold inventory, bind, mkdir, ret. rewrite Hmk. simpl.
  rewrite (Hscan _ _ Hempty), Hmap. done.
- unfold FS.is_dir. intros Hdir.
  destruct (FS.lookup (fs st) (class_set_path concept)) as [[|es]|] eqn:Hlook;
    try done.
  pose proof (mkdir_existing _ _ _ Hlook) as Hsame.
  assert (n' = fs st) as -> by congruence. split; [done|].
  unfold inventory, bind, mkdir, ret. rewrite Hsame. simpl.
  destruct (get_images X _ _) as [imgs|e]; simpl; [|apply world_eta].
  destruct (get_id_size_map X _ _) as [m|e]; simpl; apply world_eta.
Qed.

(** ** Persisting a batch *)

Lemma string_app_length (s t : string) :
  String.length (s +:+ t) = (String.length s + String.length t)%nat.
Proof.
induction s as [|a s IH]; [done|].
change (String a s +:+ t) with (String a (s +:+ t)). simpl. by rewrite IH.
Qed.

Lemma string_app_inj_r (t s1 s2 : string) : s1 +:+ t = s2 +:+ t → s1 = s2.
Proof.
revert s2. induction s1 as [|a s1 IH]; intros [|b s2] Heq; [done| | |].
- apply (f_equal String.length) in Heq.
  rewrite (string_app_length (String b s2)) in Heq.
  change ("" +:+ t) with t in Heq. simpl in Heq. lia.
- apply (f_equal String.length) in Heq.
  rewrite (string_app_length (String a s1)) in Heq.
  change ("" +:+ t) with t in Heq. simpl in Heq. lia.
- change (String a (s1 +:+ t) = String b (s2 +:+ t)) in Heq.
  injection Heq as -> Heq. f_equal. by apply IH.
Qed.

Section Persist.
Context (X : Collaborators).

Lemma foldl_insert_other (images : list (Image X)) (es : gmap string node) name :
  (∀ image, image ∈ images → md5_hexdigest X (tobytes X image) +:+ ".jpg" ≠ name) →
  foldl (λ es image, <[md5_hexdigest X (tobytes X image) +:+ ".jpg" :=
                       File (jpeg_encode X image 93)]> es) es images !! name
  = es !! name.
Proof.
revert es. induction images as [|image images IH]; intros es Hne; simpl; [done|].
rewrite IH by (intros ? ?; apply Hne; by right).
apply lookup_insert_ne, Hne. left.
Qed.

Lemma foldl_insert_last (images : list (Image X)) (es : gmap string node) image :
  image ∈ images →
  ∃ image', image' ∈ images ∧
    md5_hexdigest X (tobytes X image') = md5_hexdigest X (tobytes X image) ∧
    foldl (λ es image, <[md5_hexdigest X (tobytes X image) +:+ ".jpg" :=
                         File (jpeg_encode X image 93)]> es) es images
      !! (md5_hexdigest X (tobytes X image) +:+ ".jpg")
    = Some (File (jpeg_encode X image' 93)).
Proof.
revert es image. induction images as [|image0 images IH]; intros es image Hin; simpl.
- by apply elem_of_nil in Hin.
- destruct (decide (Exists (λ image1, md5_hexdigest X (tobytes X image1)
    = md5_hexdigest X (tobytes X image)) images)) as [Hlater|Hnone].
  + apply Exists_exists in Hlater as (image1 & Hin1 & Heq1).
    destruct (IH (<[md5_hexdigest X (tobytes X image0) +:+ ".jpg" :=
      File (jpeg_encode X image0 93)]> es) image1 Hin1) as (image' & Hin' & Heq' & Hget).
    exists image'. split; [by right|]. split; [congruence|].
    by rewrite <- Heq1.
  + assert (Hhead : md5_hexdigest X (tobytes X image0)
      = md5_hexdigest X (tobytes X image)).
    { apply elem_of_cons in Hin as [->|Hin]; [done|]. destruct Hnone.
      apply Exists_exists. by exists image. }
    exists image0. split; [left|]. split; [done|].
    rewrite foldl_insert_other.
    * rewrite Hhead. apply lookup_insert_eq.
    * intros image1 Hin1 Heq. apply Hnone, Exists_exists. exists image1.
      split; [done|]. by apply string_app_inj_r in Heq.
Qed.

Lemma save_images_spec dir (images : list (Image X)) st es :
  FS.lookup (fs st) dir = Some (Dir es) →
  (∀ image es0, image ∈ images →
     es !! (md5_hexdigest X (tobytes X image) +:+ ".jpg") ≠ Some (Dir es0)) →
  ∃ n', save_images X dir images st = (Ok (), {| fs := n'; events := events st |}) ∧
    FS.lookup n' dir = Some (Dir (foldl (λ es image,
      <[md5_hexdigest X (tobytes X image) +:+ ".jpg" :=
        File (jpeg_encode X image 93)]> es) es images)).
Proof.
revert st es. induction images as [|image images IH]; intros st es Hdir Hfree.
- exists (fs st). by rewrite world_eta.
- destruct (write_in_dir dir (md5_hexdigest X (tobytes X image) +:+ ".jpg")
    (jpeg_encode X image 93) (fs st) es Hdir) as (n1 & Hwrite & Hdir1).
  { intros es0. apply Hfree. left. }
  destruct (IH {| fs := n1; events := events st |} _ Hdir1) as (n' & Hsave & Hdir').
  { intros image1 es0 Hin1. rewrite lookup_insert.
    case_decide; [done|]. apply Hfree. by right. }
  exists n'. split; [|done].
  unfold save_images in *. simpl. unfold bind at 1, save at 1.
  by rewrite Hwrite.
Qed.

End Persist.

(** C8. A batch the pipeline returns is persisted image by image: each
    image's raw bytes are hashed and its encoding is written to
    [<hash>.jpg] in the concept's directory, replacing whatever regular
    file had that name.  Afterwards the directory is what it was with every
    image stored under its hash, in order, and each image's path holds the
    encoding of an image of the batch with that hash. *)
Theorem generated_images_persisted (X : Collaborators) (concept : concept_config)
    (w h bs : Z) (st : World) (images : list (Image X)) (es : gmap string node) :
  pipeline X (events st) (batch_request concept w h bs) = Ok images →
  FS.lookup (fs st) (class_set_path concept) = Some (Dir es) →
  (∀ image es0, image ∈ images →
     es !! (md5_hexdigest X (tobytes X image) +:+ ".jpg") ≠ Some (Dir es0)) →
  ∃ st', generate_batch X concept w h bs st = (Ok (), st') ∧
    FS.lookup (fs st') (class_set_path concept)
      = Some (Dir (foldl (λ es image,
          <[md5_hexdigest X (tobytes X image) +:+ ".jpg" :=
            File (jpeg_encode X image 93)]> es) es images)) ∧
    ∀ image, image ∈ images →
      ∃ image', image' ∈ images ∧
        md5_hexdigest X (tobytes X image') = md5_hexdigest X (tobytes X image) ∧
        FS.lookup (fs st')
          (class_set_path concept ++ [md5_hexdigest X (tobytes X image) +:+ ".jpg"])
        = Some (File (jpeg_encode X image' 93)).
Proof.
intros Hpipe Hdir Hfree.
destruct (save_images_spec X (class_set_path concept) images
  {| fs := fs st; events := events st ++ [EvPipelineCall (batch_request concept w h bs)] |}
  es Hdir Hfree) as (n' & Hsave & Hdir').
eexists. split; [|split].
- unfold generate_batch, bind, call_pipeline. rewrite Hpipe, Hsave. done.
- done.
- intros image Hin. simpl.
  destruct (foldl_insert_last X images es image Hin) as (image' & Hin' & Heq & Hget).
  exists image'. split; [done|]. split; [done|].
  rewrite lookup_app, Hdir'. simpl. by rewrite Hget.
Qed.

(** ** The loop of one bucket *)

Lemma batches_stop target m : actual_bs target m <= 0 → batches target m = [].
Proof.
unfold actual_bs, batches. intros Hbs.
rewrite decide_False; [done|]. case_decide; lia.
Qed.

Lemma batches_step target m :
  0 < actual_bs target m →
  batches target m = actual_bs target m :: batches (target - actual_bs target m) m.
Proof.
unfold actual_bs. intros Hbs. case_decide as Hlt.
- (* what is left is less than a batch *)
  rewrite (batches_stop (target - target)) by (unfold actual_bs; case_decide; lia).
  unfold batches. rewrite decide_True by lia.
  rewrite Z.div_small, Z.mod_small by lia.
  by rewrite decide_False by lia.
- (* a full batch *)
  assert (Hdiv : target / m = (target - m) / m + 1).
  { replace target with ((target - m) + 1 * m) at 1 by lia.
    rewrite Z.div_add by lia. done. }
  assert (Hmod : (target - m) mod m = target mod m).
  { replace target with ((target - m) + 1 * m) at 2 by lia.
    by rewrite Z.mod_add by lia. }
  assert (0 <= (target - m) / m) by (apply Z.div_pos; lia).
  destruct (decide (0 < target - m)) as [Hmore|Hzero].
  + unfold batches. rewrite !decide_True by lia. rewrite Hdiv, Hmod.
    rewrite Z2Nat.inj_add, Nat.add_1_r by lia.
    by rewrite (decide_True (P := 0 < target - m ∧ 0 < m)) by lia.
  + assert (target = m) as -> by lia.
    rewrite (batches_stop (m - m)) by (unfold actual_bs; case_decide; lia).
    unfold batches. rewrite decide_True by lia.
    rewrite Z.div_same, Z.mod_same by lia. by rewrite decide_True.
Qed.

Section Loop.
Context (X : Collaborators).

Lemma while_true_step concept w h target st :
  while_true X concept w h target st =
  match loop_body X concept w h target st with
  | Break r st' => (r, st')
  | Continue target' st' => while_true X concept w h target' st'
  end.
Proof.
rewrite while_true_equation_1.
destruct (inspect (loop_body X concept w h target st)) as [[r st'|t' st'] Heq];
  simpl; by rewrite Heq.
Qed.

(** Saving writes files and nothing on the trace. *)
Lemma save_images_events dir images st :
  events (save_images X dir images st).2 = events st.
Proof.
revert st. induction images as [|image images IH]; intros st; [done|].
unfold save_images in *. simpl. unfold bind at 1, save at 1.
destruct (FS.write _ _ _) as [n|e]; [|done]. by rewrite IH.
Qed.

(** One batch on the trace: the call, and the progress report if the batch
    came back and was saved. *)
Lemma generate_batch_trace concept w h bs st :
  events (generate_batch X concept w h bs st).2 =
  events st ++ EvPipelineCall (batch_request concept w h bs) ::
    (if is_Ok (generate_batch X concept w h bs st).1
     then [EvProgressUpdate bs] else []).
Proof.
unfold generate_batch, bind, call_pipeline, emit.
destruct (pipeline X (events st) _) as [images|e]; simpl; [|done].
pose proof (save_images_events (class_set_path concept) images
  {| fs := fs st; events := events st ++ [EvPipelineCall (batch_request concept w h bs)] |})
  as Hev.
destruct (save_images X _ images _) as [[[]|e] st1]; simpl in *.
- rewrite Hev, <- app_assoc. done.
- done.
Qed.

(** What a turn of the loop does to the target and to the trace. *)
Lemma loop_body_turn concept w h target st :
  match loop_body X concept w h target st with
  | Break (Ok _) st' =>
      actual_bs target (batch_size (auto_generate concept)) <= 0 ∧ st' = st
  | Break (Raise _) st' =>
      0 < actual_bs target (batch_size (auto_generate concept)) ∧
      events st' = events st ++
        [EvPipelineCall (batch_request concept w h
           (actual_bs target (batch_size (auto_generate concept))))]
  | Continue target' st' =>
      0 < actual_bs target (batch_size (auto_generate concept)) ∧
      target' = target - actual_bs target (batch_size (auto_generate concept)) ∧
      events st' = events st ++
        [EvPipelineCall (batch_request concept w h
           (actual_bs target (batch_size (auto_generate concept))));
         EvProgressUpdate (actual_bs target (batch_size (auto_generate concept)))]
  end.
Proof.
unfold loop_body. case_decide as Hbs; [done|].
pose proof (generate_batch_trace concept w h
  (actual_bs target (batch_size (auto_generate concept))) st) as Hev.
destruct (generate_batch X _ _ _ _ _) as [[[]|e] st']; simpl in *.
- split; [lia|]. done.
- split; [lia|]. done.
Qed.

Lemma loop_body_decreases concept w h target st target' st' :
  loop_body X concept w h target st = Continue target' st' →
  0 <= target' < target.
Proof.
intros Hturn. pose proof (loop_body_turn concept w h target st) as Hspec.
rewrite Hturn in Hspec. destruct Hspec as (Hbs & -> & _).
unfold actual_bs in *. case_decide; lia.
Qed.

(** The trace of the loop of one bucket: its requests are the expected
    batches, all of them if the loop ends by [break], the first few if an
    exception ends it; every request is for the bucket, and every batch but
    a failed one is reported to the progress bar. *)
Lemma while_true_trace concept w h target st :
  ∃ evs, events (while_true X concept w h target st).2 = events st ++ evs ∧
    request_sizes evs `prefix_of` batches target (batch_size (auto_generate concept)) ∧
    Forall (λ b, b = (w, h)) (request_buckets evs) ∧
    progress_updates evs `prefix_of` request_sizes evs ∧
    ((while_true X concept w h target st).1 = Ok () →
       request_sizes evs = batches target (batch_size (auto_generate concept)) ∧
       progress_updates evs = request_sizes evs).
Proof.
remember (Z.to_nat target) as n eqn:Hn. revert target st Hn.
induction n as [n IH] using lt_wf_ind. intros target st ->.
rewrite while_true_step.
pose proof (loop_body_turn concept w h target st) as Hturn.
destruct (loop_body X concept w h target st) as [[[]|e] st'|target' st'] eqn:Hbody.
- destruct Hturn as [Hbs ->]. exists []. rewrite app_nil_r.
  rewrite batches_stop by done. by split_and!.
- destruct Hturn as [Hbs Hev]. eexists. split; [exact Hev|].
  rewrite batches_step by done. simpl. split_and!.
  + apply prefix_cons, prefix_nil.
  + by repeat constructor.
  + apply prefix_nil.
  + done.
- destruct Hturn as (Hbs & -> & Hev).
  pose proof (loop_body_decreases _ _ _ _ _ _ _ Hbody) as Hdec.
  destruct (IH (Z.to_nat (target - actual_bs target (batch_size (auto_generate concept))))
    ltac:(lia) _ st' eq_refl) as (evs & Hevs & Hpre & Hbk & Hprog & Hok).
  eexists. split; [rewrite Hevs, Hev, <- app_assoc; done|].
  rewrite (batches_step target) by done. simpl. split_and!.
  + by apply prefix_cons.
  + by constructor.
  + by apply prefix_cons.
  + intros Hr. split; f_equal; by apply Hok.
Qed.

End Loop.

(** ** The expected batches *)

Section Batches.
Context (d m : Z) (Hd : 0 < d) (Hm : 0 < m).

Lemma batches_eq :
  batches d m = replicate (Z.to_nat (d / m)) m ++
                (if decide (d mod m = 0) then [] else [d mod m]).
Proof. unfold batches. by rewrite decide_True. Qed.

Lemma sum_list_Z_app xs ys : sum_list_Z (xs ++ ys) = sum_list_Z xs + sum_list_Z ys.
Proof. unfold sum_list_Z. induction xs as [|x xs IH]; simpl; lia. Qed.

Lemma sum_list_Z_replicate n x : sum_list_Z (replicate n x) = Z.of_nat n * x.
Proof. unfold sum_list_Z. induction n as [|n IH]; simpl; lia. Qed.

Lemma batches_length : length (batches d m) = Z.to_nat (ceil_div d m).
Proof.
rewrite batches_eq, length_app, length_replicate. unfold ceil_div.
pose proof (Z.div_mod d m ltac:(lia)) as Hdm.
pose proof (Z.mod_pos_bound d m Hm) as Hr.
assert (0 <= d / m) by (apply Z.div_pos; lia).
case_decide as Hz; simpl.
- replace (d + m - 1) with ((m - 1) + (d / m) * m) by lia.
  rewrite Z.div_add, (Z.div_small (m - 1)) by lia. lia.
- replace (d + m - 1) with ((d mod m - 1) + (d / m + 1) * m) by lia.
  rewrite Z.div_add, (Z.div_small (d mod m - 1)) by lia. lia.
Qed.

Lemma batches_sum : sum_list_Z (batches d m) = d.
Proof.
rewrite batches_eq, sum_list_Z_app, sum_list_Z_replicate.
pose proof (Z.div_mod d m ltac:(lia)) as Hdm.
assert (0 <= d / m) by (apply Z.div_pos; lia).
rewrite Z2Nat.id by done. case_decide; unfold sum_list_Z; simpl; lia.
Qed.

Lemma batches_bounded : Forall (λ b, 0 < b <= m) (batches d m).
Proof.
rewrite batches_eq. apply Forall_app. split.
- apply Forall_replicate. lia.
- pose proof (Z.mod_pos_bound d m Hm). case_decide; repeat constructor; lia.
Qed.

Lemma batches_all_but_last i :
  (S i < length (batches d m))%nat → batches d m !! i = Some m.
Proof.
rewrite batches_eq, length_app, length_replicate. intros Hi.
rewrite lookup_app_l by (rewrite length_replicate; case_decide; simpl in *; lia).
apply lookup_replicate_2. case_decide; simpl in *; lia.
Qed.

Lemma batches_last :
  last (batches d m) = Some (if decide (d mod m = 0) then m else d mod m).
Proof.
rewrite batches_eq. case_decide as Hz.
- rewrite app_nil_r.
  assert (Hq : 0 < d / m).
  { pose proof (Z.div_mod d m ltac:(lia)). assert (0 <= d / m) by (apply Z.div_pos; lia).
    nia. }
  destruct (Z.to_nat (d / m)) as [|n] eqn:Hn; [lia|].
  rewrite replicate_S_end. apply last_snoc.
- apply last_snoc.
Qed.

End Batches.

(** ** Runs that no collaborator interrupts *)

Section Completes.
Context (X : Collaborators).
Context (Hpipeline : ∀ evs r, is_Ok (pipeline X evs r) = true).

Lemma foldl_insert_files (images : list (Image X)) (es : gmap string node) :
  (∀ name es0, es !! name ≠ Some (Dir es0)) →
  ∀ name es0,
    foldl (λ es image, <[md5_hexdigest X (tobytes X image) +:+ ".jpg" :=
                         File (jpeg_encode X image 93)]> es) es images !! name
    ≠ Some (Dir es0).
Proof.
revert es. induction images as [|image images IH]; intros es Hes; simpl; [done|].
apply IH. intros name es0. rewrite lookup_insert. case_decide; [done | apply Hes].
Qed.

Lemma generate_batch_completes concept w h bs st :
  holds_files (class_set_path concept) (fs st) →
  ∃ st', generate_batch X concept w h bs st = (Ok (), st') ∧
         holds_files (class_set_path concept) (fs st').
Proof.
intros (es & Hdir & Hes).
specialize (Hpipeline (events st) (batch_request concept w h bs)).
destruct (pipeline X (events st) (batch_request concept w h bs)) as [images|e] eqn:Hp;
  [|done].
destruct (save_images_spec X (class_set_path concept) images
  {| fs := fs st; events := events st ++ [EvPipelineCall (batch_request concept w h bs)] |}
  es Hdir) as (n' & Hsave & Hdir').
{ intros image es0 _. apply Hes. }
eexists. split.
- unfold generate_batch, bind, call_pipeline. rewrite Hp, Hsave. done.
- eexists. split; [exact Hdir'|]. by apply foldl_insert_files.
Qed.

Lemma while_true_completes concept w h target st :
  holds_files (class_set_path concept) (fs st) →
  (while_true X concept w h target st).1 = Ok () ∧
  holds_files (class_set_path concept) (fs (while_true X concept w h target st).2).
Proof.
remember (Z.to_nat target) as n eqn:Hn. revert target st Hn.
induction n as [n IH] using lt_wf_ind. intros target st -> Hfiles.
rewrite while_true_step.
destruct (loop_body X concept w h target st) as [r st'|target' st'] eqn:Hbody.
- unfold loop_body in Hbody. case_decide; [by injection Hbody as <- <-|].
  destruct (generate_batch_completes concept w h
    (actual_bs target (batch_size (auto_generate concept))) st Hfiles)
    as (st1 & Hgen & _).
  by rewrite Hgen in Hbody.
- pose proof (loop_body_decreases X _ _ _ _ _ _ _ Hbody) as Hdec.
  apply (IH (Z.to_nat target')); [lia | done |].
  unfold loop_body in Hbody. case_decide; [done|].
  destruct (generate_batch_completes concept w h
    (actual_bs target (batch_size (auto_generate concept))) st Hfiles)
    as (st1 & Hgen & Hfiles1).
  rewrite Hgen in Hbody. by injection Hbody as _ <-.
Qed.

End Completes.

(** C2. The loop of a bucket with deficit [d > 0] under a cap [m > 0] calls
    the pipeline for that bucket only, and the batch sizes it asks for are
    the first of [batches d m]: all of them when the loop ends by [break],
    which it does whenever the pipeline answers every call and the
    directory holds regular files only.  [batches d m] are [ceil(d / m)]
    sizes that add up to [d], each at most [m], all but the last equal to
    [m], the last equal to [d mod m], or to [m] when [m] divides [d]. *)
Theorem telescoping_batches (X : Collaborators) (concept : concept_config)
    (w h d : Z) (st : World) :
  0 < d →
  0 < batch_size (auto_generate concept) →
  ∃ evs, events (while_true X concept w h d st).2 = events st ++ evs ∧
    Forall (λ b, b = (w, h)) (request_buckets evs) ∧
    request_sizes evs `prefix_of` batches d (batch_size (auto_generate concept)) ∧
    ((while_true X concept w h d st).1 = Ok () →
       request_sizes evs = batches d (batch_size (auto_generate concept))) ∧
    ((∀ evs r, is_Ok (pipeline X evs r) = true) →
     holds_files (class_set_path concept) (fs st) →
       (while_true X concept w h d st).1 = Ok ()) ∧
    length (batches d (batch_size (auto_generate concept)))
      = Z.to_nat (ceil_div d (batch_size (auto_generate concept))) ∧
    sum_list_Z (batches d (batch_size (auto_generate concept))) = d ∧
    Forall (λ b, 0 < b <= batch_size (auto_generate concept))
      (batches d (batch_size (auto_generate concept))) ∧
    (∀ i, (S i < length (batches d (batch_size (auto_generate concept))))%nat →
       batches d (batch_size (auto_generate concept)) !! i
       = Some (batch_size (auto_generate concept))) ∧
    last (batches d (batch_size (auto_generate concept)))
      = Some (if decide (d mod batch_size (auto_generate concept) = 0)
              then batch_size (auto_generate concept)
              else d mod batch_size (auto_generate concept)).
Proof.
intros Hd Hm.
destruct (while_true_trace X concept w h d st) as (evs & Hev & Hpre & Hbk & _ & Hok).
exists evs. split_and!; try done.
- intros Hr. by apply Hok.
- intros Hpipeline Hfiles. by apply while_true_completes.
- by apply batches_length.
- by apply batches_sum.
- by apply batches_bounded.
- by apply batches_all_but_last.
- by apply batches_last.
Qed.

(** C7. Whatever the cap, the loop of a bucket ends: run turn by turn it
    leaves after at most one turn more than the target counts, with the
    result of [while_true].  With a cap of 0 or less and a positive target
    the first turn breaks: nothing is requested and nothing changes. *)
Theorem loop_terminates (X : Collaborators) (concept : concept_config)
    (w h target : Z) (st : World) :
  (∃ fuel, (fuel <= S (Z.to_nat target))%nat ∧
     turns X fuel concept w h target st = Some (while_true X concept w h target st))
  ∧ (0 < target → batch_size (auto_generate concept) <= 0 →
     turns X 1 concept w h target st = Some (Ok (), st) ∧
     while_true X concept w h target st = (Ok (), st)).
Proof.
split.
- exists (S (Z.to_nat target)). split; [done|].
  assert (Hfuel : ∀ fuel target st, (Z.to_nat target < fuel)%nat →
    turns X fuel concept w h target st = Some (while_true X concept w h target st)).
  { clear. induction fuel as [|fuel IH]; intros target st Hlt; [lia|].
    simpl. rewrite while_true_step.
    destruct (loop_body X concept w h target st) as [r st'|target' st'] eqn:Hbody;
      [done|].
    apply IH. apply loop_body_decreases in Hbody. lia. }
  apply Hfuel. lia.
- intros Htarget Hm.
  assert (Hbody : loop_body X concept w h target st = Break (Ok ()) st).
  { unfold loop_body. rewrite decide_True; [done|].
    unfold actual_bs. case_decide; lia. }
  split; [simpl; by rewrite Hbody | rewrite while_true_step; by rewrite Hbody].
Qed.

Example cap_zero_requests_nothing :
  while_true (Demo.collaborators Demo.fresh_images) (Demo.concept 100 0)
    512 512 100 Demo.class_dir_world = (Ok (), Demo.class_dir_world).
Proof. by vm_compute. Qed.

Example cap_negative_requests_nothing :
  while_true (Demo.collaborators Demo.fresh_images) (Demo.concept 100 (-3))
    512 512 100 Demo.class_dir_world = (Ok (), Demo.class_dir_world).
Proof. by vm_compute. Qed.

Example failing_pipeline_ends_the_loop :
  (while_true (Demo.collaborators Demo.failing) (Demo.concept 100 8)
     512 512 100 Demo.class_dir_world).1 = Raise RuntimeError ∧
  request_sizes (events (while_true (Demo.collaborators Demo.failing)
    (Demo.concept 100 8) 512 512 100 Demo.class_dir_world).2) = [8].
Proof. by vm_compute. Qed.

(** ** The theorems at work on examples *)

Lemma demo_scan_empty pipeline n d :
  FS.lookup n d = Some (Dir ∅) →
  get_images (Demo.collaborators pipeline) n d = Ok [].
Proof. intros Hd. simpl. rewrite Hd. by rewrite map_to_list_empty. Qed.

Lemma demo_holds_files : holds_files ["data"; "class"] (fs Demo.class_dir_world).
Proof.
exists ∅. split; [by vm_compute|]. intros name es0. by rewrite lookup_empty.
Qed.

(** The specification's example: a deficit of 100 under a cap of 8 is
    thirteen requests, twelve of 8 and one of 4. *)
Lemma telescoping_batches_witness :
  ∃ evs,
    events (while_true (Demo.collaborators Demo.fresh_images) (Demo.concept 100 8)
              512 512 100 Demo.class_dir_world).2 = [] ++ evs ∧
    request_sizes evs = [8; 8; 8; 8; 8; 8; 8; 8; 8; 8; 8; 8; 4].
Proof.
destruct (telescoping_batches (Demo.collaborators Demo.fresh_images)
  (Demo.concept 100 8) 512 512 100 Demo.class_dir_world)
  as (evs & Hev & _ & _ & Hok & Hcompletes & _); [lia | simpl; lia |].
exists evs. split; [exact Hev|]. rewrite Hok; [reflexivity|].
apply Hcompletes; [reflexivity | exact demo_holds_files].
Defined.

(** A missing directory under an empty root. *)
Lemma class_dir_created_witness :
  ∃ n', FS.mkdir ["data"; "class"] (Dir ∅) = Ok n' ∧
    FS.is_dir n' ["data"; "class"] = true ∧
    (FS.lookup (Dir ∅) ["data"; "class"] = None →
       FS.lookup n' ["data"; "class"] = Some (Dir ∅) ∧
       ∃ cur, inventory (Demo.collaborators Demo.same_image) (Demo.concept 100 8)
                Demo.empty_world = (Ok cur, {| fs := n'; events := [] |}) ∧
              ∀ b, Dict.get_default cur b 0 = 0) ∧
    (FS.is_dir (Dir ∅) ["data"; "class"] = true →
       n' = Dir ∅ ∧
       (inventory (Demo.collaborators Demo.same_image) (Demo.concept 100 8)
          Demo.empty_world).2 = Demo.empty_world).
Proof.
apply (class_dir_created (Demo.collaborators Demo.same_image) (Demo.concept 100 8)
  Demo.empty_world).
- reflexivity.
- apply demo_scan_empty.
- reflexivity.
Defined.

(** A batch of two identical images into the empty directory. *)
Lemma generated_images_persisted_witness :
  ∃ st', generate_batch (Demo.collaborators Demo.same_image) (Demo.concept 100 8)
           512 512 2 Demo.class_dir_world = (Ok (), st') ∧
    FS.lookup (fs st') ["data"; "class"]
      = Some (Dir (<["00.jpg" := File [Byte.x00]]> (<["00.jpg" := File [Byte.x00]]> ∅))) ∧
    ∀ image : Demo.image,
      image ∈ replicate 2 {| Demo.image_size := (512, 512); Demo.pixels := [Byte.x00] |} →
      ∃ image' : Demo.image,
        image' ∈ replicate 2 {| Demo.image_size := (512, 512); Demo.pixels := [Byte.x00] |} ∧
        Demo.digest (Demo.pixels image') = Demo.digest (Demo.pixels image) ∧
        FS.lookup (fs st') (["data"; "class"] ++ [Demo.digest (Demo.pixels image) +:+ ".jpg"])
        = Some (File (Demo.pixels image')).
Proof.
apply (generated_images_persisted (Demo.collaborators Demo.same_image)
  (Demo.concept 100 8) 512 512 2 Demo.class_dir_world
  (replicate 2 {| Demo.image_size := (512, 512); Demo.pixels := [Byte.x00] |}) ∅).
- reflexivity.
- by vm_compute.
- intros image es0 _. by rewrite lookup_empty.
Defined.

(** ** The loop over the buckets *)

Lemma request_sizes_app evs1 evs2 :
  request_sizes (evs1 ++ evs2) = request_sizes evs1 ++ request_sizes evs2.
Proof. apply omap_app. Qed.

Lemma progress_updates_app evs1 evs2 :
  progress_updates (evs1 ++ evs2) = progress_updates evs1 ++ progress_updates evs2.
Proof. apply omap_app. Qed.

Lemma planned_batches_cons sz target D m :
  planned_batches ((sz, target) :: D) m = batches target m ++ planned_batches D m.
Proof. done. Qed.

Section Fulfil.
Context (X : Collaborators).

Lemma fulfil_cons concept w h target D st :
  fulfil X concept (((w, h), target) :: D) st =
  match while_true X concept w h target
          {| fs := fs st; events := events st ++ [EvPostfix (w, h)] |} with
  | (Ok _, st1) => fulfil X concept D st1
  | (Raise e, st1) => (Raise e, st1)
  end.
Proof. done. Qed.

(** The trace of the whole fulfillment: the requested sizes are the planned
    batches, bucket after bucket, up to the point where an exception, if
    any, ends the run; the progress bar is advanced by the size of every
    batch that came back and was saved. *)
Lemma fulfil_trace concept D st :
  ∃ evs, events (fulfil X concept D st).2 = events st ++ evs ∧
    request_sizes evs `prefix_of` planned_batches D (batch_size (auto_generate concept)) ∧
    progress_updates evs `prefix_of` request_sizes evs ∧
    ((fulfil X concept D st).1 = Ok () →
       request_sizes evs = planned_batches D (batch_size (auto_generate concept)) ∧
       progress_updates evs = request_sizes evs).
Proof.
revert st. induction D as [|[[w h] target] D IH]; intros st.
- exists []. rewrite app_nil_r. by split_and!.
- rewrite fulfil_cons.
  destruct (while_true_trace X concept w h target
    {| fs := fs st; events := events st ++ [EvPostfix (w, h)] |})
    as (evs1 & Hev1 & Hpre1 & _ & Hprog1 & Hok1).
  destruct (while_true X concept w h target _) as [[[]|e] st1]; simpl in *.
  + destruct (IH st1) as (evs2 & Hev2 & Hpre2 & Hprog2 & Hok2).
    destruct (Hok1 eq_refl) as [Hsizes1 Hupd1].
    exists ([EvPostfix (w, h)] ++ evs1 ++ evs2).
    rewrite planned_batches_cons, !request_sizes_app, !progress_updates_app.
    change (request_sizes [EvPostfix (w, h)]) with (@nil Z).
    change (progress_updates [EvPostfix (w, h)]) with (@nil Z).
    rewrite !app_nil_l, Hsizes1, Hupd1, Hsizes1. split_and!.
    * rewrite Hev2, Hev1, <- !app_assoc. done.
    * by apply prefix_app.
    * by apply prefix_app.
    * intros Hr. destruct (Hok2 Hr) as [Hsizes2 Hupd2]. by rewrite Hupd2, Hsizes2.
  + exists ([EvPostfix (w, h)] ++ evs1).
    rewrite planned_batches_cons, !request_sizes_app, !progress_updates_app.
    change (request_sizes [EvPostfix (w, h)]) with (@nil Z).
    change (progress_updates [EvPostfix (w, h)]) with (@nil Z).
    rewrite !app_nil_l. split_and!.
    * rewrite Hev1, <- app_assoc. done.
    * by apply prefix_app_r.
    * done.
    * done.
Qed.

End Fulfil.

(** C5. A turn of the loop that goes round again has taken the size it
    asked the pipeline for off the target, whatever came back and whatever
    the files now are.  So the sizes requested by the fulfillment of a
    deficit map [D] are fixed by [D] and the cap: from any two starting
    worlds, with whatever files in them, the two runs request the first of
    the same planned batches, and the same sizes when both run to the end. *)
Theorem requests_fixed_by_plan (X : Collaborators) (concept : concept_config)
    (D : list (size * Z)) (st1 st2 : World) :
  (∀ w h target st target' st',
     loop_body X concept w h target st = Continue target' st' →
     target' = target - actual_bs target (batch_size (auto_generate concept)) ∧
     request_sizes (drop (length (events st)) (events st'))
     = [actual_bs target (batch_size (auto_generate concept))])
  ∧ ∃ evs1 evs2,
      events (fulfil X concept D st1).2 = events st1 ++ evs1 ∧
      events (fulfil X concept D st2).2 = events st2 ++ evs2 ∧
      request_sizes evs1 `prefix_of` planned_batches D (batch_size (auto_generate concept)) ∧
      request_sizes evs2 `prefix_of` planned_batches D (batch_size (auto_generate concept)) ∧
      ((fulfil X concept D st1).1 = Ok () → (fulfil X concept D st2).1 = Ok () →
         request_sizes evs1 = request_sizes evs2 ∧
         request_sizes evs1 = planned_batches D (batch_size (auto_generate concept))).
Proof.
split.
- intros w h target st target' st' Hbody.
  pose proof (loop_body_turn X concept w h target st) as Hturn.
  rewrite Hbody in Hturn. destruct Hturn as (_ & -> & ->).
  split; [done|]. by rewrite drop_app_length.
- destruct (fulfil_trace X concept D st1) as (evs1 & Hev1 & Hpre1 & _ & Hok1).
  destruct (fulfil_trace X concept D st2) as (evs2 & Hev2 & Hpre2 & _ & Hok2).
  exists evs1, evs2. split_and!; try done.
  intros Hr1 Hr2. destruct (Hok1 Hr1) as [-> _]. destruct (Hok2 Hr2) as [-> _]. done.
Qed.

(** Five images wanted, two at a time, from a pipeline that draws the same
    image every time: whether its file is there already or not, the sizes
    requested are 2, 2 and 1, and the directory ends with that one file. *)
Example requests_ignore_existing_files :
  let X := Demo.collaborators Demo.same_image in
  let run1 := fulfil X (Demo.concept 5 2) [((512, 512), 5)] Demo.class_dir_world in
  let run2 := fulfil X (Demo.concept 5 2) [((512, 512), 5)] Demo.stocked_world in
  run1.1 = Ok () ∧ run2.1 = Ok () ∧
  request_sizes (events run1.2) = [2; 2; 1] ∧
  request_sizes (events run2.2) = [2; 2; 1] ∧
  fs run1.2 = fs Demo.stocked_world ∧ fs run2.2 = fs Demo.stocked_world.
Proof. vm_compute. by split_and!. Qed.

(** ** [main] *)

(** C9. With prior preservation disabled [main] logs its warning and
    returns: the trace grows by that warning alone, so no pipeline is built
    and no image is requested, and no file is touched. *)
Theorem main_disabled_is_noop (X : Collaborators) (cfg : config) (st : World) :
  prior_preservation_enabled cfg = false →
  main X cfg st =
    (Ok PyNone,
     {| fs := fs st;
        events := events st ++ [EvWarning
          "Prior preservation not enabled. Class image generation is not needed."] |}).
Proof. intros Hoff. unfold main. by rewrite Hoff. Qed.

Lemma main_disabled_is_noop_witness :
  main (Demo.collaborators Demo.fresh_images) Demo.disabled_config Demo.empty_world =
    (Ok PyNone,
     {| fs := Dir ∅;
        events := [EvWarning
          "Prior preservation not enabled. Class image generation is not needed."] |}).
Proof.
apply (main_disabled_is_noop (Demo.collaborators Demo.fresh_images) Demo.disabled_config
  Demo.empty_world).
reflexivity.
Defined.

(** An exception in the body of a [for] loop leaves the loop. *)
Lemma for_each_raise {A} (body : A → M unit) x xs st e st' :
  body x st = (Raise e, st') → for_each (x :: xs) body st = (Raise e, st').
Proof. intros Hbody. simpl. unfold bind. by rewrite Hbody. Qed.

(** C4. With aspect-ratio bucketing on, the proportions reach the generator
    only through the assertion: whatever [size_dist_of] hands on sums to
    exactly 1, and bucket shares with any other sum end the concept, and
    with it the run, in an [AssertionError] before anything is generated. *)
Theorem proportions_asserted (X : Collaborators) (cfg : config) (i : nat)
    (concept : concept_config) (st : World) :
  aspect_ratio_bucket_enabled cfg = true →
  (∀ size_dist st', size_dist_of X cfg concept st = (Ok size_dist, st') →
     PyFloat.eq_one (PyFloat.sum (Dict.values size_dist)) = true)
  ∧ (∀ size_dist st', bucket_shares X concept st = (Ok size_dist, st') →
       PyFloat.eq_one (PyFloat.sum (Dict.values size_dist)) = false →
       size_dist_of X cfg concept st = (Raise AssertionError, st') ∧
       (ag_enabled (auto_generate concept) = true →
          process_concept X cfg i concept st = (Raise AssertionError, st') ∧
          ∀ concepts, for_each ((i, concept) :: concepts)
                        (λ '(i, concept), process_concept X cfg i concept) st
                      = (Raise AssertionError, st')))
  ∧ (∀ size_dist st', bucket_shares X concept st = (Ok size_dist, st') →
       PyFloat.eq_one (PyFloat.sum (Dict.values size_dist)) = true →
       size_dist_of X cfg concept st = (Ok size_dist, st')).
Proof.
intros Harb.
assert (Hdist : size_dist_of X cfg concept st =
  match bucket_shares X concept st with
  | (Ok size_dist, st') =>
      if PyFloat.eq_one (PyFloat.sum (Dict.values size_dist))
      then (Ok size_dist, st') else (Raise AssertionError, st')
  | (Raise e, st') => (Raise e, st')
  end).
{ unfold size_dist_of, bind. rewrite Harb. simpl.
  destruct (bucket_shares X concept st) as [[sd|e] st1]; [|done].
  by destruct (PyFloat.eq_one _). }
rewrite Hdist. split_and!.
- intros size_dist st'.
  destruct (bucket_shares X concept st) as [[sd|e] st1]; [|done].
  destruct (PyFloat.eq_one (PyFloat.sum (Dict.values sd))) eqn:Hsum; [|done].
  by intros [= <- <-].
- intros size_dist st' Hshares Hsum. rewrite Hshares, Hsum in *.
  split; [done|]. intros Hon.
  assert (Hconcept : process_concept X cfg i concept st = (Raise AssertionError, st')).
  { unfold process_concept. rewrite Hon. simpl. unfold bind. by rewrite Hdist. }
  split; [done|]. intros concepts.
  by apply (for_each_raise (λ '(i, concept), process_concept X cfg i concept) (i, concept)).
- intros size_dist st' Hshares Hsum. by rewrite Hshares, Hsum.
Qed.

(** Ten instance images, each in a bucket of its own: ten shares of 0.1,
    which add up to 0.9999999999999999, and the run dies in the assertion. *)
Lemma proportions_asserted_witness :
  size_dist_of (Demo.collaborators_with Demo.fresh_images Demo.bucket_each)
    Demo.bucketing_config (Demo.concept 100 8) (Demo.instance_world 10)
  = (Raise AssertionError, Demo.instance_world 10).
Proof.
refine (proj1 (proj1 (proj2 (proportions_asserted
  (Demo.collaborators_with Demo.fresh_images Demo.bucket_each)
  Demo.bucketing_config 0 (Demo.concept 100 8) (Demo.instance_world 10) _))
  ((λ i, ((512 + 64 * Z.of_nat i, 512), S754_finite false 7205759403792794 (-56)))
     <$> seq 0 10) (Demo.instance_world 10) _ _)).
- reflexivity.
- by vm_compute.
- by vm_compute.
Defined.

Example four_buckets_pass :
  (size_dist_of (Demo.collaborators_with Demo.fresh_images Demo.bucket_each)
     Demo.bucketing_config (Demo.concept 100 8) (Demo.instance_world 4)).1
  = Ok ((λ i, ((512 + 64 * Z.of_nat i, 512), S754_finite false 4503599627370496 (-54)))
          <$> seq 0 4).
Proof. by vm_compute. Qed.

Example main_dies_in_assertion :
  main (Demo.collaborators_with Demo.fresh_images Demo.bucket_each)
    Demo.bucketing_config (Demo.instance_world 10)
  = (Raise AssertionError,
     {| fs := fs (Demo.instance_world 10);
        events := EvBuild <$> build_steps Demo.bucketing_config |}).
Proof. by vm_compute. Qed.

(** ** What [generate_class_images] returns and reports *)

Lemma sum_values_foldr (d : list (size * Z)) :
  sum_values d = sum_list_Z (Dict.values d).
Proof.
unfold sum_values, sum_list_Z. generalize (Dict.values d). intros xs.
assert (Hacc : ∀ a, foldl Z.add a xs = a + foldr Z.add 0 xs).
{ induction xs as [|x xs IH]; intros a; simpl; [lia|]. rewrite IH. lia. }
by rewrite Hacc.
Qed.

Lemma set_values_Forall {K} `{EqDecision K} (P : Z → Prop) (d : list (K * Z)) k v :
  Forall P (Dict.values d) → P v → Forall P (Dict.values (Dict.set d k v)).
Proof.
unfold Dict.values. induction d as [|[k' v'] d IH]; simpl; intros Hd Hv.
- by repeat constructor.
- apply Forall_cons in Hd as [Hv' Hd]. case_decide; simpl; constructor; auto.
Qed.

(** Every deficit is positive. *)
Lemma dist_diff_positive T C : Forall (λ v, 0 < v) (Dict.values (dist_diff T C)).
Proof.
unfold dist_diff, Dict.comp.
assert (Hacc : ∀ d : list (size * Z), Forall (λ v, 0 < v) (Dict.values d) →
  Forall (λ v, 0 < v) (Dict.values (foldl (λ d x,
    if (λ '(k, v), bool_decide (v > Dict.get_default C k 0)) x
    then Dict.set d ((λ '(k, v), k) x) ((λ '(k, v), v - Dict.get_default C k 0) x)
    else d) d T))).
{ induction T as [|[k v] T IH]; intros d Hd; simpl; [done|].
  apply IH. case_bool_decide; [|done]. apply set_values_Forall; [done | lia]. }
apply Hacc. constructor.
Qed.

(** Without a positive cap nothing is planned. *)
Lemma planned_batches_no_cap D m : m <= 0 → planned_batches D m = [].
Proof.
intros Hm. induction D as [|[sz target] D IH]; [done|].
rewrite planned_batches_cons, IH, app_nil_r.
unfold batches. by rewrite decide_False by lia.
Qed.

(** With a positive cap the planned batches add up to the deficits. *)
Lemma planned_batches_sum D m :
  0 < m → Forall (λ v, 0 < v) (Dict.values D) →
  sum_list_Z (planned_batches D m) = sum_list_Z (Dict.values D).
Proof.
intros Hm. unfold Dict.values. induction D as [|[sz target] D IH]; intros HD; [done|].
apply Forall_cons in HD as [Htarget HD].
rewrite planned_batches_cons, sum_list_Z_app, batches_sum, IH by done. done.
Qed.

(** The trace of a fulfillment that goes through. *)
Section Trace.
Context (X : Collaborators).

Lemma while_true_bucket_trace concept w h target st :
  (while_true X concept w h target st).1 = Ok () →
  events (while_true X concept w h target st).2
  = events st ++ bucket_trace concept w h target.
Proof.
remember (Z.to_nat target) as n eqn:Hn. revert target st Hn.
induction n as [n IH] using lt_wf_ind. intros target st ->.
rewrite while_true_step. unfold bucket_trace.
pose proof (loop_body_turn X concept w h target st) as Hturn.
destruct (loop_body X concept w h target st) as [[[]|e] st'|target' st'] eqn:Hbody.
- destruct Hturn as [Hbs ->]. intros _.
  rewrite batches_stop by done. simpl. by rewrite app_nil_r.
- done.
- destruct Hturn as (Hbs & -> & Hev).
  pose proof (loop_body_decreases X _ _ _ _ _ _ _ Hbody) as Hdec.
  intros Hok.
  rewrite (IH (Z.to_nat (target - actual_bs target (batch_size (auto_generate concept))))
    ltac:(lia) _ st' eq_refl Hok).
  rewrite (batches_step target) by done.
  rewrite Hev, fmap_cons. unfold bucket_trace. simpl. by rewrite <- app_assoc.
Qed.

Lemma fulfil_planned_trace concept D st :
  (fulfil X concept D st).1 = Ok () →
  events (fulfil X concept D st).2 = events st ++ planned_trace concept D.
Proof.
revert st. induction D as [|[[w h] target] D IH]; intros st.
- intros _. simpl. by rewrite app_nil_r.
- rewrite fulfil_cons.
  pose proof (while_true_bucket_trace concept w h target
    {| fs := fs st; events := events st ++ [EvPostfix (w, h)] |}) as Hloop.
  destruct (while_true X concept w h target _) as [[[]|e] st1]; simpl in *; [|done].
  intros Hok. rewrite (IH st1 Hok), (Hloop eq_refl).
  unfold planned_trace. rewrite fmap_cons. simpl. by rewrite <- !app_assoc.
Qed.

End Trace.

Section Returns.
Context (X : Collaborators).

(** The inventory reads and makes sure of the directory; it logs nothing. *)
Lemma inventory_events concept st : events (inventory X concept st).2 = events st.
Proof.
unfold inventory, bind, mkdir, ret.
destruct (FS.mkdir _ _) as [n|e]; simpl; [|done].
destruct (get_images X _ _) as [imgs|e]; simpl; [|done].
by destruct (get_id_size_map X _ _) as [m|e].
Qed.

(** A run of [generate_class_images] that returns: the value is [None];
    the deficit map is the plan for the proportions, the configured total
    and the inventory; the trace is the three distributions, the total, the
    opening of the progress bar on that total, and the fulfillment of the
    deficit map. *)
Lemma generate_class_images_returns concept size_dist st v st' :
  generate_class_images X concept size_dist st = (Ok v, st') →
  v = PyNone ∧
  ∃ cur T evs,
    (inventory X concept st).1 = Ok cur ∧
    target_dist (num_target (auto_generate concept)) size_dist = Ok T ∧
    plan size_dist (num_target (auto_generate concept)) cur = Ok (dist_diff T cur) ∧
    events st' = events st ++
      [EvInfoDist "Current distribution" cur;
       EvInfoDist "Target distribution" T;
       EvInfoDist "Distribution diff" (dist_diff T cur);
       EvInfoTotal (sum_values (dist_diff T cur));
       EvProgressOpen (sum_values (dist_diff T cur))] ++ evs ∧
    request_sizes evs
      = planned_batches (dist_diff T cur) (batch_size (auto_generate concept)) ∧
    progress_updates evs = request_sizes evs ∧
    evs = planned_trace concept (dist_diff T cur).
Proof.
unfold generate_class_images. unfold bind at 1.
pose proof (inventory_events concept st) as Hinv.
destruct (inventory X concept st) as [[cur|e] st0]; [|done]. simpl in Hinv.
unfold bind at 1, emit at 1. unfold bind at 1, lift at 1.
destruct (target_dist _ size_dist) as [T|e] eqn:HT; [|done].
unfold bind at 1, emit at 1. unfold bind at 1, emit at 1.
unfold bind at 1, emit at 1. unfold bind at 1, emit at 1. simpl.
unfold bind at 1.
match goal with |- context [fulfil X concept ?D ?s] =>
  destruct (fulfil_trace X concept D s) as (evs & Hev & _ & _ & Hok);
  pose proof (fulfil_planned_trace X concept D s) as Htrace;
  destruct (fulfil X concept D s) as [[[]|e] st1]; [|done]
end.
simpl in *. unfold ret. intros [= <- <-]. split; [done|].
exists cur, T, evs. destruct (Hok eq_refl) as [Hsizes Hupd].
split_and!; [done | done | unfold plan; by rewrite HT | | done | done |].
- rewrite Hev, Hinv, <- !app_assoc. done.
- rewrite (Htrace eq_refl) in Hev. by apply app_inv_head in Hev.
Qed.

End Returns.

(** C3, as the code has it.  [generate_class_images] returns nothing: a
    run that returns, returns [None].  The number of new images is the sum
    of the deficit map planned from the proportions, the configured total
    and the inventory; it is reported twice before anything is requested,
    in the log (line 45) and as the total the progress bar is opened on
    (lines 48 and 49).  What follows on the trace is the fulfillment of
    that deficit map and nothing else: the bar is advanced by the size of
    each batch, right after the batch is requested and saved.  Under a
    positive cap these advances, the sum of the batch sizes across all
    buckets, add up to the total reported; under a cap of 0 or less nothing
    is requested and the bar is never advanced, whatever the total. *)
Theorem returns_none_reports_progress (X : Collaborators) (concept : concept_config)
    (size_dist : list (size * spec_float)) (st : World) (v : pyval) (st' : World) :
  generate_class_images X concept size_dist st = (Ok v, st') →
  v = PyNone ∧
  ∃ cur T evs,
    (inventory X concept st).1 = Ok cur ∧
    target_dist (num_target (auto_generate concept)) size_dist = Ok T ∧
    plan size_dist (num_target (auto_generate concept)) cur = Ok (dist_diff T cur) ∧
    events st' = events st ++
      [EvInfoDist "Current distribution" cur;
       EvInfoDist "Target distribution" T;
       EvInfoDist "Distribution diff" (dist_diff T cur);
       EvInfoTotal (sum_values (dist_diff T cur));
       EvProgressOpen (sum_values (dist_diff T cur))] ++ evs ∧
    evs = planned_trace concept (dist_diff T cur) ∧
    request_sizes evs
      = planned_batches (dist_diff T cur) (batch_size (auto_generate concept)) ∧
    progress_updates evs = request_sizes evs ∧
    (0 < batch_size (auto_generate concept) →
       sum_list_Z (progress_updates evs) = sum_values (dist_diff T cur)) ∧
    (batch_size (auto_generate concept) <= 0 →
       request_sizes evs = [] ∧ progress_updates evs = []).
Proof.
intros Hrun.
destruct (generate_class_images_returns X concept size_dist st v st' Hrun)
  as (-> & cur & T & evs & Hinv & HT & Hplan & Hev & Hsizes & Hupd & Htrace).
split; [done|].
exists cur, T, evs. split_and!; try done.
- intros Hm. rewrite Hupd, Hsizes, planned_batches_sum, sum_values_foldr; try done.
  apply dist_diff_positive.
- intros Hm. rewrite Hupd, Hsizes. by rewrite planned_batches_no_cap.
Qed.

(** Five images of one bucket, two a batch: the log and the bar say 5, and
    the bar is advanced by 2, 2 and 1. *)
Lemma returns_none_reports_progress_witness :
  let X := Demo.collaborators Demo.fresh_images in
  let concept := Demo.concept 5 2 in
  ∃ st', generate_class_images X concept [((512, 512), PyFloat.one)] Demo.empty_world
         = (Ok PyNone, st') ∧
    ∃ cur T evs,
      (inventory X concept Demo.empty_world).1 = Ok cur ∧
      target_dist 5 [((512, 512), PyFloat.one)] = Ok T ∧
      plan [((512, 512), PyFloat.one)] 5 cur = Ok (dist_diff T cur) ∧
      events st' = [] ++
        [EvInfoDist "Current distribution" cur;
         EvInfoDist "Target distribution" T;
         EvInfoDist "Distribution diff" (dist_diff T cur);
         EvInfoTotal (sum_values (dist_diff T cur));
         EvProgressOpen (sum_values (dist_diff T cur))] ++ evs ∧
      evs = planned_trace concept (dist_diff T cur) ∧
      request_sizes evs = planned_batches (dist_diff T cur) 2 ∧
      progress_updates evs = request_sizes evs ∧
      (0 < 2 → sum_list_Z (progress_updates evs) = sum_values (dist_diff T cur)) ∧
      (2 <= 0 → request_sizes evs = [] ∧ progress_updates evs = []).
Proof.
eexists. split; [by vm_compute|].
refine (proj2 (returns_none_reports_progress (Demo.collaborators Demo.fresh_images)
  (Demo.concept 5 2) [((512, 512), PyFloat.one)] Demo.empty_world PyNone _ _)).
by vm_compute.
Defined.

(** C3, as the specification has it, fails: five images are requested in
    three batches, and the call returns [None], neither 5 nor 3. *)
Lemma returns_total_count_fails :
  let run := generate_class_images (Demo.collaborators Demo.fresh_images)
               (Demo.concept 5 2) [((512, 512), PyFloat.one)] Demo.empty_world in
  request_sizes (events run.2) = [2; 2; 1] ∧
  run.1 = Ok PyNone ∧
  run.1 ≠ Ok (PyInt (sum_list_Z (request_sizes (events run.2)))) ∧
  run.1 ≠ Ok (PyInt (Z.of_nat (length (request_sizes (events run.2))))).
Proof. vm_compute. by split_and!. Qed.

(** ** Whole runs: what is requested, and for whom *)

Lemma requests_app evs1 evs2 : requests (evs1 ++ evs2) = requests evs1 ++ requests evs2.
Proof. apply omap_app. Qed.

Lemma request_sizes_requests evs :
  request_sizes evs = num_images_per_prompt <$> requests evs.
Proof.
induction evs as [|[] evs IH]; simpl; try done.
unfold request_sizes, requests in *. simpl. by rewrite IH.
Qed.

Lemma planned_requests_cons concept w h target D :
  planned_requests concept (((w, h), target) :: D) =
  (batch_request concept w h <$> batches target (batch_size (auto_generate concept)))
  ++ planned_requests concept D.
Proof. done. Qed.

Lemma planned_requests_sizes concept D :
  num_images_per_prompt <$> planned_requests concept D
  = planned_batches D (batch_size (auto_generate concept)).
Proof.
induction D as [|[[w h] target] D IH]; [done|].
rewrite planned_requests_cons, planned_batches_cons, fmap_app, IH. f_equal.
rewrite <- list_fmap_compose. by rewrite list_fmap_id.
Qed.

Section Requests.
Context (X : Collaborators).

(** The calls of the loop of one bucket, with all their arguments: the
    expected batches for this bucket, up to the exception if there is one. *)
Lemma while_true_requests concept w h target st :
  ∃ evs, events (while_true X concept w h target st).2 = events st ++ evs ∧
    requests evs `prefix_of`
      (batch_request concept w h <$> batches target (batch_size (auto_generate concept))) ∧
    ((while_true X concept w h target st).1 = Ok () →
       requests evs =
       batch_request concept w h <$> batches target (batch_size (auto_generate concept))).
Proof.
remember (Z.to_nat target) as n eqn:Hn. revert target st Hn.
induction n as [n IH] using lt_wf_ind. intros target st ->.
rewrite while_true_step.
pose proof (loop_body_turn X concept w h target st) as Hturn.
destruct (loop_body X concept w h target st) as [[[]|e] st'|target' st'] eqn:Hbody.
- destruct Hturn as [Hbs ->]. exists []. rewrite app_nil_r.
  rewrite batches_stop by done. by split_and!.
- destruct Hturn as [Hbs Hev]. eexists. split; [exact Hev|].
  rewrite batches_step by done. simpl. split; [|done].
  apply prefix_cons, prefix_nil.
- destruct Hturn as (Hbs & -> & Hev).
  pose proof (loop_body_decreases X _ _ _ _ _ _ _ Hbody) as Hdec.
  destruct (IH (Z.to_nat (target - actual_bs target (batch_size (auto_generate concept))))
    ltac:(lia) _ st' eq_refl) as (evs & Hevs & Hpre & Hok).
  eexists. split; [rewrite Hevs, Hev, <- app_assoc; done|].
  rewrite (batches_step target) by done. simpl. split.
  + by apply prefix_cons.
  + intros Hr. f_equal. by apply Hok.
Qed.

(** The calls of the fulfillment of a deficit map. *)
Lemma fulfil_requests concept D st :
  ∃ evs, events (fulfil X concept D st).2 = events st ++ evs ∧
    requests evs `prefix_of` planned_requests concept D ∧
    ((fulfil X concept D st).1 = Ok () → requests evs = planned_requests concept D).
Proof.
revert st. induction D as [|[[w h] target] D IH]; intros st.
- exists []. rewrite app_nil_r. by split_and!.
- rewrite fulfil_cons.
  destruct (while_true_requests concept w h target
    {| fs := fs st; events := events st ++ [EvPostfix (w, h)] |})
    as (evs1 & Hev1 & Hpre1 & Hok1).
  destruct (while_true X concept w h target _) as [[[]|e] st1]; simpl in *.
  + destruct (IH st1) as (evs2 & Hev2 & Hpre2 & Hok2).
    exists ([EvPostfix (w, h)] ++ evs1 ++ evs2).
    rewrite planned_requests_cons, !requests_app.
    change (requests [EvPostfix (w, h)]) with (@nil request).
    rewrite app_nil_l, (Hok1 eq_refl). split_and!.
    * rewrite Hev2, Hev1, <- !app_assoc. done.
    * by apply prefix_app.
    * intros Hr. by rewrite (Hok2 Hr).
  + exists ([EvPostfix (w, h)] ++ evs1).
    rewrite planned_requests_cons, !requests_app.
    change (requests [EvPostfix (w, h)]) with (@nil request).
    rewrite app_nil_l. split_and!.
    * rewrite Hev1, <- app_assoc. done.
    * by apply prefix_app_r.
    * done.
Qed.

End Requests.
Section Stages.
Context (X : Collaborators).

(** [generate_class_images] stage by stage: the inventory, the targets, the
    logs, and the fulfillment of the deficit map. *)
Lemma generate_class_images_stages concept size_dist st :
  generate_class_images X concept size_dist st =
  match inventory X concept st with
  | (Raise e, st0) => (Raise e, st0)
  | (Ok cur, st0) =>
      match target_dist (num_target (auto_generate concept)) size_dist with
      | Raise e =>
          (Raise e,
           {| fs := fs st0;
              events := events st0 ++ [EvInfoDist "Current distribution" cur] |})
      | Ok T =>
          match fulfil X concept (dist_diff T cur)
                  {| fs := fs st0;
                     events := events st0 ++
                       [EvInfoDist "Current distribution" cur;
                        EvInfoDist "Target distribution" T;
                        EvInfoDist "Distribution diff" (dist_diff T cur);
                        EvInfoTotal (sum_values (dist_diff T cur));
                        EvProgressOpen (sum_values (dist_diff T cur))] |} with
          | (Ok _, st1) => (Ok PyNone, st1)
          | (Raise e, st1) => (Raise e, st1)
          end
      end
  end.
Proof.
unfold generate_class_images. unfold bind at 1.
destruct (inventory X concept st) as [[cur|e] st0]; [|done].
unfold bind at 1, emit at 1. unfold bind at 1, lift at 1.
destruct (target_dist _ size_dist) as [T|e]; [|done].
unfold bind at 1, emit at 1. unfold bind at 1, emit at 1.
unfold bind at 1, emit at 1. unfold bind at 1, emit at 1. simpl.
rewrite <- !app_assoc. simpl. unfold bind, ret.
by destruct (fulfil X concept _ _) as [[[]|e] st1].
Qed.

End Stages.
(** ** What the requests of a run look like *)

Lemma comp_result_Ok_inv {K V A} `{EqDecision K} (key : A → K) (val : A → result V)
    xs (d : list (K * V)) :
  Dict.comp_result key val xs = Ok d → ∃ vs, Forall2 (λ x v, val x = Ok v) xs vs.
Proof.
unfold Dict.comp_result. generalize (@nil (K * V)). revert d.
induction xs as [|x xs IH]; intros d acc; simpl; [by exists []|].
destruct (val x) as [v|e] eqn:Hv; simpl.
- intros Hfold. destruct (IH _ _ Hfold) as [vs Hvs]. exists (v :: vs). by constructor.
- by rewrite comp_result_raise.
Qed.

(** The targets have the keys of the proportions. *)
Lemma target_dist_keys N (P : list (size * spec_float)) T :
  Dict.wf P → target_dist N P = Ok T → Dict.keys T = Dict.keys P.
Proof.
intros HP HT. destruct (target_dist_Ok P N HP) as (T' & HT' & Hkeys & _).
- unfold target_dist in HT. apply comp_result_Ok_inv in HT as [vs Hvs].
  unfold Dict.values. clear HP.
  induction Hvs as [|[sz p] v P' vs Hv Hvs IH]; simpl; constructor; [|done].
  by rewrite Hv.
- congruence.
Qed.
Lemma batches_elem target m bs : bs ∈ batches target m → 0 < bs <= m.
Proof.
intros Hin. destruct (decide (0 < target ∧ 0 < m)) as [[Ht Hm]|Hno].
- pose proof (batches_bounded target m Ht Hm) as Hall.
  rewrite Forall_forall in Hall. by apply Hall.
- unfold batches in Hin. rewrite decide_False in Hin by done.
  by apply elem_of_nil in Hin.
Qed.

Lemma planned_requests_elem concept D r :
  r ∈ planned_requests concept D →
  ∃ w h target bs, ((w, h), target) ∈ D ∧
    bs ∈ batches target (batch_size (auto_generate concept)) ∧
    r = batch_request concept w h bs.
Proof.
induction D as [|[[w h] target] D IH]; [by intros ?%elem_of_nil|].
rewrite planned_requests_cons, elem_of_app. intros [Hin|Hin].
- apply list_elem_of_fmap in Hin as (bs & -> & Hbs).
  exists w, h, target, bs. split_and!; [left | done | done].
- destruct (IH Hin) as (w' & h' & t' & bs & HD & Hbs & ->).
  exists w', h', t', bs. split_and!; [by right | done | done].
Qed.

Lemma Forall_prefix {A} (P : A → Prop) (l1 l2 : list A) :
  l1 `prefix_of` l2 → Forall P l2 → Forall P l1.
Proof. intros [k ->] Hall. by apply Forall_app in Hall as [? _]. Qed.

Lemma sum_list_Z_nonneg xs : Forall (λ x, 0 <= x) xs → 0 <= sum_list_Z xs.
Proof. unfold sum_list_Z. induction 1; simpl; lia. Qed.

Lemma sum_list_Z_prefix xs ys :
  xs `prefix_of` ys → Forall (λ x, 0 <= x) ys → sum_list_Z xs <= sum_list_Z ys.
Proof.
intros [k ->] Hall. rewrite sum_list_Z_app. apply Forall_app in Hall as [_ Hk].
pose proof (sum_list_Z_nonneg k Hk). lia.
Qed.

Lemma planned_batches_nonneg D m : Forall (λ x, 0 <= x) (planned_batches D m).
Proof.
induction D as [|[sz target] D IH]; [constructor|].
rewrite planned_batches_cons. apply Forall_app. split; [|done].
apply Forall_forall. intros bs Hbs%batches_elem. lia.
Qed.

(** Whatever the cap, the planned batches never add up to more than the
    deficits. *)
Lemma planned_batches_sum_le D m :
  Forall (λ v, 0 < v) (Dict.values D) →
  sum_list_Z (planned_batches D m) <= sum_list_Z (Dict.values D).
Proof.
intros HD. destruct (decide (0 < m)) as [Hm|Hm].
- by rewrite planned_batches_sum.
- assert (planned_batches D m = []) as ->.
  { clear HD. induction D as [|[sz target] D IH]; [done|].
    rewrite planned_batches_cons, IH, app_nil_r. unfold batches.
    by rewrite decide_False by lia. }
  apply sum_list_Z_nonneg. eapply Forall_impl; [exact HD|]. simpl. lia.
Qed.

(** X1. Every call of the pipeline that [generate_class_images] makes, in a
    run that returns as in one that an exception ends, carries the
    concept's prompt, negative prompt, guidance scale and step count, asks
    for at least one image and at most [batch_size], and is for a bucket of
    the proportions it was given. *)
Theorem requests_within_cap (X : Collaborators) (concept : concept_config)
    (size_dist : list (size * spec_float)) (st : World) :
  Dict.wf size_dist →
  ∃ evs,
    events (generate_class_images X concept size_dist st).2 = events st ++ evs ∧
    Forall (λ r,
      prompt r = class_set_prompt concept ∧
      negative_prompt r = ag_negative_prompt (auto_generate concept) ∧
      guidance_scale r = cfg_scale (auto_generate concept) ∧
      num_inference_steps r = steps (auto_generate concept) ∧
      0 < num_images_per_prompt r <= batch_size (auto_generate concept) ∧
      (width r, height r) ∈ Dict.keys size_dist) (requests evs).
Proof.
intros Hwf. rewrite generate_class_images_stages.
pose proof (inventory_events X concept st) as Hinv.
destruct (inventory X concept st) as [[cur|e] st0]; simpl in Hinv.
2:{ exists []. rewrite app_nil_r. split; [done | constructor]. }
destruct (target_dist _ size_dist) as [T|e] eqn:HT.
2:{ eexists. simpl. rewrite Hinv. split; [done | constructor]. }
match goal with |- context [fulfil X concept ?D ?s] =>
  destruct (fulfil_requests X concept D s) as (evs & Hev & Hpre & _);
  destruct (fulfil X concept D s) as [[[]|e] st1]
end; simpl in *.
all: eexists; split; [rewrite Hev, Hinv, <- app_assoc; done|].
all: rewrite requests_app; simpl; eapply Forall_prefix; [exact Hpre|].
all: apply Forall_forall; intros r (w & h & t & bs & HD & Hbs & ->)%planned_requests_elem.
all: apply batches_elem in Hbs.
all: assert (Hkey : (w, h) ∈ Dict.keys size_dist);
  [|simpl; split_and!; first [done | lia]].
all: rewrite <- (target_dist_keys _ _ _ Hwf HT).
all: eapply sublist_subseteq;
  [apply keys_dist_diff_sublist; unfold Dict.wf;
   by rewrite (target_dist_keys _ _ _ Hwf HT)|].
all: unfold Dict.keys; apply list_elem_of_fmap; by exists ((w, h), t).
Qed.
(** X2. The progress bar never runs past its total.  In any run of
    [generate_class_images], ended by an exception or not, either nothing
    was requested, or the bar was opened on a total and, from there on, the
    advances of the bar add up to no more than the images requested, which
    add up to no more than the total. *)
Theorem progress_within_total (X : Collaborators) (concept : concept_config)
    (size_dist : list (size * spec_float)) (st : World) :
  ∃ evs,
    events (generate_class_images X concept size_dist st).2 = events st ++ evs ∧
    ((requests evs = [] ∧ progress_updates evs = []) ∨
     ∃ pre total evs',
       evs = pre ++ EvProgressOpen total :: evs' ∧
       requests pre = [] ∧ progress_updates pre = [] ∧
       0 <= sum_list_Z (progress_updates evs')
         <= sum_list_Z (request_sizes evs') ∧
       sum_list_Z (request_sizes evs') <= total).
Proof.
rewrite generate_class_images_stages.
pose proof (inventory_events X concept st) as Hinv.
destruct (inventory X concept st) as [[cur|e] st0]; simpl in Hinv.
2:{ exists []. rewrite app_nil_r. split; [done | by left]. }
destruct (target_dist _ size_dist) as [T|e] eqn:HT.
2:{ eexists. simpl. rewrite Hinv. split; [done | by left]. }
assert (Hshape : ∀ r st1,
  fulfil X concept (dist_diff T cur)
    {| fs := fs st0;
       events := events st0 ++
         [EvInfoDist "Current distribution" cur;
          EvInfoDist "Target distribution" T;
          EvInfoDist "Distribution diff" (dist_diff T cur);
          EvInfoTotal (sum_values (dist_diff T cur));
          EvProgressOpen (sum_values (dist_diff T cur))] |} = (r, st1) →
  ∃ evs, events st1 = events st ++ evs ∧
    ∃ pre total evs',
      evs = pre ++ EvProgressOpen total :: evs' ∧
      requests pre = [] ∧ progress_updates pre = [] ∧
      0 <= sum_list_Z (progress_updates evs') <= sum_list_Z (request_sizes evs') ∧
      sum_list_Z (request_sizes evs') <= total).
{ intros r st1 Hrun.
  match type of Hrun with fulfil X concept ?D ?s = _ =>
    destruct (fulfil_trace X concept D s) as (evs & Hev & Hpre & Hprog & _)
  end.
  rewrite Hrun in Hev. simpl in Hev. rewrite Hinv in Hev.
  exists ([EvInfoDist "Current distribution" cur;
           EvInfoDist "Target distribution" T;
           EvInfoDist "Distribution diff" (dist_diff T cur);
           EvInfoTotal (sum_values (dist_diff T cur))]
          ++ EvProgressOpen (sum_values (dist_diff T cur)) :: evs).
  split; [by rewrite Hev, <- !app_assoc|].
  eexists _, _, evs. split; [done|]. split; [done|]. split; [done|].
  pose proof (planned_batches_nonneg (dist_diff T cur)
    (batch_size (auto_generate concept))) as Hplanned.
  pose proof (Forall_prefix _ _ _ Hpre Hplanned) as Hsizes.
  pose proof (Forall_prefix _ _ _ Hprog Hsizes) as Hupd.
  split_and!.
  - by apply sum_list_Z_nonneg.
  - by apply sum_list_Z_prefix.
  - etrans; [by apply sum_list_Z_prefix|].
    rewrite sum_values_foldr. apply planned_batches_sum_le, dist_diff_positive. }
destruct (fulfil X concept _ _) as [[[]|e] st1] eqn:Hrun;
  destruct (Hshape _ _ eq_refl) as (evs & Hev & Hrest);
  exists evs; (split; [done | by right]).
Qed.

(** X3. When the inventory already holds every target, the run requests
    nothing: it logs the three distributions with an empty deficit map and
    a total of 0, opens the progress bar on 0 and returns, and the files
    are what the inventory left. *)
Theorem met_targets_request_nothing (X : Collaborators) (concept : concept_config)
    (size_dist : list (size * spec_float)) (st st0 : World)
    (cur T : list (size * Z)) :
  Dict.wf size_dist →
  inventory X concept st = (Ok cur, st0) →
  target_dist (num_target (auto_generate concept)) size_dist = Ok T →
  (∀ b t, Dict.get T b = Some t → t <= Dict.get_default cur b 0) →
  generate_class_images X concept size_dist st =
    (Ok PyNone,
     {| fs := fs st0;
        events := events st ++
          [EvInfoDist "Current distribution" cur;
           EvInfoDist "Target distribution" T;
           EvInfoDist "Distribution diff" [];
           EvInfoTotal 0;
           EvProgressOpen 0] |}).
Proof.
intros Hwf Hinv HT Hmet.
assert (Hempty : dist_diff T cur = []).
{ apply get_nil_eq. intros b.
  destruct (Dict.get (dist_diff T cur) b) as [v|] eqn:Hv; [|done].
  apply get_dist_diff in Hv as (t & Ht & Hgt & _).
  - specialize (Hmet b t Ht). lia.
  - unfold Dict.wf. by rewrite (target_dist_keys _ _ _ Hwf HT). }
rewrite generate_class_images_stages, Hinv, HT, Hempty.
pose proof (inventory_events X concept st) as Hev. rewrite Hinv in Hev.
simpl in *. by rewrite Hev.
Qed.

Lemma batches_nonpos target m : target <= 0 → batches target m = [].
Proof. intros Ht. unfold batches. by rewrite decide_False by lia. Qed.

Lemma filter_bucket_block concept w h target (b : size) :
  filter (λ r, (width r, height r) = b)
    (batch_request concept w h <$> batches target (batch_size (auto_generate concept)))
  = if decide ((w, h) = b)
    then batch_request concept w h <$> batches target (batch_size (auto_generate concept))
    else [].
Proof.
induction (batches target (batch_size (auto_generate concept))) as [|bs l IH].
- by case_decide.
- rewrite fmap_cons, filter_cons, IH. simpl. by repeat case_decide.
Qed.

(** Under a dictionary, the planned calls for one bucket are the expected
    batches of its deficit. *)
Lemma planned_requests_bucket concept D (b : size) :
  Dict.wf D →
  num_images_per_prompt <$>
    filter (λ r, (width r, height r) = b) (planned_requests concept D)
  = batches (Dict.get_default D b 0) (batch_size (auto_generate concept)).
Proof.
unfold Dict.wf, Dict.keys, Dict.get_default.
induction D as [|[[w h] target] D IH]; intros HD.
- simpl. by rewrite batches_nonpos.
- apply NoDup_cons in HD as [Hfresh HD].
  rewrite planned_requests_cons, filter_app, fmap_app, filter_bucket_block, IH by done.
  simpl. destruct (decide (b = (w, h))) as [->|Hne].
  + rewrite decide_True by done. simpl.
    assert (Dict.get D (w, h) = None) as -> by (by apply get_None_keys).
    simpl. rewrite <- list_fmap_compose, list_fmap_id.
    by rewrite (batches_nonpos 0), app_nil_r.
  + by rewrite decide_False by done.
Qed.

(** X4. In a run of [generate_class_images] that returns, under a positive
    cap, every bucket is asked for exactly its deficit: the calls are the
    planned ones, bucket after bucket in the order of the deficit map, and
    the images requested for a bucket add up to its deficit, 0 for a bucket
    that has none. *)
Theorem each_bucket_gets_its_deficit (X : Collaborators) (concept : concept_config)
    (size_dist : list (size * spec_float)) (st : World) (v : pyval) (st' : World) :
  Dict.wf size_dist →
  0 < batch_size (auto_generate concept) →
  generate_class_images X concept size_dist st = (Ok v, st') →
  ∃ cur D evs,
    (inventory X concept st).1 = Ok cur ∧
    plan size_dist (num_target (auto_generate concept)) cur = Ok D ∧
    events st' = events st ++ evs ∧
    requests evs = planned_requests concept D ∧
    ∀ b, sum_list_Z (num_images_per_prompt <$>
           filter (λ r, (width r, height r) = b) (requests evs))
         = Dict.get_default D b 0.
Proof.
intros Hwf Hm Hrun. rewrite generate_class_images_stages in Hrun.
pose proof (inventory_events X concept st) as Hinv.
destruct (inventory X concept st) as [[cur|e] st0]; [|done]. simpl in Hinv.
destruct (target_dist _ size_dist) as [T|e] eqn:HT; [|done].
match type of Hrun with context [fulfil X concept ?D ?s] =>
  destruct (fulfil_requests X concept D s) as (evs & Hev & _ & Hok);
  destruct (fulfil X concept D s) as [[[]|e] st1]; [|done]
end.
injection Hrun as <- <-. simpl in *. specialize (Hok eq_refl).
assert (HwfD : Dict.wf (dist_diff T cur)).
{ apply wf_dist_diff. unfold Dict.wf. by rewrite (target_dist_keys _ _ _ Hwf HT). }
eexists cur, (dist_diff T cur), _. split_and!.
- done.
- unfold plan. by rewrite HT.
- rewrite Hev, Hinv, <- app_assoc. done.
- rewrite requests_app. exact Hok.
- intros b. rewrite requests_app. simpl. rewrite Hok, planned_requests_bucket by done.
  unfold Dict.get_default.
  destruct (Dict.get (dist_diff T cur) b) as [t|] eqn:Hget; simpl.
  + apply batches_sum; [|done].
    apply get_Some_elem_of in Hget.
    pose proof (dist_diff_positive T cur) as Hpos. rewrite Forall_forall in Hpos.
    apply Hpos. unfold Dict.values. apply list_elem_of_fmap. by exists (b, t).
  + done.
Qed.

(** ** What a run does to the files *)

Lemma files_kept_refl dir n : files_kept dir n n.
Proof. intros q data Hq. by exists data. Qed.

Lemma files_kept_trans dir n1 n2 n3 :
  files_kept dir n1 n2 → files_kept dir n2 n3 → files_kept dir n1 n3.
Proof.
intros H12 H23 q data Hq.
destruct (H12 q data Hq) as (data2 & Hq2 & Hsame2).
destruct (H23 q data2 Hq2) as (data3 & Hq3 & Hsame3).
exists data3. split; [done|]. intros Hout. rewrite Hsame3, Hsame2; done.
Qed.

(** [mkdir] leaves every regular file as it is. *)
Lemma mkdir_keeps_files p n n' q data :
  FS.mkdir p n = Ok n' →
  FS.lookup n q = Some (File data) → FS.lookup n' q = Some (File data).
Proof.
revert n n' q. induction p as [|c p IH]; intros [d0|es] n' q; simpl; try done.
- by intros [= <-].
- destruct (FS.mkdir p _) as [child'|] eqn:Hchild; [|done].
  intros [= <-]. destruct q as [|c' q]; simpl; [done|].
  destruct (decide (c' = c)) as [->|Hne].
  + rewrite lookup_insert_eq.
    destruct (es !! c) as [child|] eqn:Hc; [|done]. simpl in Hchild.
    by apply (IH child).
  + by rewrite lookup_insert_ne.
Qed.

(** A write replaces one file and leaves every other regular file as it
    is. *)
Lemma write_keeps_files p data n n' q d :
  FS.write p data n = Ok n' →
  FS.lookup n q = Some (File d) →
  ∃ d', FS.lookup n' q = Some (File d') ∧ (q ≠ p → d' = d).
Proof.
revert n n' q. induction p as [|c p IH]; intros [d0|es] n' q; simpl; try done.
- intros [= <-]. destruct q as [|c' q]; simpl; [|done].
  intros _. by exists data.
- destruct q as [|c' q]; [done|]. simpl.
  destruct (decide (c' = c)) as [->|Hne].
  + destruct (es !! c) as [child|] eqn:Hc; [|done].
    destruct (FS.write p data child) as [child'|] eqn:Hchild; [|done].
    intros [= <-] Hq. simpl. rewrite lookup_insert_eq.
    destruct (IH _ _ _ Hchild Hq) as (d' & Hq' & Hsame).
    exists d'. split; [done|]. intros Hne. apply Hsame. congruence.
  + intros Hwrite Hq. exists d. split; [|done].
    destruct (es !! c) as [child|] eqn:Hc.
    * destruct (FS.write p data child) as [child'|]; [|done].
      injection Hwrite as <-. simpl. by rewrite lookup_insert_ne.
    * destruct p; [|done]. injection Hwrite as <-. simpl.
      by rewrite lookup_insert_ne.
Qed.

Section Files.
Context (X : Collaborators).

Lemma save_images_keeps_files dir images st :
  files_kept dir (fs st) (fs (save_images X dir images st).2).
Proof.
revert st. induction images as [|image images IH]; intros st.
- apply files_kept_refl.
- unfold save_images in *. simpl. unfold bind at 1, save at 1.
  destruct (FS.write _ _ (fs st)) as [n1|e] eqn:Hwrite; [|apply files_kept_refl].
  eapply files_kept_trans; [|apply IH]. simpl.
  intros q d Hq. destruct (write_keeps_files _ _ _ _ _ _ Hwrite Hq) as (d' & Hq' & Hsame).
  exists d'. split; [done|]. intros Hout. apply Hsame, Hout.
Qed.

Lemma generate_batch_keeps_files concept w h bs st :
  files_kept (class_set_path concept) (fs st)
    (fs (generate_batch X concept w h bs st).2).
Proof.
unfold generate_batch, bind, call_pipeline, emit.
destruct (pipeline X (events st) _) as [images|e]; simpl; [|apply files_kept_refl].
pose proof (save_images_keeps_files (class_set_path concept) images
  {| fs := fs st; events := events st ++ [EvPipelineCall (batch_request concept w h bs)] |})
  as Hkept.
by destruct (save_images X _ images _) as [[[]|e] st1].
Qed.

Lemma while_true_keeps_files concept w h target st :
  files_kept (class_set_path concept) (fs st)
    (fs (while_true X concept w h target st).2).
Proof.
remember (Z.to_nat target) as n eqn:Hn. revert target st Hn.
induction n as [n IH] using lt_wf_ind. intros target st ->.
rewrite while_true_step.
destruct (loop_body X concept w h target st) as [r st'|target' st'] eqn:Hbody.
- unfold loop_body in Hbody. case_decide; [injection Hbody as <- <-; apply files_kept_refl|].
  pose proof (generate_batch_keeps_files concept w h
    (actual_bs target (batch_size (auto_generate concept))) st) as Hkept.
  destruct (generate_batch X _ _ _ _ _) as [[[]|e] st1]; [done|].
  by injection Hbody as <- <-.
- pose proof (loop_body_decreases X _ _ _ _ _ _ _ Hbody) as Hdec.
  eapply files_kept_trans; [|apply (IH (Z.to_nat target')); [lia | done]].
  unfold loop_body in Hbody. case_decide; [done|].
  pose proof (generate_batch_keeps_files concept w h
    (actual_bs target (batch_size (auto_generate concept))) st) as Hkept.
  destruct (generate_batch X _ _ _ _ _) as [[[]|e] st1]; [|done].
  by injection Hbody as _ <-.
Qed.

Lemma fulfil_keeps_files concept D st :
  files_kept (class_set_path concept) (fs st) (fs (fulfil X concept D st).2).
Proof.
revert st. induction D as [|[[w h] target] D IH]; intros st.
- apply files_kept_refl.
- rewrite fulfil_cons.
  pose proof (while_true_keeps_files concept w h target
    {| fs := fs st; events := events st ++ [EvPostfix (w, h)] |}) as Hkept.
  destruct (while_true X concept w h target _) as [[[]|e] st1]; [|done].
  eapply files_kept_trans; [exact Hkept | apply IH].
Qed.

Lemma inventory_keeps_files concept st q data :
  FS.lookup (fs st) q = Some (File data) →
  FS.lookup (fs (inventory X concept st).2) q = Some (File data).
Proof.
intros Hq. unfold inventory, bind, mkdir, ret.
destruct (FS.mkdir _ (fs st)) as [n|e] eqn:Hmk; simpl; [|done].
pose proof (mkdir_keeps_files _ _ _ _ _ Hmk Hq) as Hq'.
destruct (get_images X _ _) as [imgs|e]; simpl; [|done].
by destruct (get_id_size_map X _ _) as [m|e].
Qed.

End Files.

(** X5. [generate_class_images] removes no file and writes only into the
    concept's class-image directory: in any run, ended by an exception or
    not, every regular file there was is still a regular file, and it has
    the content it had unless it is an entry of that directory. *)
Theorem only_class_dir_written (X : Collaborators) (concept : concept_config)
    (size_dist : list (size * spec_float)) (st : World) :
  files_kept (class_set_path concept) (fs st)
    (fs (generate_class_images X concept size_dist st).2).
Proof.
rewrite generate_class_images_stages.
assert (Hinv : files_kept (class_set_path concept) (fs st)
  (fs (inventory X concept st).2)).
{ intros q data Hq. exists data. split; [|done]. by apply inventory_keeps_files. }
destruct (inventory X concept st) as [[cur|e] st0]; [|done]. simpl in Hinv.
destruct (target_dist _ size_dist) as [T|e]; [|done].
match goal with |- context [fulfil X concept ?D ?s] =>
  pose proof (fulfil_keeps_files X concept D s) as Hkept;
  destruct (fulfil X concept D s) as [[[]|e] st1]
end; simpl in *; by eapply files_kept_trans.
Qed.

(** ** Persisting twice *)

Lemma put_lookup p x n y : FS.lookup n p = Some y → FS.lookup (put p x n) p = Some x.
Proof.
revert n. induction p as [|c p IH]; intros n; simpl; [done|].
destruct n as [|es]; [done|]. destruct (es !! c) as [child|] eqn:Hc; [|done].
intros Hy. simpl. rewrite lookup_insert_eq. by apply IH.
Qed.

Lemma put_put p x1 x2 n : put p x2 (put p x1 n) = put p x2 n.
Proof.
revert n. induction p as [|c p IH]; intros n; simpl; [done|].
destruct n as [|es]; [done|]. destruct (es !! c) as [child|] eqn:Hc; simpl.
- by rewrite lookup_insert_eq, IH, insert_insert_eq.
- by rewrite Hc.
Qed.

Lemma write_put dir name data n es :
  FS.lookup n dir = Some (Dir es) →
  (∀ es0, es !! name ≠ Some (Dir es0)) →
  FS.write (dir ++ [name]) data n = Ok (put dir (Dir (<[name := File data]> es)) n).
Proof.
revert n. induction dir as [|c dir IH]; intros n; simpl.
- intros [= ->] Hname. destruct (es !! name) as [[old|es0]|] eqn:Hold; simpl.
  + done.
  + by destruct (Hname es0).
  + done.
- destruct n as [|es1]; [done|]. destruct (es1 !! c) as [child|] eqn:Hc; [|done].
  intros Hlook Hname. by rewrite (IH child Hlook Hname).
Qed.

Section PersistTwice.
Context (X : Collaborators).

(** Where a name of the batch ends up does not depend on what the
    directory held. *)
Lemma foldl_insert_overrides (images : list (Image X)) (es1 es2 : gmap string node) image :
  image ∈ images →
  foldl (λ es image, <[md5_hexdigest X (tobytes X image) +:+ ".jpg" :=
                       File (jpeg_encode X image 93)]> es) es1 images
    !! (md5_hexdigest X (tobytes X image) +:+ ".jpg")
  = foldl (λ es image, <[md5_hexdigest X (tobytes X image) +:+ ".jpg" :=
                         File (jpeg_encode X image 93)]> es) es2 images
    !! (md5_hexdigest X (tobytes X image) +:+ ".jpg").
Proof.
revert es1 es2 image. induction images as [|image0 images IH]; intros es1 es2 image Hin; simpl.
- by apply elem_of_nil in Hin.
- destruct (decide (Exists (λ image1, md5_hexdigest X (tobytes X image1)
    = md5_hexdigest X (tobytes X image)) images)) as [Hlater|Hnone].
  + apply Exists_exists in Hlater as (image1 & Hin1 & Heq1).
    rewrite <- Heq1. by apply IH.
  + assert (Hhead : md5_hexdigest X (tobytes X image0)
      = md5_hexdigest X (tobytes X image)).
    { apply elem_of_cons in Hin as [->|Hin]; [done|]. destruct Hnone.
      apply Exists_exists. by exists image. }
    rewrite !foldl_insert_other.
    * by rewrite Hhead, !lookup_insert_eq.
    * intros image1 Hin1 Heq. apply Hnone, Exists_exists. exists image1.
      split; [done|]. by apply string_app_inj_r in Heq.
    * intros image1 Hin1 Heq. apply Hnone, Exists_exists. exists image1.
      split; [done|]. by apply string_app_inj_r in Heq.
Qed.

Lemma foldl_insert_idem (images : list (Image X)) (es : gmap string node) :
  foldl (λ es image, <[md5_hexdigest X (tobytes X image) +:+ ".jpg" :=
                       File (jpeg_encode X image 93)]> es)
    (foldl (λ es image, <[md5_hexdigest X (tobytes X image) +:+ ".jpg" :=
                          File (jpeg_encode X image 93)]> es) es images) images
  = foldl (λ es image, <[md5_hexdigest X (tobytes X image) +:+ ".jpg" :=
                         File (jpeg_encode X image 93)]> es) es images.
Proof.
apply map_eq. intros name.
destruct (decide (Exists (λ image, md5_hexdigest X (tobytes X image) +:+ ".jpg" = name)
  images)) as [Hin|Hout].
- apply Exists_exists in Hin as (image & Hin & <-). by apply foldl_insert_overrides.
- rewrite !foldl_insert_other; [done|..];
    intros image Hin Heq; apply Hout, Exists_exists; by exists image.
Qed.

Lemma save_images_put dir (images : list (Image X)) st es :
  FS.lookup (fs st) dir = Some (Dir es) →
  (∀ image es0, image ∈ images →
     es !! (md5_hexdigest X (tobytes X image) +:+ ".jpg") ≠ Some (Dir es0)) →
  save_images X dir images st =
    (Ok (),
     {| fs := put dir (Dir (foldl (λ es image,
          <[md5_hexdigest X (tobytes X image) +:+ ".jpg" :=
            File (jpeg_encode X image 93)]> es) es images)) (fs st);
        events := events st |}).
Proof.
revert st es. induction images as [|image images IH]; intros st es Hdir Hfree.
- simpl. unfold ret. f_equal. destruct st as [n evs]. simpl in *. f_equal.
  symmetry. clear Hfree. revert n Hdir. induction dir as [|c dir IHd]; intros n; simpl.
  + by intros [= ->].
  + destruct n as [|es1]; [done|]. destruct (es1 !! c) as [child|] eqn:Hc; [|done].
    intros Hlook. by rewrite (IHd child Hlook), insert_id.
- unfold save_images in *. simpl. unfold bind at 1, save at 1.
  rewrite (write_put dir _ _ (fs st) es Hdir) by (intros es0; apply Hfree; left).
  rewrite (IH _ (<[md5_hexdigest X (tobytes X image) +:+ ".jpg" :=
    File (jpeg_encode X image 93)]> es)); simpl.
  + by rewrite put_put.
  + by eapply put_lookup.
  + intros image1 es0 Hin1. rewrite lookup_insert.
    case_decide; [done|]. apply Hfree. by right.
Qed.

End PersistTwice.

(** X6. Persisting is idempotent.  A batch saved into a directory that has
    no subdirectory in the way is saved without an exception, and saving
    the same images once more leaves every file as the first pass left
    it, also when two images of the batch share a hash. *)
Theorem persisting_twice_changes_nothing (X : Collaborators) (dir : path)
    (images : list (Image X)) (st : World) (es : gmap string node) :
  FS.lookup (fs st) dir = Some (Dir es) →
  (∀ image es0, image ∈ images →
     es !! (md5_hexdigest X (tobytes X image) +:+ ".jpg") ≠ Some (Dir es0)) →
  ∃ st', save_images X dir images st = (Ok (), st') ∧
         save_images X dir images st' = (Ok (), st').
Proof.
intros Hdir Hfree. eexists. split; [by apply save_images_put|].
erewrite save_images_put.
- simpl. by rewrite put_put, foldl_insert_idem.
- simpl. by eapply put_lookup.
- intros image es0 Hin.
  destruct (foldl_insert_last X images es image Hin) as (image' & _ & _ & Hget).
  by rewrite Hget.
Qed.

(** ** [main] over the concepts *)

Lemma for_each_app {A} (body : A → M unit) xs ys st :
  for_each (xs ++ ys) body st =
  match for_each xs body st with
  | (Ok _, st') => for_each ys body st'
  | (Raise e, st') => (Raise e, st')
  end.
Proof.
revert st. induction xs as [|x xs IH]; intros st; simpl; [done|].
unfold bind. destruct (body x st) as [[[]|e] st1]; [apply IH | done].
Qed.

Section Main.
Context (X : Collaborators).

(** Working out the proportions reads and changes nothing. *)
Lemma size_dist_of_world cfg concept st : (size_dist_of X cfg concept st).2 = st.
Proof.
unfold size_dist_of, bucket_shares, bind, lift, ret.
destruct (negb _); [done|]. simpl.
destruct (get_images X _ _) as [paths|e]; simpl; [|done].
destruct (get_id_size_map X _ _) as [m|e]; simpl; [|done].
destruct (Dict.comp_result _ _ _) as [sd|e]; simpl; [|done].
by destruct (PyFloat.eq_one _).
Qed.

(** The calls of [generate_class_images], in any run: planned calls of the
    concept, each for at least one image and at most the cap. *)
Lemma generate_class_images_requests concept size_dist st :
  ∃ evs,
    events (generate_class_images X concept size_dist st).2 = events st ++ evs ∧
    Forall (λ r, ∃ w h bs,
      r = batch_request concept w h bs ∧
      0 < bs <= batch_size (auto_generate concept)) (requests evs).
Proof.
rewrite generate_class_images_stages.
pose proof (inventory_events X concept st) as Hinv.
destruct (inventory X concept st) as [[cur|e] st0]; simpl in Hinv.
2:{ exists []. rewrite app_nil_r. split; [done | constructor]. }
destruct (target_dist _ size_dist) as [T|e] eqn:HT.
2:{ eexists. simpl. rewrite Hinv. split; [done | constructor]. }
match goal with |- context [fulfil X concept ?D ?s] =>
  destruct (fulfil_requests X concept D s) as (evs & Hev & Hpre & _);
  destruct (fulfil X concept D s) as [[[]|e] st1]
end; simpl in *.
all: eexists; split; [rewrite Hev, Hinv, <- app_assoc; done|].
all: rewrite requests_app; simpl; eapply Forall_prefix; [exact Hpre|].
all: apply Forall_forall; intros r (w & h & t & bs & HD & Hbs & ->)%planned_requests_elem.
all: apply batches_elem in Hbs; by exists w, h, bs.
Qed.

(** One turn of the loop over the concepts, in any run: a disabled concept
    costs a warning and nothing else; an enabled one calls the pipeline for
    itself only and keeps the files outside its directory. *)
Lemma process_concept_run cfg i concept st :
  ∃ evs,
    events (process_concept X cfg i concept st).2 = events st ++ evs ∧
    Forall (λ r, ag_enabled (auto_generate concept) = true ∧ ∃ w h bs,
      r = batch_request concept w h bs ∧
      0 < bs <= batch_size (auto_generate concept)) (requests evs) ∧
    files_kept (class_set_path concept) (fs st)
      (fs (process_concept X cfg i concept st).2) ∧
    (ag_enabled (auto_generate concept) = false →
       process_concept X cfg i concept st =
         (Ok (), {| fs := fs st;
                    events := events st ++
                      [EvWarning ("Concept [" +:+ pretty i +:+
                         "] skipped because class auto generate is not enabled.")] |})).
Proof.
destruct (ag_enabled (auto_generate concept)) eqn:Hon.
- assert (Hrun : process_concept X cfg i concept st =
    match size_dist_of X cfg concept st with
    | (Ok sd, st0) =>
        match generate_class_images X concept sd st0 with
        | (Ok _, st1) => (Ok (), st1)
        | (Raise e, st1) => (Raise e, st1)
        end
    | (Raise e, st0) => (Raise e, st0)
    end).
  { unfold process_concept. by rewrite Hon. }
  rewrite Hrun. clear Hrun.
  pose proof (size_dist_of_world cfg concept st) as Hworld.
  destruct (size_dist_of X cfg concept st) as [[sd|e] st0]; simpl in Hworld; subst st0.
  + destruct (generate_class_images_requests concept sd st) as (evs & Hev & Hreq).
    assert (Hkept : files_kept (class_set_path concept) (fs st)
      (fs (generate_class_images X concept sd st).2)).
    { rewrite generate_class_images_stages.
      assert (Hinv : files_kept (class_set_path concept) (fs st)
        (fs (inventory X concept st).2)).
      { intros q data Hq. exists data. split; [|done]. by apply inventory_keeps_files. }
      destruct (inventory X concept st) as [[cur|e] st0]; [|done]. simpl in Hinv.
      destruct (target_dist _ sd) as [T|e]; [|done].
      match goal with |- context [fulfil X concept ?D ?s] =>
        pose proof (fulfil_keeps_files X concept D s) as Hk;
        destruct (fulfil X concept D s) as [[[]|e] st1]
      end; simpl in *; by eapply files_kept_trans. }
    destruct (generate_class_images X concept sd st) as [[v|e] st1]; simpl in *.
    all: exists evs; split; [exact Hev|]; split; [|split; [exact Hkept|done]].
    all: eapply Forall_impl; [exact Hreq|]; by intros r ?.
  + exists []. simpl. rewrite app_nil_r.
    split_and!; [done | constructor | apply files_kept_refl | done].
- unfold process_concept. rewrite Hon. simpl.
  exists [EvWarning ("Concept [" +:+ pretty i +:+
    "] skipped because class auto generate is not enabled.")].
  split_and!; [done | constructor | apply files_kept_refl | done].
Qed.

End Main.

Section Concepts.
Context (X : Collaborators).

(** The loop over the numbered concepts, in any run. *)
Lemma concepts_loop_run cfg (ics : list (nat * concept_config)) st :
  let run := for_each ics (λ '(i, concept), process_concept X cfg i concept) st in
  ∃ evs,
    events run.2 = events st ++ evs ∧
    Forall (λ r, ∃ i concept w h bs,
      (i, concept) ∈ ics ∧ ag_enabled (auto_generate concept) = true ∧
      r = batch_request concept w h bs ∧
      0 < bs <= batch_size (auto_generate concept)) (requests evs) ∧
    ∀ q data, FS.lookup (fs st) q = Some (File data) →
      ∃ data', FS.lookup (fs run.2) q = Some (File data') ∧
        ((∀ i concept name, (i, concept) ∈ ics →
            ag_enabled (auto_generate concept) = true →
            q ≠ class_set_path concept ++ [name]) → data' = data).
Proof.
revert st. induction ics as [|[i concept] ics IH]; intros st; simpl.
- exists []. rewrite app_nil_r. split_and!; [done | constructor |].
  intros q data Hq. by exists data.
- destruct (process_concept_run X cfg i concept st) as (evs1 & Hev1 & Hreq1 & Hkept1 & Hoff1).
  unfold bind.
  destruct (process_concept X cfg i concept st) as [[[]|e] st1] eqn:Hrun; simpl in *.
  + destruct (IH st1) as (evs2 & Hev2 & Hreq2 & Hkept2).
    exists (evs1 ++ evs2). split_and!.
    * by rewrite Hev2, Hev1, <- app_assoc.
    * rewrite requests_app. apply Forall_app. split.
      -- eapply Forall_impl; [exact Hreq1|].
         intros r (Hon & w & h & bs & -> & Hbs).
         exists i, concept, w, h, bs. split_and!; [apply list_elem_of_here | done | done | lia | lia].
      -- eapply Forall_impl; [exact Hreq2|].
         intros r (i' & c' & w & h & bs & Hin & Hon & -> & Hbs).
         exists i', c', w, h, bs. split_and!; [by apply list_elem_of_further | done | done | lia | lia].
    * intros q data Hq.
      destruct (Hkept1 q data Hq) as (d1 & Hq1 & Hd1).
      destruct (Hkept2 q d1 Hq1) as (d2 & Hq2 & Hd2).
      exists d2. split; [done|]. intros Hout.
      rewrite Hd2; [|intros i' c' name Hin Hon'; apply (Hout i' c'); [by apply list_elem_of_further | done]].
      destruct (ag_enabled (auto_generate concept)) eqn:Hon.
      -- apply Hd1. intros name. apply (Hout i concept); [apply list_elem_of_here | done].
      -- specialize (Hoff1 eq_refl). injection Hoff1 as ->. simpl in Hq1.
         rewrite Hq in Hq1. by injection Hq1.
  + exists evs1. split_and!; [done | |].
    * eapply Forall_impl; [exact Hreq1|].
      intros r (Hon & w & h & bs & -> & Hbs).
      exists i, concept, w, h, bs. split_and!; [apply list_elem_of_here | done | done | lia | lia].
    * intros q data Hq.
      destruct (Hkept1 q data Hq) as (d1 & Hq1 & Hd1).
      exists d1. split; [done|]. intros Hout.
      destruct (ag_enabled (auto_generate concept)) eqn:Hon.
      -- apply Hd1. intros name. apply (Hout i concept); [apply list_elem_of_here | done].
      -- by specialize (Hoff1 eq_refl).
Qed.

(** A loop over concepts that are all switched off: a warning each. *)
Lemma concepts_loop_all_disabled cfg (ics : list (nat * concept_config)) st :
  Forall (λ ic, ag_enabled (auto_generate ic.2) = false) ics →
  for_each ics (λ '(i, concept), process_concept X cfg i concept) st =
    (Ok (), {| fs := fs st;
               events := events st ++
                 ((λ ic, EvWarning ("Concept [" +:+ pretty ic.1 +:+
                    "] skipped because class auto generate is not enabled.")) <$> ics) |}).
Proof.
revert st. induction ics as [|[i concept] ics IH]; intros st Hoff; simpl.
- rewrite app_nil_r. unfold ret. by rewrite world_eta.
- apply Forall_cons in Hoff as [Hoff1 Hoff]. simpl in Hoff1.
  unfold bind, process_concept. rewrite Hoff1. simpl.
  rewrite IH by done. simpl. by rewrite <- app_assoc.
Qed.

(** The steps of the build are no pipeline calls. *)
Lemma requests_build (steps : list build_step) : requests (EvBuild <$> steps) = [].
Proof. by induction steps. Qed.

(** The build is its ten calls, one after the other. *)
Lemma build_pipeline_steps cfg st :
  build_pipeline X cfg st = for_each (build_steps cfg) (build_call X) st.
Proof.
unfold build_pipeline, build_steps. simpl. unfold bind.
repeat match goal with
  | |- context [build_call X ?s ?w] => destruct (build_call X s w) as [[[]|?] ?]; try done
  end.
Qed.

(** A run of build steps: all of them are on the trace when they all come
    back; the first that raises is the last on it. *)
Lemma build_calls_run (steps : list build_step) st :
  match for_each steps (build_call X) st with
  | (Ok _, st0) => events st0 = events st ++ (EvBuild <$> steps)
  | (Raise e, st0) =>
      ∃ made step rest,
        steps = made ++ step :: rest ∧
        events st0 = events st ++ (EvBuild <$> made ++ [step])
  end.
Proof.
revert st. induction steps as [|step steps IH]; intros st; simpl.
- by rewrite app_nil_r.
- unfold bind, build_call at 1.
  destruct (build X (events st) (fs st) step) as [[[]|e] n]; simpl.
  + specialize (IH {| fs := n; events := events st ++ [EvBuild step] |}).
    destruct (for_each steps (build_call X) _) as [[[]|e] st0]; simpl in *.
    * by rewrite IH, <- app_assoc.
    * destruct IH as (made & step' & rest & -> & ->).
      exists (step :: made), step', rest. by rewrite <- app_assoc.
  + by exists [], step, steps.
Qed.

(** Libraries that keep the files keep them through the whole build. *)
Lemma build_calls_keep_files (steps : list build_step) st q data :
  build_keeps_files X →
  FS.lookup (fs st) q = Some (File data) →
  FS.lookup (fs (for_each steps (build_call X) st).2) q = Some (File data).
Proof.
intros Hkeep. revert st. induction steps as [|step steps IH]; intros st Hq; simpl.
- done.
- unfold bind, build_call at 1.
  pose proof (Hkeep (events st) (fs st) step q data Hq) as Hq1.
  destruct (build X (events st) (fs st) step) as [[[]|e] n]; simpl in *.
  + by apply IH.
  + done.
Qed.

(** [main] with prior preservation: the pipeline is built, then the loop
    over the numbered concepts runs, unless the build raised. *)
Lemma main_enabled cfg st :
  prior_preservation_enabled cfg = true →
  main X cfg st =
  match build_pipeline X cfg st with
  | (Ok _, st0) =>
      match for_each (imap (λ i concept, (i, concept)) (data_concepts cfg))
              (λ '(i, concept), process_concept X cfg i concept) st0 with
      | (Ok _, st') => (Ok PyNone, st')
      | (Raise e, st') => (Raise e, st')
      end
  | (Raise e, st0) => (Raise e, st0)
  end.
Proof.
intros Hon. unfold main. rewrite Hon. simpl. unfold bind at 1.
destruct (build_pipeline X cfg st) as [[[]|e] st0]; [|done].
unfold bind. by destruct (for_each _ _ st0) as [[[]|e] st1].
Qed.

End Concepts.

(** ** [main] as a whole *)

(** X7. Whatever [main] does, it calls the pipeline only on behalf of
    concepts of the configuration whose class auto generation is enabled,
    with their own prompt and settings, for at least one image and at most
    their batch size a call. *)
Theorem main_calls_only_enabled_concepts (X : Collaborators) (cfg : config) (st : World) :
  ∃ evs,
    events (main X cfg st).2 = events st ++ evs ∧
    Forall (λ r, ∃ concept w h bs,
      concept ∈ data_concepts cfg ∧
      ag_enabled (auto_generate concept) = true ∧
      r = batch_request concept w h bs ∧
      0 < bs <= batch_size (auto_generate concept)) (requests evs).
Proof.
destruct (prior_preservation_enabled cfg) eqn:Hon.
- rewrite main_enabled by done.
  pose proof (build_calls_run X (build_steps cfg) st) as Hbuild.
  rewrite <- build_pipeline_steps in Hbuild.
  destruct (build_pipeline X cfg st) as [[[]|e] st0].
  + pose proof (requests_build (build_steps cfg)) as Hnone.
    remember (EvBuild <$> build_steps cfg) as built_evs eqn:Hevs. clear Hevs.
    match goal with |- context [for_each ?ics ?body ?s] =>
      destruct (concepts_loop_run X cfg ics s) as (evs & Hev & Hreq & _);
      destruct (for_each ics body s) as [[[]|e] st1]
    end; simpl in *.
    all: eexists; split; [rewrite Hev, Hbuild, <- app_assoc; done|].
    all: rewrite requests_app, Hnone; simpl.
    all: eapply Forall_impl; [exact Hreq|].
    all: intros r (i & concept & w & h & bs & Hin & Hen & -> & Hbs).
    all: exists concept, w, h, bs; split_and!; [|done|done|lia|lia].
    all: apply elem_of_lookup_imap in Hin as (i' & c' & [= -> ->] & Hin).
    all: by eapply list_elem_of_lookup_2.
  + destruct Hbuild as (made & step & rest & _ & Hev). simpl.
    eexists. split; [exact Hev|]. rewrite requests_build. constructor.
- unfold main. rewrite Hon. simpl.
  eexists. split; [done | constructor].
Qed.

(** X8. Of the files on the disk when the concepts are started on,
    [main] removes none, and a file keeps its content unless it is an entry
    of the class-image directory of an enabled concept: instance images and
    everything else are left as they are, in any run.  The disk of that
    moment is the one the libraries leave when they have built the pipeline
    (lines 89 to 128), and the one [main] was started on when prior
    preservation is off; when the libraries remove and change no file, the
    same holds of the files [main] was started on. *)
Theorem main_keeps_other_files (X : Collaborators) (cfg : config) (st : World)
    (q : path) (data : bytes) :
  (FS.lookup (fs (built X cfg st)) q = Some (File data) →
   ∃ data', FS.lookup (fs (main X cfg st).2) q = Some (File data') ∧
     ((∀ concept name, concept ∈ data_concepts cfg →
         ag_enabled (auto_generate concept) = true →
         q ≠ class_set_path concept ++ [name]) → data' = data))
  ∧ (build_keeps_files X →
     FS.lookup (fs st) q = Some (File data) →
     ∃ data', FS.lookup (fs (main X cfg st).2) q = Some (File data') ∧
       ((∀ concept name, concept ∈ data_concepts cfg →
           ag_enabled (auto_generate concept) = true →
           q ≠ class_set_path concept ++ [name]) → data' = data)).
Proof.
assert (Hframe : FS.lookup (fs (built X cfg st)) q = Some (File data) →
  ∃ data', FS.lookup (fs (main X cfg st).2) q = Some (File data') ∧
    ((∀ concept name, concept ∈ data_concepts cfg →
        ag_enabled (auto_generate concept) = true →
        q ≠ class_set_path concept ++ [name]) → data' = data)).
{ unfold built. destruct (prior_preservation_enabled cfg) eqn:Hon.
  - rewrite main_enabled by done.
    destruct (build_pipeline X cfg st) as [[[]|e] st0]; simpl; [|by exists data].
    intros Hq.
    match goal with |- context [for_each ?ics ?body ?s] =>
      destruct (concepts_loop_run X cfg ics s) as (evs & _ & _ & Hkept);
      destruct (Hkept q data Hq) as (data' & Hq' & Hsame);
      destruct (for_each ics body s) as [[[]|e] st1]
    end; simpl in *.
    all: exists data'; split; [done|]; intros Hout; apply Hsame.
    all: intros i concept name Hin Hen.
    all: apply elem_of_lookup_imap in Hin as (i' & c' & [= -> ->] & Hin).
    all: apply Hout; [by eapply list_elem_of_lookup_2 | done].
  - intros Hq. unfold main. rewrite Hon. simpl. by exists data. }
split; [exact Hframe|].
intros Hkeep Hq. apply Hframe. unfold built.
destruct (prior_preservation_enabled cfg); [|done].
rewrite build_pipeline_steps. by apply build_calls_keep_files.
Qed.

(** X9. With prior preservation on and class auto generation off for every
    concept, [main] still builds the pipeline.  When the ten steps of the
    build come back, all ten are on the trace, and [main] then warns once a
    concept, with the concept's position in the configuration, calls the
    pipeline for nothing, writes nothing (the disk is as the build left it)
    and returns [None].  When a step of the build raises, that step is the
    last on the trace and the exception ends [main]: no concept is looked
    at and no warning is logged. *)
Theorem main_all_disabled_warns_each (X : Collaborators) (cfg : config) (st : World)
    (outcome : result unit) (st0 : World) :
  prior_preservation_enabled cfg = true →
  Forall (λ concept, ag_enabled (auto_generate concept) = false) (data_concepts cfg) →
  build_pipeline X cfg st = (outcome, st0) →
  match outcome with
  | Ok _ =>
      events st0 = events st ++ (EvBuild <$> build_steps cfg) ∧
      main X cfg st =
        (Ok PyNone,
         {| fs := fs st0;
            events := events st0 ++
              imap (λ i _, EvWarning ("Concept [" +:+ pretty i +:+
                      "] skipped because class auto generate is not enabled."))
                (data_concepts cfg) |})
  | Raise e =>
      (∃ made step rest,
         build_steps cfg = made ++ step :: rest ∧
         events st0 = events st ++ (EvBuild <$> made ++ [step])) ∧
      main X cfg st = (Raise e, st0)
  end.
Proof.
intros Hon Hoff Hrun. rewrite main_enabled by done.
pose proof (build_calls_run X (build_steps cfg) st) as Hbuild.
rewrite <- build_pipeline_steps in Hbuild. rewrite Hrun in *.
destruct outcome as [[]|e]; [|done].
split; [done|].
rewrite concepts_loop_all_disabled.
- simpl. by rewrite fmap_imap.
- apply Forall_forall. intros [i c] (i' & c' & [= -> ->] & Hin)%elem_of_lookup_imap.
  simpl. rewrite Forall_forall in Hoff. apply Hoff. by eapply list_elem_of_lookup_2.
Qed.

(** X10. The first concept that fails ends [main]: when the concepts before
    it go through and its own turn raises, the exception and the state of
    that moment are the outcome of [main], whatever concepts follow. *)
Theorem main_stops_at_failing_concept (X : Collaborators) (cfg : config)
    (before : list concept_config) (concept : concept_config)
    (after : list concept_config) (st st1 st2 : World) (e : exn) :
  prior_preservation_enabled cfg = true →
  data_concepts cfg = before ++ concept :: after →
  main X (with_concepts cfg before) st = (Ok PyNone, st1) →
  process_concept X cfg (length before) concept st1 = (Raise e, st2) →
  main X cfg st = (Raise e, st2).
Proof.
intros Hon Hcs Hbefore Hfail.
rewrite main_enabled in Hbefore by done. rewrite main_enabled by done.
change (build_pipeline X (with_concepts cfg before) st)
  with (build_pipeline X cfg st) in Hbefore.
destruct (build_pipeline X cfg st) as [[[]|e0] st0]; [|done].
simpl in Hbefore. rewrite Hcs, imap_app, for_each_app.
match type of Hbefore with context [for_each ?ics ?body ?s] =>
  assert (Hsame : for_each ics (λ '(i, concept), process_concept X cfg i concept) s
                  = for_each ics body s)
end.
{ match goal with |- for_each ?ics _ ?s = _ => generalize s; generalize ics end.
  intros ics. induction ics as [|[i c] ics IH]; intros s; simpl; [done|].
  unfold bind.
  assert (Hc : process_concept X cfg i c s
               = process_concept X (with_concepts cfg before) i c s) by done.
  rewrite Hc. destruct (process_concept X (with_concepts cfg before) i c s) as [[[]|e'] s'];
    [apply IH | done]. }
rewrite Hsame.
match type of Hbefore with context [for_each ?ics ?body ?s] =>
  destruct (for_each ics body s) as [[[]|e'] s']
end; [|done].
injection Hbefore as ->. simpl. unfold bind.
rewrite Nat.add_0_r, Hfail. done.
Qed.

(** ** Bucketing without instance images *)

(** X11. With aspect-ratio bucketing on, a concept without a single instance
    image never gets to the generator: the share of the first bucket
    divides by zero, and with no bucket at all the empty sum fails the
    assertion.  Nothing is written and the pipeline is not called. *)
Theorem no_instance_images_never_generates (X : Collaborators) (cfg : config)
    (i : nat) (concept : concept_config) (st : World) (m : list (string * size)) :
  ag_enabled (auto_generate concept) = true →
  aspect_ratio_bucket_enabled cfg = true →
  get_images X (fs st) (instance_set_path concept) = Ok [] →
  get_id_size_map X (fs st) [] = Ok m →
  process_concept X cfg i concept st =
    (Raise (match bucket_manager X m with
            | [] => AssertionError
            | _ :: _ => ZeroDivisionError
            end), st).
Proof.
intros Hon Harb Himgs Hmap.
unfold process_concept, size_dist_of, bucket_shares, bind, lift, ret.
rewrite Hon, Harb. simpl. rewrite Himgs. simpl. rewrite Hmap. simpl.
destruct (bucket_manager X m) as [|b bs]; [done|].
unfold Dict.comp_result. simpl.
destruct (Z.of_nat (length (bucket_ids b))); simpl; by rewrite comp_result_raise.
Qed.

(** ** The inventory by size *)

Section Counting.
Context {K V : Type} `{EqDecision K}.

Lemma get_set (d : list (K * V)) k v k' :
  Dict.get (Dict.set d k v) k' = if decide (k' = k) then Some v else Dict.get d k'.
Proof.
induction d as [|[k0 v0] d IH]; simpl.
- done.
- destruct (decide (k = k0)) as [->|Hne]; simpl.
  + by destruct (decide (k' = k0)).
  + rewrite IH. destruct (decide (k' = k0)) as [->|]; [|done].
    by rewrite decide_False.
Qed.

Lemma keys_set (d : list (K * V)) k v :
  Dict.keys (Dict.set d k v) =
  if decide (k ∈ Dict.keys d) then Dict.keys d else Dict.keys d ++ [k].
Proof.
induction d as [|[k0 v0] d IH]; simpl; [done|].
destruct (decide (k = k0)) as [->|Hne]; simpl.
- rewrite decide_True by apply list_elem_of_here. done.
- unfold Dict.keys in *. simpl. rewrite IH.
  destruct (decide (k ∈ d.*1)) as [Hin|Hout].
  + rewrite decide_True by by apply list_elem_of_further. done.
  + rewrite decide_False; [done|]. by intros [?|?]%elem_of_cons.
Qed.

Lemma wf_set (d : list (K * V)) k v : Dict.wf d → Dict.wf (Dict.set d k v).
Proof.
unfold Dict.wf. intros Hd. rewrite keys_set. case_decide; [done|].
apply NoDup_app. split_and!; [done | | apply NoDup_singleton].
intros x Hx ->%list_elem_of_singleton. done.
Qed.

End Counting.

Lemma length_filter_fmap {A B} (f : A → B) (P : B → Prop) `{∀ y, Decision (P y)}
    (Q : A → Prop) `{∀ x, Decision (Q x)} (l : list A) :
  (∀ x, x ∈ l → P (f x) ↔ Q x) →
  length (filter P (f <$> l)) = length (filter Q l).
Proof.
induction l as [|x l IH]; intros HPQ; simpl; [done|].
rewrite !filter_cons.
assert (Hx : P (f x) ↔ Q x) by (apply HPQ, list_elem_of_here).
assert (Hl : length (filter P (f <$> l)) = length (filter Q l)).
{ apply IH. intros y Hy. apply HPQ. by apply list_elem_of_further. }
destruct (decide (P (f x))), (decide (Q x)); [|tauto|tauto|exact Hl].
simpl. f_equal. exact Hl.
Qed.

Lemma filter_all {A} (P : A → Prop) `{∀ x, Decision (P x)} (l : list A) :
  Forall P l → filter P l = l.
Proof.
induction 1 as [|x l Hx Hl IH]; [done|].
by rewrite filter_cons_True, IH.
Qed.

(** The number of ids of a size, as the comprehension counts it and as a
    count over the items. *)
Lemma count_by_get (m : list (string * size)) (sz : size) :
  Dict.wf m →
  length (filter (λ k, Dict.get m k = Some sz) (Dict.keys m))
  = length (filter (λ kv, kv.2 = sz) m).
Proof.
intros Hwf. unfold Dict.keys. apply length_filter_fmap.
intros [k v] Hin. simpl. rewrite (elem_of_get m k v Hwf Hin).
split; [by intros [= ->] | by intros ->].
Qed.

(** Counts over a list of distinct keys add up to the number of items
    with one of these keys. *)
Lemma sum_counts {A} (f : A → size) (ks : list size) (l : list A) :
  NoDup ks →
  sum_list_Z ((λ k, Z.of_nat (length (filter (λ x, f x = k) l))) <$> ks)
  = Z.of_nat (length (filter (λ x, f x ∈ ks) l)).
Proof.
intros Hks. induction Hks as [|k ks Hk Hks IH].
- rewrite fmap_nil. change (sum_list_Z []) with 0.
  induction l as [|x l IHl]; [done|].
  rewrite filter_cons. destruct (decide (f x ∈ [])) as [Hin|]; [|done].
  by apply elem_of_nil in Hin.
- rewrite fmap_cons.
  change (sum_list_Z (?a :: ?b)) with (a + sum_list_Z b).
  rewrite IH. clear IH. induction l as [|x l IHl]; [done|].
  rewrite !filter_cons.
  destruct (decide (f x = k)) as [Hxk|Hxk];
    destruct (decide (f x ∈ ks)) as [Hin|Hout];
    destruct (decide (f x ∈ k :: ks)) as [Hin'|Hout'].
  all: try (cbn [length]; lia).
  all: exfalso.
  all: first [ by subst k
             | by (apply Hout'; subst k; apply list_elem_of_here)
             | by (apply Hout'; apply list_elem_of_further)
             | by apply elem_of_cons in Hin' as [?|?] ].
Qed.

(** The comprehension that builds [cur_dist], from any dictionary on. *)
Lemma cur_dist_from (g : size → Z) (xs : list (string * size)) (d : list (size * Z)) :
  Dict.wf d →
  Forall (λ kv, kv.2 = g kv.1) d →
  let d' := foldl (λ d x, if (λ _ : string * size, true) x
                          then Dict.set d ((λ '(id, sz), sz) x) ((λ '(id, sz), g sz) x)
                          else d) d xs in
  Dict.wf d' ∧ Forall (λ kv, kv.2 = g kv.1) d' ∧
  ∀ sz, sz ∈ Dict.keys d' ↔ sz ∈ Dict.keys d ∨ sz ∈ xs.*2.
Proof.
revert d. induction xs as [|[id sz0] xs IH]; intros d Hwf Hd; simpl.
- split_and!; [done | done |]. intros sz. rewrite elem_of_nil. tauto.
- destruct (IH (Dict.set d sz0 (g sz0))) as (Hwf' & Hd' & Hkeys').
  + by apply wf_set.
  + clear IH. induction d as [|[k v] d IHd]; simpl.
    * by repeat constructor.
    * apply Forall_cons in Hd as [Hkv Hd].
      destruct (decide (sz0 = k)) as [->|].
      -- constructor; [done | done].
      -- constructor; [done|]. apply IHd; [|done].
         unfold Dict.wf, Dict.keys in *. simpl in Hwf. by apply NoDup_cons in Hwf as [_ ?].
  + split_and!; [done | done |].
    intros sz. rewrite Hkeys', keys_set, elem_of_cons.
    destruct (decide (sz0 ∈ Dict.keys d)) as [Hin|Hout].
    * split; [tauto|]. intros [?|[->|?]]; tauto.
    * rewrite elem_of_app, list_elem_of_singleton. tauto.
Qed.

(** X12. The inventory counted by size (lines 31 and 32): the map has one
    entry for every size some image has, its value is the number of images
    of that size, and the counts add up to the number of images. *)
Theorem cur_dist_counts (class_id_size_map : list (string * size)) :
  Dict.wf class_id_size_map →
  Dict.wf (cur_dist class_id_size_map) ∧
  (∀ sz, Dict.get (cur_dist class_id_size_map) sz =
     if decide (sz ∈ Dict.values class_id_size_map)
     then Some (Z.of_nat (length (filter (λ kv, kv.2 = sz) class_id_size_map)))
     else None) ∧
  sum_values (cur_dist class_id_size_map) = Z.of_nat (length class_id_size_map).
Proof.
intros Hwf.
set (g := λ sz : size, Z.of_nat (length (filter
  (λ k, Dict.get class_id_size_map k = Some sz) (Dict.keys class_id_size_map)))).
destruct (cur_dist_from g class_id_size_map []) as (Hwf' & Hval & Hkeys).
{ apply NoDup_nil_2. }
{ constructor. }
assert (Hcur : cur_dist class_id_size_map =
  foldl (λ d x, if (λ _ : string * size, true) x
                then Dict.set d ((λ '(id, sz), sz) x) ((λ '(id, sz), g sz) x)
                else d) [] class_id_size_map).
{ unfold cur_dist, Dict.comp. f_equal. }
rewrite <- Hcur in Hwf', Hval, Hkeys. clear Hcur.
split_and!.
- done.
- intros sz. destruct (decide (sz ∈ Dict.values class_id_size_map)) as [Hin|Hout].
  + assert (Hk : sz ∈ Dict.keys (cur_dist class_id_size_map)) by (apply Hkeys; by right).
    destruct (Dict.get (cur_dist class_id_size_map) sz) as [v|] eqn:Hget.
    * apply get_Some_elem_of in Hget. rewrite Forall_forall in Hval.
      pose proof (Hval _ Hget) as Hv. simpl in Hv. rewrite Hv.
      unfold g. by rewrite count_by_get.
    * by apply get_None_keys in Hget.
  + apply get_None_keys. rewrite Hkeys. intros [Hnil|?]; [|done].
    by apply elem_of_nil in Hnil.
- rewrite sum_values_foldr.
  assert (Hvals : Dict.values (cur_dist class_id_size_map)
    = (λ k, Z.of_nat (length (filter (λ kv : string * size, kv.2 = k) class_id_size_map)))
      <$> Dict.keys (cur_dist class_id_size_map)).
  { unfold Dict.values, Dict.keys. rewrite <- list_fmap_compose.
    apply list_fmap_ext. intros i [k v] Hin%list_elem_of_lookup_2. simpl.
    rewrite Forall_forall in Hval. pose proof (Hval _ Hin) as Hv. simpl in Hv.
    rewrite Hv. unfold g. by rewrite count_by_get. }
  rewrite Hvals, (sum_counts snd) by done. f_equal.
  rewrite filter_all; [done|].
  apply Forall_forall. intros [id sz] Hin. simpl. apply Hkeys. right.
  apply list_elem_of_fmap. by exists (id, sz).
Qed.

(** ** More inventory, fewer requests *)

(** The deficit map, item by item of the target map. *)
Lemma dist_diff_items T C :
  Dict.wf T →
  dist_diff T C =
  (λ x, ((λ '(k, v), k) x, (λ '(k, v), v - Dict.get_default C k 0) x))
    <$> filter (λ x, (λ '(k, v), bool_decide (v > Dict.get_default C k 0)) x) T.
Proof.
intros HT. assert (Hkey : (λ '(k, v), k) <$> T = T.*1).
{ apply list_fmap_ext. by intros ? [k t]. }
unfold dist_diff. by rewrite comp_nodup by (by rewrite Hkey).
Qed.

(** The total of the deficit map: what every target is short of. *)
Lemma sum_values_dist_diff T C :
  Dict.wf T →
  sum_values (dist_diff T C)
  = sum_list_Z ((λ kv, Z.max 0 (kv.2 - Dict.get_default C kv.1 0)) <$> T).
Proof.
intros HT. rewrite sum_values_foldr, dist_diff_items by done. clear HT.
unfold Dict.values. induction T as [|[k v] T IH]; [done|].
rewrite filter_cons, fmap_cons.
change (sum_list_Z (?a :: ?b)) with (a + sum_list_Z b). rewrite <- IH.
destruct (decide _) as [Hgt|Hle].
- apply bool_decide_unpack in Hgt. rewrite !fmap_cons.
  change (sum_list_Z (?a :: ?b)) with (a + sum_list_Z b). simpl. lia.
- assert (¬ v > Dict.get_default C k 0) by (intros ?; apply Hle; by apply bool_decide_pack).
  simpl. lia.
Qed.

(** X13. Images already there are never asked for again: with more images in
    the inventory, bucket by bucket, no bucket's deficit grows, no bucket
    enters the deficit map, and the total to generate does not grow. *)
Theorem more_inventory_fewer_requests (T cur cur' : list (size * Z)) :
  Dict.wf T →
  (∀ b, Dict.get_default cur b 0 <= Dict.get_default cur' b 0) →
  (∀ b, Dict.get_default (dist_diff T cur') b 0
        <= Dict.get_default (dist_diff T cur) b 0) ∧
  (∀ b, b ∈ Dict.keys (dist_diff T cur') → b ∈ Dict.keys (dist_diff T cur)) ∧
  sum_values (dist_diff T cur') <= sum_values (dist_diff T cur).
Proof.
intros HT Hmore. split_and!.
- intros b.
  assert (Hgd : ∀ d : list (size * Z), Dict.get_default d b 0 = default 0 (Dict.get d b))
    by done.
  rewrite (Hgd (dist_diff T cur')), (Hgd (dist_diff T cur)). clear Hgd.
  destruct (Dict.get (dist_diff T cur') b) as [v'|] eqn:Hget'; simpl.
  + apply get_dist_diff in Hget' as (t & Ht & Hgt & ->); [|done].
    assert (Hget : Dict.get (dist_diff T cur) b = Some (t - Dict.get_default cur b 0)).
    { apply get_dist_diff; [done|]. exists t. specialize (Hmore b). split_and!; [done | lia | done]. }
    rewrite Hget. simpl. specialize (Hmore b). lia.
  + destruct (Dict.get (dist_diff T cur) b) as [v|] eqn:Hget; simpl; [|done].
    apply get_dist_diff in Hget as (t & Ht & Hgt & ->); [|done]. lia.
- intros b Hb.
  destruct (Dict.get (dist_diff T cur') b) as [v'|] eqn:Hget'.
  + apply get_dist_diff in Hget' as (t & Ht & Hgt & ->); [|done].
    assert (Hget : Dict.get (dist_diff T cur) b = Some (t - Dict.get_default cur b 0)).
    { apply get_dist_diff; [done|]. exists t. specialize (Hmore b). split_and!; [done | lia | done]. }
    apply get_Some_elem_of in Hget. unfold Dict.keys.
    apply list_elem_of_fmap. by eexists (_, _).
  + by apply get_None_keys in Hget'.
- rewrite !sum_values_dist_diff by done. clear HT.
  induction T as [|[k v] T IH]; [done|].
  rewrite !fmap_cons.
  change (sum_list_Z (?a :: ?b)) with (a + sum_list_Z b).
  simpl. specialize (Hmore k). lia.
Qed.

(** ** The sign of a target *)

(** Rounding to a double keeps the sign. *)
Lemma binary_round_aux_not_negative mx ex lx :
  SFltb (binary_round_aux PyFloat.prec PyFloat.emax false mx ex lx) PyFloat.zero = false.
Proof.
unfold binary_round_aux.
destruct (shr_fexp _ _ _ _ _) as [mrs' e'].
destruct (shr_fexp _ _ _ _ _) as [mrs'' e''].
destruct (shr_m mrs'') as [|m|m]; [done | | done].
by destruct (Z.leb _ _).
Qed.

Lemma of_int_not_negative N y :
  0 <= N → PyFloat.of_int N = Ok y → SFltb y PyFloat.zero = false.
Proof.
intros HN. unfold PyFloat.of_int. destruct N as [|m|m]; [| |lia].
- by intros [= <-].
- unfold binary_normalize, binary_round.
  destruct (shl_align _ _ _) as [mz ez].
  pose proof (binary_round_aux_not_negative (Zpos mz) ez loc_Exact) as Hsign.
  destruct (binary_round_aux _ _ _ _ _ _); by intros [= <-].
Qed.

Lemma SFmul_not_negative x y :
  SFltb x PyFloat.zero = false → SFltb y PyFloat.zero = false →
  SFltb (SFmul PyFloat.prec PyFloat.emax x y) PyFloat.zero = false.
Proof.
destruct x as [sx|sx| |sx mx ex], y as [sy|sy| |sy my ey]; try done.
all: try (destruct sx, sy; done).
destruct sx, sy; try done. intros _ _. apply binary_round_aux_not_negative.
Qed.

Lemma round_half_even_nonneg m k : 0 <= m → 0 <= PyFloat.round_half_even m k.
Proof.
intros Hm. unfold PyFloat.round_half_even.
assert (0 <= Z.shiftr m k) by (by apply Z.shiftr_nonneg).
destruct (_ ?= _); [destruct (Z.even _)| |]; lia.
Qed.

Lemma round_not_negative x t :
  SFltb x PyFloat.zero = false → PyFloat.round x = Ok t → 0 <= t.
Proof.
destruct x as [s|s| |s m e]; try done.
- by intros _ [= <-].
- destruct s; [done|]. intros _ [= <-].
  destruct (0 <=? e).
  + apply Z.shiftl_nonneg. lia.
  + apply round_half_even_nonneg. lia.
Qed.

Lemma round_target_nonneg N p t :
  0 <= N → SFltb p PyFloat.zero = false → round_target N p = Ok t → 0 <= t.
Proof.
intros HN Hp. unfold round_target, PyFloat.int_mul.
destruct (PyFloat.of_int N) as [y|e] eqn:Hy; [|done]. simpl.
apply round_not_negative, SFmul_not_negative; [|done].
by eapply of_int_not_negative.
Qed.

(** The values of a comprehension that went through. *)
Lemma comp_result_values {K V A} `{EqDecision K} (Q : V → Prop) (key : A → K)
    (val : A → result V) xs (d : list (K * V)) :
  (∀ x v, x ∈ xs → val x = Ok v → Q v) →
  Dict.comp_result key val xs = Ok d → Forall Q (Dict.values d).
Proof.
unfold Dict.comp_result.
assert (Hacc : ∀ d0 : list (K * V), Forall Q (Dict.values d0) →
  (∀ x v, x ∈ xs → val x = Ok v → Q v) →
  foldl (λ acc x, d ← acc; v ← val x; Ok (Dict.set d (key x) v)) (Ok d0) xs = Ok d →
  Forall Q (Dict.values d)).
{ induction xs as [|x xs IH]; intros d0 Hd0 HQ; simpl.
  - by intros [= <-].
  - destruct (val x) as [v|e] eqn:Hv; simpl.
    + apply IH.
      * clear IH. induction d0 as [|[k0 v0] d0 IHd]; simpl.
        -- constructor; [|constructor]. eapply HQ; [apply list_elem_of_here | done].
        -- unfold Dict.values in *. apply Forall_cons in Hd0 as [? ?].
           destruct (decide (key x = k0)); simpl; constructor; try done.
           ++ eapply HQ; [apply list_elem_of_here | done].
           ++ by apply IHd.
      * intros x' v' Hin. apply HQ. by apply list_elem_of_further.
    + by rewrite comp_result_raise. }
intros HQ. apply Hacc; [constructor | done].
Qed.

(** X14. No target is negative: for a total that is not negative and
    proportions none of which is below zero, every rounded target of line 36
    is at least 0. *)
Theorem targets_never_negative (N : Z) (size_dist : list (size * spec_float))
    (T : list (size * Z)) :
  0 <= N →
  Forall (λ p, SFltb p PyFloat.zero = false) (Dict.values size_dist) →
  target_dist N size_dist = Ok T →
  Forall (λ t, 0 <= t) (Dict.values T).
Proof.
intros HN HP. unfold target_dist. apply comp_result_values.
intros [sz p] t Hin Ht. eapply round_target_nonneg; [done | | done].
rewrite Forall_forall in HP. apply HP. unfold Dict.values.
apply list_elem_of_fmap. by exists (sz, p).
Qed.

(** ** The target of the square bucket *)

Lemma digits2_pos_shift m k :
  Zpos (digits2_pos (Pos.iter xO m k)) = Zpos (digits2_pos m) + Zpos k.
Proof.
induction k as [|k IH] using Pos.peano_ind.
- simpl. lia.
- rewrite Pos.iter_succ. simpl. lia.
Qed.

Lemma Zpos_shift m k : Zpos (Pos.iter xO m k) = Zpos m * 2 ^ Zpos k.
Proof.
induction k as [|k IH] using Pos.peano_ind.
- simpl. lia.
- rewrite Pos.iter_succ, Pos2Z.inj_succ, Z.pow_succ_r by lia.
  rewrite Pos2Z.inj_xO, IH. lia.
Qed.

(** A mantissa of 53 bits with an exponent in range needs no shift. *)
Lemma shr_fexp_normal mz ez :
  Zpos (digits2_pos mz) = 53 → -1074 <= ez <= 971 →
  shr_fexp PyFloat.prec PyFloat.emax (Zpos mz) ez loc_Exact
  = ({| shr_m := Zpos mz; shr_r := false; shr_s := false |}, ez).
Proof.
intros Hd Hez. unfold shr_fexp, Zdigits2. rewrite Hd.
replace (fexp PyFloat.prec PyFloat.emax (53 + ez) - ez) with 0; [done|].
unfold fexp, emin, PyFloat.prec, PyFloat.emax. lia.
Qed.

(** Such a mantissa is its own rounding. *)
Lemma binary_round_aux_normal s mz ez :
  Zpos (digits2_pos mz) = 53 → -1074 <= ez <= 971 →
  binary_round_aux PyFloat.prec PyFloat.emax s (Zpos mz) ez loc_Exact
  = S754_finite s mz ez.
Proof.
intros Hd Hez.
unfold binary_round_aux. rewrite shr_fexp_normal by done. simpl.
rewrite shr_fexp_normal by done. simpl.
replace (ez <=? PyFloat.emax - PyFloat.prec) with true; [done|].
symmetry. apply Z.leb_le. unfold PyFloat.prec, PyFloat.emax. lia.
Qed.

(** Times 1.0: the product of a normal double and [1.0] is the double. *)
Lemma SFmul_one s mz ez :
  Zpos (digits2_pos mz) = 53 → -1074 <= ez <= 971 →
  SFmul PyFloat.prec PyFloat.emax (S754_finite s mz ez) PyFloat.one
  = S754_finite s mz ez.
Proof.
intros Hd Hez. unfold SFmul, PyFloat.one.
rewrite Pos.mul_comm.
assert (Hshr : shr_fexp PyFloat.prec PyFloat.emax
    (Zpos (4503599627370496 * mz)) (ez + -52) loc_Exact
  = ({| shr_m := Zpos mz; shr_r := false; shr_s := false |}, ez)).
{ unfold shr_fexp.
  assert (Hdig : Zdigits2 (Zpos (4503599627370496 * mz)) = 105).
  { change (4503599627370496 * mz)%positive with (Pos.iter xO mz 52).
    unfold Zdigits2. rewrite digits2_pos_shift, Hd. done. }
  rewrite Hdig.
  replace (fexp PyFloat.prec PyFloat.emax (105 + (ez + -52)) - (ez + -52)) with 52
    by (unfold fexp, emin, PyFloat.prec, PyFloat.emax; lia).
  unfold shr. f_equal; first [lia | reflexivity]. }
unfold binary_round_aux. rewrite Hshr. simpl.
rewrite shr_fexp_normal by done. simpl.
replace (ez <=? PyFloat.emax - PyFloat.prec) with true; [by destruct s|].
symmetry. apply Z.leb_le. unfold PyFloat.prec, PyFloat.emax. lia.
Qed.

(** [float(N)] for a positive integer of at most 53 bits: no rounding. *)
Lemma of_int_exact (m : positive) :
  Zpos m < 2 ^ 53 →
  ∃ mz ez, PyFloat.of_int (Zpos m) = Ok (S754_finite false mz ez) ∧
    Zpos (digits2_pos mz) = 53 ∧ -52 <= ez <= 0 ∧ Zpos mz = Zpos m * 2 ^ (- ez).
Proof.
intros Hm.
assert (Hdm : Zpos (digits2_pos m) <= 53).
{ assert (Hlow : ∀ p : positive, 2 ^ (Zpos (digits2_pos p) - 1) <= Zpos p).
  { induction p as [p IH|p IH|]; simpl digits2_pos.
    - rewrite Pos2Z.inj_succ. replace (Z.succ (Zpos (digits2_pos p)) - 1)
        with (Z.succ (Zpos (digits2_pos p) - 1)) by lia.
      rewrite Z.pow_succ_r by lia. lia.
    - rewrite Pos2Z.inj_succ. replace (Z.succ (Zpos (digits2_pos p)) - 1)
        with (Z.succ (Zpos (digits2_pos p) - 1)) by lia.
      rewrite Z.pow_succ_r by lia. lia.
    - done. }
  destruct (decide (Zpos (digits2_pos m) <= 53)) as [|Hbig]; [done|].
  exfalso. specialize (Hlow m).
  assert (2 ^ 53 <= 2 ^ (Zpos (digits2_pos m) - 1)) by (apply Z.pow_le_mono_r; lia).
  lia. }
unfold PyFloat.of_int, binary_normalize, binary_round, shl_align.
replace (fexp PyFloat.prec PyFloat.emax (Zpos (digits2_pos m) + 0) - 0)
  with (Zpos (digits2_pos m) - 53)
  by (unfold fexp, emin, PyFloat.prec, PyFloat.emax; lia).
replace (fexp PyFloat.prec PyFloat.emax (Zpos (digits2_pos m) + 0))
  with (Zpos (digits2_pos m) - 53)
  by (unfold fexp, emin, PyFloat.prec, PyFloat.emax; lia).
destruct (Zpos (digits2_pos m) - 53) as [|k|k] eqn:Hk; [|lia|].
- rewrite binary_round_aux_normal by lia.
  exists m, 0. split_and!; [done | lia | lia | lia | simpl; lia].
- assert (Hdz : Zpos (digits2_pos (Pos.iter xO m k)) = 53)
    by (rewrite digits2_pos_shift; lia).
  rewrite binary_round_aux_normal by lia.
  exists (Pos.iter xO m k), (Zneg k). split_and!; [done | done | lia | lia |].
  rewrite Zpos_shift. done.
Qed.

(** [round] of an integer stored in a double gives the integer back. *)
Lemma round_exact (m mz : positive) ez :
  ez <= 0 → Zpos mz = Zpos m * 2 ^ (- ez) →
  PyFloat.round (S754_finite false mz ez) = Ok (Zpos m).
Proof.
intros Hez Hmz. unfold PyFloat.round.
destruct (0 <=? ez) eqn:Hnonneg.
- apply Z.leb_le in Hnonneg. assert (ez = 0) as -> by lia.
  simpl in Hmz. rewrite Z.shiftl_0_r. f_equal. lia.
- apply Z.leb_gt in Hnonneg. f_equal. unfold PyFloat.round_half_even.
  assert (Hpow : 0 < 2 ^ (- ez)) by (apply Z.pow_pos_nonneg; lia).
  rewrite Hmz.
  rewrite Z.shiftr_div_pow2 by lia.
  rewrite Z.land_ones by lia.
  rewrite Z.shiftl_1_l.
  rewrite Z.mod_mul by lia.
  rewrite Z.div_mul by lia.
  rewrite Z.mul_0_r.
  by replace (0 ?= 2 ^ (- ez)) with Lt by (symmetry; by apply Z.compare_lt_iff).
Qed.

(** [round(N * 1.0)] is [N] for every total a double holds exactly. *)
Lemma round_target_one N :
  0 <= N < 2 ^ 53 → round_target N PyFloat.one = Ok N.
Proof.
intros [HN0 HN]. destruct N as [|m|m]; [done | | lia].
destruct (of_int_exact m HN) as (mz & ez & Hof & Hd & Hez & Hmz).
unfold round_target, PyFloat.int_mul. rewrite Hof.
change (PyFloat.round (SFmul PyFloat.prec PyFloat.emax (S754_finite false mz ez) PyFloat.one)
        = Ok (Zpos m)).
rewrite SFmul_one by (done || lia).
apply round_exact; [lia | done].
Qed.

(** X15. Without aspect-ratio bucketing the one bucket is the square of the
    configured resolution with proportion 1.0, and its target is the
    configured total itself, for every total a double holds exactly: the
    plan is to fill the class directory up to [num_target] images of that
    size, and nothing when it holds as many. *)
Theorem square_bucket_target_is_total (X : Collaborators) (cfg : config)
    (concept : concept_config) (st : World) (cur : list (size * Z)) :
  aspect_ratio_bucket_enabled cfg = false →
  0 <= num_target (auto_generate concept) < 2 ^ 53 →
  let square := (data_resolution cfg, data_resolution cfg) in
  let total := num_target (auto_generate concept) in
  ∃ size_dist,
    size_dist_of X cfg concept st = (Ok size_dist, st) ∧
    target_dist total size_dist = Ok [(square, total)] ∧
    plan size_dist total cur =
      Ok (if decide (total > Dict.get_default cur square 0)
          then [(square, total - Dict.get_default cur square 0)]
          else []).
Proof.
intros Hoff HN square total.
exists [(square, PyFloat.one)]. split_and!.
- unfold size_dist_of. by rewrite Hoff.
- unfold target_dist, Dict.comp_result. simpl.
  fold total. by rewrite round_target_one.
- unfold plan, target_dist, Dict.comp_result. simpl.
  fold total. rewrite round_target_one by done. simpl.
  unfold dist_diff, Dict.comp. simpl.
  by destruct (decide (total > Dict.get_default cur square 0));
    [rewrite bool_decide_eq_true_2 | rewrite bool_decide_eq_false_2].
Qed.

(** ** Runs that fail *)

(** A regular file in the way of the directory: which exception. *)
Lemma mkdir_blocked p n :
  FS.file_in_the_way p n = true →
  FS.mkdir p n = Raise (match FS.lookup n p with
                        | Some (File _) => FileExistsError
                        | _ => NotADirectoryError
                        end).
Proof.
revert n. induction p as [|c p IH]; intros [data|es]; simpl; try done.
destruct (es !! c) as [child|] eqn:Hc; [|done]. simpl.
intros Hway. by rewrite (IH child Hway).
Qed.

(** X16. A regular file in the way of the class-image directory stops the
    run before it logs, scans or generates anything: [FileExistsError] when
    the path itself is a file, [NotADirectoryError] when a file sits where a
    parent directory should be.  The world is left as it was. *)
Theorem blocked_class_dir_raises (X : Collaborators) (concept : concept_config)
    (size_dist : list (size * spec_float)) (st : World) :
  FS.file_in_the_way (class_set_path concept) (fs st) = true →
  generate_class_images X concept size_dist st =
    (Raise (match FS.lookup (fs st) (class_set_path concept) with
            | Some (File _) => FileExistsError
            | _ => NotADirectoryError
            end), st).
Proof.
intros Hway. rewrite generate_class_images_stages.
unfold inventory, bind, mkdir. by rewrite (mkdir_blocked _ _ Hway).
Qed.

Section Failures.
Context (X : Collaborators).

Lemma write_onto_dir dir name data n es es0 :
  FS.lookup n dir = Some (Dir es) →
  es !! name = Some (Dir es0) →
  FS.write (dir ++ [name]) data n = Raise IsADirectoryError.
Proof.
revert n. induction dir as [|c dir IH]; intros n; simpl.
- intros [= ->] Hname. by rewrite Hname.
- destruct n as [|es1]; [done|]. destruct (es1 !! c) as [child|] eqn:Hc; [|done].
  intros Hlook Hname. by rewrite (IH child Hlook Hname).
Qed.

(** Saving a batch one of whose names is taken by a directory. *)
Lemma save_images_onto_dir dir (images : list (Image X)) st es image es0 :
  FS.lookup (fs st) dir = Some (Dir es) →
  image ∈ images →
  es !! (md5_hexdigest X (tobytes X image) +:+ ".jpg") = Some (Dir es0) →
  (save_images X dir images st).1 = Raise IsADirectoryError.
Proof.
revert st es. induction images as [|x images IH]; intros st es Hdir Hin Hbad.
- by apply elem_of_nil in Hin.
- unfold save_images in *. simpl. unfold bind at 1, save at 1.
  destruct (es !! (md5_hexdigest X (tobytes X x) +:+ ".jpg")) as [[old|es1]|] eqn:Hx.
  + destruct (write_in_dir dir (md5_hexdigest X (tobytes X x) +:+ ".jpg")
      (jpeg_encode X x 93) (fs st) es Hdir) as (n1 & Hwrite & Hdir1).
    { intros es2. by rewrite Hx. }
    rewrite Hwrite. apply elem_of_cons in Hin as [->|Hin]; [by rewrite Hx in Hbad|].
    eapply (IH {| fs := n1; events := events st |}); [exact Hdir1 | exact Hin |].
    rewrite lookup_insert_ne; [done|]. intros Heq. by rewrite Heq, Hbad in Hx.
  + by rewrite (write_onto_dir dir _ _ (fs st) es es1 Hdir Hx).
  + destruct (write_in_dir dir (md5_hexdigest X (tobytes X x) +:+ ".jpg")
      (jpeg_encode X x 93) (fs st) es Hdir) as (n1 & Hwrite & Hdir1).
    { intros es2. by rewrite Hx. }
    rewrite Hwrite. apply elem_of_cons in Hin as [->|Hin]; [by rewrite Hx in Hbad|].
    eapply (IH {| fs := n1; events := events st |}); [exact Hdir1 | exact Hin |].
    rewrite lookup_insert_ne; [done|]. intros Heq. by rewrite Heq, Hbad in Hx.
Qed.

End Failures.

(** X17. An image whose file name is taken by a directory cannot be saved:
    the batch ends in [IsADirectoryError] once the pipeline has been called,
    the progress bar is not advanced for it, and the loop of the bucket
    ends with that exception. *)
Theorem save_onto_directory_raises (X : Collaborators) (concept : concept_config)
    (w h target : Z) (st : World) (images : list (Image X)) (image : Image X)
    (es es0 : gmap string node) :
  0 < actual_bs target (batch_size (auto_generate concept)) →
  pipeline X (events st)
    (batch_request concept w h (actual_bs target (batch_size (auto_generate concept))))
    = Ok images →
  image ∈ images →
  FS.lookup (fs st) (class_set_path concept) = Some (Dir es) →
  es !! (md5_hexdigest X (tobytes X image) +:+ ".jpg") = Some (Dir es0) →
  let run := while_true X concept w h target st in
  run.1 = Raise IsADirectoryError ∧
  events run.2 = events st ++
    [EvPipelineCall (batch_request concept w h
       (actual_bs target (batch_size (auto_generate concept))))].
Proof.
intros Hbs Hpipe Hin Hdir Hbad run. unfold run.
rewrite while_true_step. unfold loop_body.
rewrite decide_False by lia.
pose proof (generate_batch_trace X concept w h
  (actual_bs target (batch_size (auto_generate concept))) st) as Htrace.
assert (Hfail : (generate_batch X concept w h
  (actual_bs target (batch_size (auto_generate concept))) st).1 = Raise IsADirectoryError).
{ unfold generate_batch, bind at 1, call_pipeline. rewrite Hpipe.
  unfold bind.
  pose proof (save_images_onto_dir X (class_set_path concept) images
    {| fs := fs st;
       events := events st ++ [EvPipelineCall (batch_request concept w h
         (actual_bs target (batch_size (auto_generate concept))))] |}
    es image es0 Hdir Hin Hbad) as Hsave.
  destruct (save_images X _ images _) as [[[]|e] st1]; simpl in *; [done|].
  by injection Hsave as ->. }
destruct (generate_batch X concept w h _ st) as [[[]|e] st1]; simpl in *; [done|].
injection Hfail as ->. done.
Qed.

(** X18. A pipeline that fails ends the whole run at its first call: the
    three distributions and the total are logged, the progress bar is
    opened, the first bucket of the deficit map is announced, the pipeline
    is called once for the first batch of that bucket, and its exception
    is the outcome.  No file is written and no progress is reported. *)
Theorem failing_pipeline_aborts_at_first_call (X : Collaborators)
    (concept : concept_config) (size_dist : list (size * spec_float))
    (st st0 : World) (cur T : list (size * Z)) (w h target : Z)
    (D : list (size * Z)) (e : exn) :
  inventory X concept st = (Ok cur, st0) →
  target_dist (num_target (auto_generate concept)) size_dist = Ok T →
  dist_diff T cur = ((w, h), target) :: D →
  0 < batch_size (auto_generate concept) →
  (∀ evs r, pipeline X evs r = Raise e) →
  generate_class_images X concept size_dist st =
    (Raise e,
     {| fs := fs st0;
        events := events st ++
          [EvInfoDist "Current distribution" cur;
           EvInfoDist "Target distribution" T;
           EvInfoDist "Distribution diff" (((w, h), target) :: D);
           EvInfoTotal (sum_values (((w, h), target) :: D));
           EvProgressOpen (sum_values (((w, h), target) :: D));
           EvPostfix (w, h);
           EvPipelineCall (batch_request concept w h
             (actual_bs target (batch_size (auto_generate concept))))] |}).
Proof.
intros Hinv HT HD Hbs Hpipe.
assert (Hev0 : events st0 = events st).
{ pose proof (inventory_events X concept st) as Hev. by rewrite Hinv in Hev. }
assert (Htarget : 0 < target).
{ pose proof (dist_diff_positive T cur) as Hpos. rewrite HD in Hpos.
  by apply Forall_cons in Hpos as [? _]. }
rewrite generate_class_images_stages, Hinv, HT, HD, fulfil_cons.
rewrite while_true_step. unfold loop_body.
rewrite decide_False by (unfold actual_bs; case_decide; lia).
unfold generate_batch, bind at 1, call_pipeline. rewrite Hpipe. simpl.
rewrite Hev0, <- !app_assoc. done.
Qed.

(** ** The properties on examples *)

Lemma requests_within_cap_witness :
  let concept := Demo.concept 5 2 in
  ∃ evs,
    events (generate_class_images (Demo.collaborators Demo.fresh_images) concept
              [((512, 512), PyFloat.one)] Demo.empty_world).2
      = events Demo.empty_world ++ evs ∧
    Forall (λ r,
      prompt r = class_set_prompt concept ∧
      negative_prompt r = ag_negative_prompt (auto_generate concept) ∧
      guidance_scale r = cfg_scale (auto_generate concept) ∧
      num_inference_steps r = steps (auto_generate concept) ∧
      0 < num_images_per_prompt r <= batch_size (auto_generate concept) ∧
      (width r, height r) ∈ Dict.keys [((512, 512), PyFloat.one)]) (requests evs).
Proof.
apply (requests_within_cap (Demo.collaborators Demo.fresh_images) (Demo.concept 5 2)
  [((512, 512), PyFloat.one)] Demo.empty_world).
apply (bool_decide_unpack _). vm_compute. exact I.
Defined.

(** One image is wanted and one is there. *)
Lemma met_targets_request_nothing_witness :
  generate_class_images (Demo.collaborators Demo.fresh_images) (Demo.concept 1 2)
    [((512, 512), PyFloat.one)] Demo.stocked_world =
    (Ok PyNone,
     {| fs := fs Demo.stocked_world;
        events := events Demo.stocked_world ++
          [EvInfoDist "Current distribution" [((512, 512), 1)];
           EvInfoDist "Target distribution" [((512, 512), 1)];
           EvInfoDist "Distribution diff" [];
           EvInfoTotal 0;
           EvProgressOpen 0] |}).
Proof.
apply (met_targets_request_nothing (Demo.collaborators Demo.fresh_images)
  (Demo.concept 1 2) [((512, 512), PyFloat.one)] Demo.stocked_world Demo.stocked_world
  [((512, 512), 1)] [((512, 512), 1)]).
- apply (bool_decide_unpack _). vm_compute. exact I.
- vm_compute. reflexivity.
- vm_compute. reflexivity.
- intros b t. simpl. unfold Dict.get_default. simpl.
  case_decide; [|done]. intros [= <-]. simpl. lia.
Defined.

Lemma each_bucket_gets_its_deficit_witness :
  let X := Demo.collaborators Demo.fresh_images in
  let run := generate_class_images X (Demo.concept 5 2)
               [((512, 512), PyFloat.one)] Demo.empty_world in
  ∃ cur D evs,
    (inventory X (Demo.concept 5 2) Demo.empty_world).1 = Ok cur ∧
    plan [((512, 512), PyFloat.one)] (num_target (auto_generate (Demo.concept 5 2))) cur
      = Ok D ∧
    events run.2 = events Demo.empty_world ++ evs ∧
    requests evs = planned_requests (Demo.concept 5 2) D ∧
    ∀ b, sum_list_Z (num_images_per_prompt <$>
           filter (λ r, (width r, height r) = b) (requests evs))
         = Dict.get_default D b 0.
Proof.
apply (each_bucket_gets_its_deficit (Demo.collaborators Demo.fresh_images)
  (Demo.concept 5 2) [((512, 512), PyFloat.one)] Demo.empty_world PyNone).
- apply (bool_decide_unpack _). vm_compute. exact I.
- simpl. lia.
- vm_compute. reflexivity.
Defined.

(** Two identical images, saved twice. *)
Lemma persisting_twice_changes_nothing_witness :
  let X := Demo.collaborators Demo.same_image in
  let images := replicate 2 {| Demo.image_size := (512, 512); Demo.pixels := [Byte.x00] |} in
  ∃ st', save_images X ["data"; "class"] images Demo.class_dir_world = (Ok (), st') ∧
         save_images X ["data"; "class"] images st' = (Ok (), st').
Proof.
apply (persisting_twice_changes_nothing (Demo.collaborators Demo.same_image)
  ["data"; "class"]
  (replicate 2 {| Demo.image_size := (512, 512); Demo.pixels := [Byte.x00] |})
  Demo.class_dir_world ∅).
- by vm_compute.
- intros image es0 _. by rewrite lookup_empty.
Defined.

(** An instance image survives a run of [main]; so does what the
    libraries fetched while they built the pipeline. *)
Lemma main_keeps_other_files_witness :
  let X := Demo.collaborators Demo.fresh_images in
  let cfg := Demo.square_config [Demo.concept 5 2] in
  let keeps (run : result pyval * World) (q : path) (data : bytes) :=
    ∃ data', FS.lookup (fs run.2) q = Some (File data') ∧
      ((∀ concept name, concept ∈ data_concepts cfg →
          ag_enabled (auto_generate concept) = true →
          q ≠ class_set_path concept ++ [name]) → data' = data) in
  keeps (main X cfg (Demo.instance_world 2)) ["data"; "instance"; "0.png"] [] ∧
  keeps (main (Demo.fetching X) cfg (Demo.instance_world 2)) ["cache"; "unet"] [Byte.x01].
Proof.
split.
- apply (proj2 (main_keeps_other_files (Demo.collaborators Demo.fresh_images)
    (Demo.square_config [Demo.concept 5 2]) (Demo.instance_world 2)
    ["data"; "instance"; "0.png"] [])).
  + intros evs n step q data Hq. exact Hq.
  + vm_compute. reflexivity.
- apply (proj1 (main_keeps_other_files
    (Demo.fetching (Demo.collaborators Demo.fresh_images))
    (Demo.square_config [Demo.concept 5 2]) (Demo.instance_world 2)
    ["cache"; "unet"] [Byte.x01])).
  vm_compute. reflexivity.
Defined.

(** Two concepts switched off: with a build that comes back, and on a
    machine without a GPU. *)
Lemma main_all_disabled_warns_each_witness :
  let X := Demo.collaborators Demo.fresh_images in
  let cfg := Demo.square_config [Demo.skipped_concept; Demo.skipped_concept] in
  main X cfg Demo.empty_world =
    (Ok PyNone,
     {| fs := Dir ∅;
        events := (EvBuild <$> build_steps cfg) ++
          [EvWarning "Concept [0] skipped because class auto generate is not enabled.";
           EvWarning "Concept [1] skipped because class auto generate is not enabled."] |})
  ∧ main (Demo.without_gpu X) cfg Demo.empty_world =
      (Raise RuntimeError, {| fs := Dir ∅; events := EvBuild <$> build_steps cfg |}).
Proof.
split.
- refine (proj2 (main_all_disabled_warns_each (Demo.collaborators Demo.fresh_images)
    (Demo.square_config [Demo.skipped_concept; Demo.skipped_concept]) Demo.empty_world
    (Ok ())
    {| fs := Dir ∅;
       events := EvBuild <$> build_steps
         (Demo.square_config [Demo.skipped_concept; Demo.skipped_concept]) |} _ _ _)).
  + reflexivity.
  + repeat constructor.
  + vm_compute. reflexivity.
- refine (proj2 (main_all_disabled_warns_each
    (Demo.without_gpu (Demo.collaborators Demo.fresh_images))
    (Demo.square_config [Demo.skipped_concept; Demo.skipped_concept]) Demo.empty_world
    (Raise RuntimeError)
    {| fs := Dir ∅;
       events := EvBuild <$> build_steps
         (Demo.square_config [Demo.skipped_concept; Demo.skipped_concept]) |} _ _ _)).
  + reflexivity.
  + repeat constructor.
  + vm_compute. reflexivity.
Defined.

(** The second of three concepts fails the assertion. *)
Lemma main_stops_at_failing_concept_witness :
  let X := Demo.collaborators_with Demo.fresh_images Demo.bucket_each in
  let cfg := with_concepts Demo.bucketing_config
               [Demo.skipped_concept; Demo.concept 100 8; Demo.concept 5 2] in
  main X cfg (Demo.instance_world 10) =
    (Raise AssertionError,
     (main X (with_concepts cfg [Demo.skipped_concept]) (Demo.instance_world 10)).2).
Proof.
apply (main_stops_at_failing_concept
  (Demo.collaborators_with Demo.fresh_images Demo.bucket_each)
  (with_concepts Demo.bucketing_config
     [Demo.skipped_concept; Demo.concept 100 8; Demo.concept 5 2])
  [Demo.skipped_concept] (Demo.concept 100 8) [Demo.concept 5 2]
  (Demo.instance_world 10)
  (main (Demo.collaborators_with Demo.fresh_images Demo.bucket_each)
     (with_concepts Demo.bucketing_config [Demo.skipped_concept])
     (Demo.instance_world 10)).2).
- reflexivity.
- reflexivity.
- vm_compute. reflexivity.
- vm_compute. reflexivity.
Defined.

(** No instance image and the one bucket of [one_bucket]. *)
Lemma no_instance_images_never_generates_witness :
  process_concept (Demo.collaborators Demo.fresh_images) Demo.bucketing_config 0
    (Demo.concept 100 8) (Demo.instance_world 0) =
    (Raise ZeroDivisionError, Demo.instance_world 0).
Proof.
apply (no_instance_images_never_generates (Demo.collaborators Demo.fresh_images)
  Demo.bucketing_config 0 (Demo.concept 100 8) (Demo.instance_world 0) []).
- reflexivity.
- reflexivity.
- vm_compute. reflexivity.
- reflexivity.
Defined.

Lemma cur_dist_counts_witness :
  let m := [("a.jpg", (512, 512)); ("b.jpg", (512, 768)); ("c.jpg", (512, 512))] in
  Dict.wf (cur_dist m) ∧
  (∀ sz, Dict.get (cur_dist m) sz =
     if decide (sz ∈ Dict.values m)
     then Some (Z.of_nat (length (filter (λ kv, kv.2 = sz) m)))
     else None) ∧
  sum_values (cur_dist m) = Z.of_nat (length m).
Proof.
apply (cur_dist_counts [("a.jpg", (512, 512)); ("b.jpg", (512, 768)); ("c.jpg", (512, 512))]).
apply (bool_decide_unpack _). vm_compute. exact I.
Defined.

Lemma more_inventory_fewer_requests_witness :
  let T := [((512, 768), 6); ((768, 512), 4)] in
  (∀ b, Dict.get_default (dist_diff T [((512, 768), 3)]) b 0
        <= Dict.get_default (dist_diff T []) b 0) ∧
  (∀ b, b ∈ Dict.keys (dist_diff T [((512, 768), 3)]) → b ∈ Dict.keys (dist_diff T [])) ∧
  sum_values (dist_diff T [((512, 768), 3)]) <= sum_values (dist_diff T []).
Proof.
apply (more_inventory_fewer_requests [((512, 768), 6); ((768, 512), 4)] []
  [((512, 768), 3)]).
- apply (bool_decide_unpack _). vm_compute. exact I.
- intros b. unfold Dict.get_default. simpl. case_decide; simpl; lia.
Defined.

Lemma targets_never_negative_witness :
  Forall (λ t, 0 <= t) (Dict.values [((512, 768), 6); ((768, 512), 4)]).
Proof.
apply (targets_never_negative 10 Demo.spec_proportions [((512, 768), 6); ((768, 512), 4)]).
- lia.
- repeat constructor.
- vm_compute. reflexivity.
Defined.

(** Five images wanted, two of the square size there. *)
Lemma square_bucket_target_is_total_witness :
  ∃ size_dist,
    size_dist_of (Demo.collaborators Demo.fresh_images)
      (Demo.square_config [Demo.concept 5 2]) (Demo.concept 5 2) Demo.empty_world
      = (Ok size_dist, Demo.empty_world) ∧
    target_dist 5 size_dist = Ok [((512, 512), 5)] ∧
    plan size_dist 5 [((512, 512), 2)] =
      Ok (if decide (5 > Dict.get_default [((512, 512), 2)] (512, 512) 0)
          then [((512, 512), 5 - Dict.get_default [((512, 512), 2)] (512, 512) 0)]
          else []).
Proof.
apply (square_bucket_target_is_total (Demo.collaborators Demo.fresh_images)
  (Demo.square_config [Demo.concept 5 2]) (Demo.concept 5 2) Demo.empty_world
  [((512, 512), 2)]).
- reflexivity.
- simpl. lia.
Defined.

Lemma blocked_class_dir_raises_witness :
  generate_class_images (Demo.collaborators Demo.fresh_images) (Demo.concept 5 2)
    [((512, 512), PyFloat.one)] Demo.blocked_world =
    (Raise NotADirectoryError, Demo.blocked_world).
Proof.
apply (blocked_class_dir_raises (Demo.collaborators Demo.fresh_images) (Demo.concept 5 2)
  [((512, 512), PyFloat.one)] Demo.blocked_world).
vm_compute. reflexivity.
Defined.

Lemma save_onto_directory_raises_witness :
  let X := Demo.collaborators Demo.same_image in
  let run := while_true X (Demo.concept 100 8) 512 512 2 Demo.occupied_world in
  run.1 = Raise IsADirectoryError ∧
  events run.2 = events Demo.occupied_world ++
    [EvPipelineCall (batch_request (Demo.concept 100 8) 512 512
       (actual_bs 2 (batch_size (auto_generate (Demo.concept 100 8)))))].
Proof.
apply (save_onto_directory_raises (Demo.collaborators Demo.same_image)
  (Demo.concept 100 8) 512 512 2 Demo.occupied_world
  (replicate 2 {| Demo.image_size := (512, 512); Demo.pixels := [Byte.x00] |})
  {| Demo.image_size := (512, 512); Demo.pixels := [Byte.x00] |}
  {[ "00.jpg" := Dir ∅ ]} ∅).
- vm_compute. reflexivity.
- reflexivity.
- simpl. apply list_elem_of_here.
- vm_compute. reflexivity.
- vm_compute. reflexivity.
Defined.

Lemma failing_pipeline_aborts_at_first_call_witness :
  generate_class_images (Demo.collaborators Demo.failing) (Demo.concept 5 2)
    [((512, 512), PyFloat.one)] Demo.empty_world =
    (Raise RuntimeError,
     {| fs := fs Demo.class_dir_world;
        events := events Demo.empty_world ++
          [EvInfoDist "Current distribution" [];
           EvInfoDist "Target distribution" [((512, 512), 5)];
           EvInfoDist "Distribution diff" [((512, 512), 5)];
           EvInfoTotal (sum_values [((512, 512), 5)]);
           EvProgressOpen (sum_values [((512, 512), 5)]);
           EvPostfix (512, 512);
           EvPipelineCall (batch_request (Demo.concept 5 2) 512 512
             (actual_bs 5 (batch_size (auto_generate (Demo.concept 5 2)))))] |}).
Proof.
apply (failing_pipeline_aborts_at_first_call (Demo.collaborators Demo.failing)
  (Demo.concept 5 2) [((512, 512), PyFloat.one)] Demo.empty_world Demo.class_dir_world
  [] [((512, 512), 5)] 512 512 5 [] RuntimeError).
- vm_compute. reflexivity.
- vm_compute. reflexivity.
- vm_compute. reflexivity.
- simpl. lia.
- intros evs r. reflexivity.
Defined.

(** ** The whole trace of a run that returns *)

(** X19. The trace of a run that returns is fixed by the plan alone: after
    the three distributions, the total and the opening of the progress bar,
    each bucket of the deficit map is announced in turn and served by its
    expected batches, every call of the pipeline followed at once by the
    progress update for the size asked for.  What the pipeline returns has
    no part in it. *)
Theorem returning_run_follows_the_plan (X : Collaborators) (concept : concept_config)
    (size_dist : list (size * spec_float)) (st : World) (v : pyval) (st' : World) :
  generate_class_images X concept size_dist st = (Ok v, st') →
  ∃ cur T,
    (inventory X concept st).1 = Ok cur ∧
    target_dist (num_target (auto_generate concept)) size_dist = Ok T ∧
    events st' = events st ++
      [EvInfoDist "Current distribution" cur;
       EvInfoDist "Target distribution" T;
       EvInfoDist "Distribution diff" (dist_diff T cur);
       EvInfoTotal (sum_values (dist_diff T cur));
       EvProgressOpen (sum_values (dist_diff T cur))] ++
      planned_trace concept (dist_diff T cur).
Proof.
rewrite generate_class_images_stages.
pose proof (inventory_events X concept st) as Hinv.
destruct (inventory X concept st) as [[cur|e] st0]; [|done]. simpl in Hinv.
destruct (target_dist _ size_dist) as [T|e]; [|done].
match goal with |- context [fulfil X concept ?D ?s] =>
  pose proof (fulfil_planned_trace X concept D s) as Htrace;
  destruct (fulfil X concept D s) as [[[]|e] st1]
end; [|done].
intros [= <- <-]. exists cur, T. split_and!; [done | done |].
simpl in Htrace. rewrite (Htrace eq_refl), Hinv, <- app_assoc. done.
Qed.

Lemma returning_run_follows_the_plan_witness :
  let run := generate_class_images (Demo.collaborators Demo.fresh_images)
               (Demo.concept 5 2) [((512, 512), PyFloat.one)] Demo.empty_world in
  ∃ cur T,
    (inventory (Demo.collaborators Demo.fresh_images) (Demo.concept 5 2)
       Demo.empty_world).1 = Ok cur ∧
    target_dist (num_target (auto_generate (Demo.concept 5 2)))
      [((512, 512), PyFloat.one)] = Ok T ∧
    events run.2 = events Demo.empty_world ++
      [EvInfoDist "Current distribution" cur;
       EvInfoDist "Target distribution" T;
       EvInfoDist "Distribution diff" (dist_diff T cur);
       EvInfoTotal (sum_values (dist_diff T cur));
       EvProgressOpen (sum_values (dist_diff T cur))] ++
      planned_trace (Demo.concept 5 2) (dist_diff T cur).
Proof.
apply (returning_run_follows_the_plan (Demo.collaborators Demo.fresh_images)
  (Demo.concept 5 2) [((512, 512), PyFloat.one)] Demo.empty_world PyNone).
vm_compute. reflexivity.
Defined.

(** ** A concept without bucketing, from the configuration to the calls *)

(** X20. Without aspect-ratio bucketing, the turn of an enabled concept that
    goes through asks the pipeline for exactly the images missing from the
    configured total: every call is for the square of the configured
    resolution, and the sizes asked for add up to [num_target] less the
    square images the inventory found, or to nothing when there are as
    many. *)
Theorem square_run_asks_for_the_missing (X : Collaborators) (cfg : config) (i : nat)
    (concept : concept_config) (st st' : World) :
  ag_enabled (auto_generate concept) = true →
  aspect_ratio_bucket_enabled cfg = false →
  0 <= num_target (auto_generate concept) < 2 ^ 53 →
  0 < batch_size (auto_generate concept) →
  process_concept X cfg i concept st = (Ok (), st') →
  ∃ cur evs,
    (inventory X concept st).1 = Ok cur ∧
    events st' = events st ++ evs ∧
    Forall (λ r, width r = data_resolution cfg ∧ height r = data_resolution cfg)
      (requests evs) ∧
    sum_list_Z (request_sizes evs)
    = Z.max 0 (num_target (auto_generate concept)
               - Dict.get_default cur (data_resolution cfg, data_resolution cfg) 0).
Proof.
intros Hon Hoff HN Hm Hrun.
unfold process_concept in Hrun. rewrite Hon in Hrun. simpl in Hrun.
unfold bind at 1, size_dist_of in Hrun. rewrite Hoff in Hrun. simpl in Hrun.
unfold bind, ret in Hrun. rewrite generate_class_images_stages in Hrun.
pose proof (inventory_events X concept st) as Hinv.
destruct (inventory X concept st) as [[cur|e] st0]; [|done]. simpl in Hinv.
exists cur.
assert (HT : target_dist (num_target (auto_generate concept))
    [((data_resolution cfg, data_resolution cfg), PyFloat.one)]
  = Ok [((data_resolution cfg, data_resolution cfg), num_target (auto_generate concept))]).
{ unfold target_dist, Dict.comp_result. simpl. by rewrite round_target_one. }
rewrite HT in Hrun.
match type of Hrun with context [fulfil X concept ?D ?s] =>
  destruct (fulfil_requests X concept D s) as (evs & Hev & _ & Hall);
  destruct (fulfil X concept D s) as [[[]|e] st1]
end; [|done].
injection Hrun as <-. simpl in Hev. specialize (Hall eq_refl).
assert (HD : dist_diff
    [((data_resolution cfg, data_resolution cfg), num_target (auto_generate concept))] cur
  = if decide (num_target (auto_generate concept)
               > Dict.get_default cur (data_resolution cfg, data_resolution cfg) 0)
    then [((data_resolution cfg, data_resolution cfg),
           num_target (auto_generate concept)
           - Dict.get_default cur (data_resolution cfg, data_resolution cfg) 0)]
    else []).
{ unfold dist_diff, Dict.comp. simpl.
  by case_decide; [rewrite bool_decide_eq_true_2 | rewrite bool_decide_eq_false_2]. }
rewrite HD in Hall.
eexists. split_and!; [done | rewrite Hev, Hinv, <- app_assoc; done | |].
- rewrite requests_app. simpl. rewrite Hall.
  apply Forall_forall. intros r (w & h & t & bs & Hin & _ & ->)%planned_requests_elem.
  case_decide; [|by apply elem_of_nil in Hin].
  by apply list_elem_of_singleton in Hin as [= -> -> _].
- rewrite request_sizes_app. simpl.
  rewrite request_sizes_requests, Hall, planned_requests_sizes.
  case_decide.
  + rewrite planned_batches_cons. change (planned_batches [] _) with (@nil Z).
    rewrite app_nil_r, batches_sum by lia. lia.
  + change (planned_batches [] _) with (@nil Z). simpl. lia.
Qed.

(** Five images wanted, one there: four are asked for. *)
Lemma square_run_asks_for_the_missing_witness :
  let X := Demo.collaborators Demo.fresh_images in
  let cfg := Demo.square_config [Demo.concept 5 2] in
  let run := process_concept X cfg 0 (Demo.concept 5 2) Demo.stocked_world in
  ∃ cur evs,
    (inventory X (Demo.concept 5 2) Demo.stocked_world).1 = Ok cur ∧
    events run.2 = events Demo.stocked_world ++ evs ∧
    Forall (λ r, width r = data_resolution cfg ∧ height r = data_resolution cfg)
      (requests evs) ∧
    sum_list_Z (request_sizes evs)
    = Z.max 0 (num_target (auto_generate (Demo.concept 5 2))
               - Dict.get_default cur (data_resolution cfg, data_resolution cfg) 0).
Proof.
apply (square_run_asks_for_the_missing (Demo.collaborators Demo.fresh_images)
  (Demo.square_config [Demo.concept 5 2]) 0 (Demo.concept 5 2) Demo.stocked_world).
- reflexivity.
- reflexivity.
- simpl. lia.
- simpl. lia.
- vm_compute. reflexivity.
Defined.
